(** * Eufacts ETL: the cube-to-tabular reduction of [etl/eufacts.py]

    A shallow embedding of the pure core of the Eurostat ETL script
    ([_linear_index_to_coords], [_build_dim_meta], [_choose_pct_unit],
    [parse_latest_and_timeseries]) together with the properties of the
    two projections it produces.

    Conventions of the embedding:
    - Python [int] is [Z]; [%] and [//] are [Z.modulo] and [Z.div], which
      agree with Python's floor semantics for every non-zero divisor; a zero
      divisor raises [ZeroDivisionError].
    - JSON numbers are exact rationals [Q]; JSON [null] is [None].
    - A Python [dict] is an association list in insertion order
      ([d[k] = v] overwrites in place or appends at the end).
    - Exceptions are the [Err] branch of [result]. *)

From Stdlib Require Import ZArith QArith List String Ascii Bool Lia.
From Stdlib Require Import Permutation Sorted OrderedTypeEx.
Import ListNotations.

Local Open Scope string_scope.
Local Open Scope list_scope.
Local Open Scope Z_scope.

(* ------------------------------------------------------------------ *)
(** ** Python runtime: exceptions, dicts, truthiness, [int()], [in] *)
(* ------------------------------------------------------------------ *)

Module Py.

Inductive exn : Type :=
| ValueError (msg : string)
| KeyError
| ZeroDivisionError
| TypeError
| RuntimeError (msg : string).

Inductive result (A : Type) : Type :=
| OK (a : A)
| Err (e : exn).
Arguments OK {A} a.
Arguments Err {A} e.

Definition bind {A B : Type} (r : result A) (k : A -> result B) : result B :=
  match r with
  | OK a => k a
  | Err e => Err e
  end.

Definition dict (K V : Type) : Type := list (K * V).

Section Dict.
Context {K V : Type} (eqb : K -> K -> bool).

(** [d.get(k)] *)
Fixpoint get (d : dict K V) (k : K) : option V :=
  match d with
  | [] => None
  | (k', v) :: d' => if eqb k' k then Some v else get d' k
  end.

(** [d.get(k, dflt)] *)
Definition get_default (d : dict K V) (k : K) (dflt : V) : V :=
  match get d k with
  | Some v => v
  | None => dflt
  end.

(** [d[k]] *)
Definition getitem (d : dict K V) (k : K) : result V :=
  match get d k with
  | Some v => OK v
  | None => Err KeyError
  end.

(** [k in d] *)
Definition contains (d : dict K V) (k : K) : bool :=
  match get d k with
  | Some _ => true
  | None => false
  end.

(** [d[k] = v]: an existing key keeps its place, a new key goes last. *)
Fixpoint set (d : dict K V) (k : K) (v : V) : dict K V :=
  match d with
  | [] => [(k, v)]
  | (k', v') :: d' =>
      if eqb k' k then (k', v) :: d' else (k', v') :: set d' k v
  end.

(** In-place mutation of the object stored under [k]
    ([d[k]["series"].append(e)] and the like); other entries are
    untouched, and so is the insertion order. *)
Fixpoint modify (d : dict K V) (k : K) (f : V -> V) : dict K V :=
  match d with
  | [] => []
  | (k', v') :: d' =>
      if eqb k' k then (k', f v') :: d' else (k', v') :: modify d' k f
  end.

(** [{k: v for k, v in kvs}] *)
Definition of_items (kvs : list (K * V)) : dict K V :=
  fold_left (fun d kv => set d (fst kv) (snd kv)) kvs [].
End Dict.

Definition keys {K V : Type} (d : dict K V) : list K := map fst d.
Definition values {K V : Type} (d : dict K V) : list V := map snd d.

(** [enumerate(l)], counting from [start]. *)
Fixpoint enumerate_from {A : Type} (start : Z) (l : list A) : list (Z * A) :=
  match l with
  | [] => []
  | a :: l' => (start, a) :: enumerate_from (start + 1) l'
  end.
Definition enumerate {A : Type} (l : list A) : list (Z * A) :=
  enumerate_from 0 l.

(** Truthiness of an optional string: [None] and [""] are falsy. *)
Definition truthy (s : option string) : bool :=
  match s with
  | Some (String _ _) => true
  | _ => false
  end.

(** [needle in s] on strings. *)
Fixpoint str_in (needle s : string) : bool :=
  String.prefix needle s ||
  match s with
  | EmptyString => false
  | String _ s' => str_in needle s'
  end.

(** [a == b] on optional strings and on optional ints. *)
Definition eqb_ostr (a b : option string) : bool :=
  match a, b with
  | Some x, Some y => String.eqb x y
  | None, None => true
  | _, _ => false
  end.

Definition eqb_oZ (a b : option Z) : bool :=
  match a, b with
  | Some x, Some y => Z.eqb x y
  | None, None => true
  | _, _ => false
  end.

(** *** [int(k)] for a string [k]

    Base-ten literals as [int()] reads them: whitespace (tab to carriage
    return, the four separators 28 to 31, space) is stripped at both ends,
    one sign may lead, and single underscores may separate digits.  Anything
    else raises [ValueError]. *)

Definition is_space (c : ascii) : bool :=
  let n := N_of_ascii c in
  ((9 <=? n) && (n <=? 13) || (28 <=? n) && (n <=? 31) || (n =? 32))%N.

Definition digit_of (c : ascii) : option Z :=
  let n := N_of_ascii c in
  if ((48 <=? n) && (n <=? 57))%N then Some (Z.of_N n - 48) else None.

Fixpoint lstrip (l : list ascii) : list ascii :=
  match l with
  | c :: l' => if is_space c then lstrip l' else l
  | [] => []
  end.

Definition strip (l : list ascii) : list ascii :=
  rev (lstrip (rev (lstrip l))).

(** [after_digit] tells whether the previous character was a digit, the only
    place where an underscore or the end of the literal is accepted. *)
Fixpoint digits_value (acc : Z) (after_digit : bool) (l : list ascii)
  : option Z :=
  match l with
  | [] => if after_digit then Some acc else None
  | c :: l' =>
      match digit_of c with
      | Some d => digits_value (10 * acc + d) true l'
      | None =>
          if (N_of_ascii c =? 95)%N && after_digit
          then digits_value acc false l'
          else None
      end
  end.

Definition int_of_string (k : string) : result Z :=
  let bad := Err (ValueError "invalid literal for int() with base 10") in
  let of_opt (sign : Z) (o : option Z) :=
    match o with
    | Some n => OK (sign * n)
    | None => bad
    end in
  match strip (list_ascii_of_string k) with
  | [] => bad
  | c :: l =>
      if (N_of_ascii c =? 45)%N then of_opt (-1) (digits_value 0 false l)
      else if (N_of_ascii c =? 43)%N then of_opt 1 (digits_value 0 false l)
      else of_opt 1 (digits_value 0 false (c :: l))
  end.

End Py.

Import Py.

Notation "x <- c1 ;; c2" := (Py.bind c1 (fun x => c2))
  (at level 61, c1 at next level, right associativity).
Notation "' pat <- c1 ;; c2" := (Py.bind c1 (fun x => match x with pat => c2 end))
  (at level 61, pat pattern, c1 at next level, right associativity).

(* ------------------------------------------------------------------ *)
(** ** Coordinate decoder *)
(* ------------------------------------------------------------------ *)

(** The loop [for size in reversed(dims_sizes)] of
    [_linear_index_to_coords]: [rsizes] is the reversed size list still to
    visit, [coords] the positions appended so far. *)
Fixpoint decode_loop (idx : Z) (rsizes : list Z) (coords : list Z)
  : result (list Z) :=
  match rsizes with
  | [] => OK coords
  | size :: rest =>
      if size =? 0 then Err ZeroDivisionError
      else decode_loop (idx / size) rest (coords ++ [idx mod size])
  end.

Definition _linear_index_to_coords (idx : Z) (dims_sizes : list Z)
  : result (list Z) :=
  coords <- decode_loop idx (rev dims_sizes) [] ;;
  OK (rev coords).

(** The inverse direction is not in the source; it is the re-encoding the
    round-trip property speaks of: the position vector read as mixed-radix
    digits over the same sizes, most significant (first dimension) first. *)
Fixpoint encode_from (acc : Z) (coords sizes : list Z) : Z :=
  match coords, sizes with
  | c :: cs, s :: ss => encode_from (acc * s + c) cs ss
  | _, _ => acc
  end.

Definition coords_to_linear_index (coords sizes : list Z) : Z :=
  encode_from 0 coords sizes.

Definition product (sizes : list Z) : Z := fold_right Z.mul 1 sizes.

(** Every position lies in [0, size) of its dimension, one per dimension. *)
Definition in_range (coords sizes : list Z) : Prop :=
  Forall2 (fun c s => 0 <= c < s) coords sizes.

(* ------------------------------------------------------------------ *)
(** ** [sorted] and [list.sort] *)
(* ------------------------------------------------------------------ *)

(** Python sorts by the [<] of the keys alone, stably, and [reverse=True]
    keeps the stability (equal keys stay in their original order).  [<] may
    raise [TypeError] (a [None] against a [str] or an [int]); a comparison
    sort has to compare, directly, any two elements whose order only that
    comparison can settle, so the call raises exactly when two keys of the
    list cannot be compared. *)
Section PySort.
Context {A Key : Type} (key : A -> Key) (lt : Key -> Key -> result bool).

Definition comparable (a b : A) : bool :=
  match lt (key a) (key b), lt (key b) (key a) with
  | OK _, OK _ => true
  | _, _ => false
  end.

Definition all_comparable (l : list A) : bool :=
  forallb (fun a => forallb (comparable a) l) l.

Definition ltb (a b : A) : bool :=
  match lt (key a) (key b) with
  | OK true => true
  | _ => false
  end.

(** [x] stood before every element of [l] in the input. *)
Fixpoint insert_asc (x : A) (l : list A) : list A :=
  match l with
  | [] => [x]
  | y :: l' => if ltb y x then y :: insert_asc x l' else x :: l
  end.

Fixpoint insert_desc (x : A) (l : list A) : list A :=
  match l with
  | [] => [x]
  | y :: l' => if ltb x y then y :: insert_desc x l' else x :: l
  end.

Definition py_sorted (reverse : bool) (l : list A) : result (list A) :=
  if all_comparable l
  then OK (fold_right (if reverse then insert_desc else insert_asc) [] l)
  else Err TypeError.
End PySort.

(** Strings compare by code point, which on UTF-8 bytes is [String.ltb]. *)
Fixpoint str_insert (x : string) (l : list string) : list string :=
  match l with
  | [] => [x]
  | y :: l' => if String.ltb y x then y :: str_insert x l' else x :: l
  end.

(** [sorted({...})] over strings: the set comprehension drops duplicates,
    [sorted] orders what is left. *)
Definition sorted_set (codes : list string) : list string :=
  fold_right str_insert [] (nodup string_dec codes).

(* ------------------------------------------------------------------ *)
(** ** Data model *)
(* ------------------------------------------------------------------ *)

(** The JSON-stat document as [requests] parses it.  A field that the code
    reads with [cube[...]] or [.get(...)] is optional here: reading a missing
    one with [[...]] raises [KeyError]. *)
Record Category : Type := {
  cat_index : option (dict string Z);
  cat_label : option (dict string string);
  cat_length : option Z
}.

Record Dimension : Type := {
  dim_category : option Category
}.

Record Cube : Type := {
  cube_id : option (list string);
  cube_size : option (list Z);
  cube_dimension : option (dict string Dimension);
  cube_value : option (dict string (option Q))
}.

(** One entry of [dim_meta]. *)
Record DimMeta : Type := {
  dm_index : dict string Z;
  dm_inv_index : dict Z string;
  dm_labels : dict string string;
  dm_size : Z
}.

(** One entry of [coord_map]. *)
Record Coord : Type := {
  code : string;
  label : string;
  pos : Z
}.

(** One element of [all_records]. *)
Record FlatRecord : Type := {
  value : option Q;
  unit_code : option string;
  unit_label : option string;
  geo_code : option string;
  geo_label : option string;
  time_code : option string;
  time_label : option string;
  time_pos : option Z
}.

(** One element of [latest_output]. *)
Record LatestOut : Type := {
  lo_country_code : option string;
  lo_country : option string;
  lo_time : option string;
  lo_value_pct_gdp : option Q
}.

(** One element of a series, and one value of [series_by_geo]. *)
Record SeriesEntry : Type := {
  se_time : option string;
  se_value_pct_gdp : option Q
}.

Record GeoSeries : Type := {
  gs_country_code : string;
  gs_country : option string;
  gs_unit : string;
  gs_series : list SeriesEntry
}.

Record Meta : Type := {
  meta_dim_ids : list string;
  meta_units_present : list string;
  meta_chosen_unit : option string;
  meta_latest_time_code : string;
  meta_latest_time_label : string
}.

(** [d[field]] on the parsed document. *)
Definition field {A : Type} (o : option A) : result A :=
  match o with
  | Some a => OK a
  | None => Err KeyError
  end.

(** [d.get(field, {})] *)
Definition field_or_empty {K V : Type} (o : option (dict K V)) : dict K V :=
  match o with
  | Some d => d
  | None => []
  end.

(* ------------------------------------------------------------------ *)
(** ** Dimension catalog builder *)
(* ------------------------------------------------------------------ *)

Definition swap {A B : Type} (p : A * B) : B * A := (snd p, fst p).

(** The body of [for d in dim_ids] up to the value stored in [dim_meta[d]]. *)
Definition build_dim (dimension : dict string Dimension) (d : string)
  : result DimMeta :=
  dim <- getitem String.eqb dimension d ;;
  cat <- field (dim_category dim) ;;
  let index_map :=
    match field_or_empty (cat_index cat) with
    | [] =>
        let members := keys (field_or_empty (cat_label cat)) in
        of_items String.eqb (map swap (enumerate members))
    | supplied => supplied
    end in
  let labels := field_or_empty (cat_label cat) in
  let inv_index := of_items Z.eqb (map swap index_map) in
  let size_guess :=
    match cat_length cat with
    | Some n => n
    | None => Z.of_nat (List.length index_map)
    end in
  OK {| dm_index := index_map; dm_inv_index := inv_index;
        dm_labels := labels; dm_size := size_guess |}.

Fixpoint build_loop (dimension : dict string Dimension) (dim_ids : list string)
  (dim_meta : dict string DimMeta) : result (dict string DimMeta) :=
  match dim_ids with
  | [] => OK dim_meta
  | d :: rest =>
      m <- build_dim dimension d ;;
      build_loop dimension rest (set String.eqb dim_meta d m)
  end.

Definition _build_dim_meta (cube : Cube)
  : result (list string * list Z * dict string DimMeta) :=
  dim_ids <- field (cube_id cube) ;;
  size <- field (cube_size cube) ;;
  dimension <- field (cube_dimension cube) ;;
  dim_meta <- build_loop dimension dim_ids [] ;;
  OK (dim_ids, size, dim_meta).

(* ------------------------------------------------------------------ *)
(** ** Unit disambiguator *)
(* ------------------------------------------------------------------ *)

(** [[r[f] for r in records if r.get(f)]] *)
Definition truthy_codes (f : FlatRecord -> option string)
  (records : list FlatRecord) : list string :=
  flat_map (fun r => match f r with
                     | Some c => if truthy (Some c) then [c] else []
                     | None => []
                     end) records.

Definition preferred_units : list string :=
  ["PC_GDP"; "PCGDP"; "PCT_GDP"; "PCTGDP"].

(** [candidate in units_present] *)
Definition str_mem (c : string) (l : list string) : bool :=
  existsb (String.eqb c) l.

(** The loop that fills [unit_labels]: the label kept for a code is the one
    of the first record that carries the code. *)
Fixpoint unit_labels_loop (records : list FlatRecord)
  (unit_labels : dict string (option string)) : dict string (option string) :=
  match records with
  | [] => unit_labels
  | r :: rest =>
      match unit_code r with
      | Some uc =>
          if truthy (Some uc) && negb (contains String.eqb unit_labels uc)
          then unit_labels_loop rest
                 (set String.eqb unit_labels uc (unit_label r))
          else unit_labels_loop rest unit_labels
      | None => unit_labels_loop rest unit_labels
      end
  end.

(** [for code, label in unit_labels.items(): if label and "%" in label] *)
Fixpoint first_pct_label (items : list (string * option string))
  : option string :=
  match items with
  | [] => None
  | (c, l) :: rest =>
      match l with
      | Some txt =>
          if truthy l && str_in "%" txt then Some c else first_pct_label rest
      | None => first_pct_label rest
      end
  end.

Definition _choose_pct_unit (records : list FlatRecord) : option string :=
  let units_present := sorted_set (truthy_codes unit_code records) in
  match find (fun candidate => str_mem candidate units_present)
             preferred_units with
  | Some candidate => Some candidate
  | None =>
      match first_pct_label (unit_labels_loop records []) with
      | Some c => Some c
      | None =>
          match units_present with
          | [only] => Some only
          | _ => None
          end
      end
  end.

(* ------------------------------------------------------------------ *)
(** ** Cell materializer *)
(* ------------------------------------------------------------------ *)

(** [for dim_name, pos in zip(dim_ids, coords)] *)
Fixpoint coord_loop (dim_meta : dict string DimMeta)
  (pairs : list (string * Z)) (coord_map : dict string Coord)
  : result (dict string Coord) :=
  match pairs with
  | [] => OK coord_map
  | (dim_name, p) :: rest =>
      m <- getitem String.eqb dim_meta dim_name ;;
      c <- getitem Z.eqb (dm_inv_index m) p ;;
      let l := get_default String.eqb (dm_labels m) c c in
      coord_loop dim_meta rest
        (set String.eqb coord_map dim_name {| code := c; label := l; pos := p |})
  end.

(** [coord_map.get(name, {}).get(part)] *)
Definition coord_part {A : Type} (coord_map : dict string Coord)
  (name : string) (part : Coord -> A) : option A :=
  option_map part (get String.eqb coord_map name).

Definition make_record (v : option Q) (coord_map : dict string Coord)
  : FlatRecord :=
  {| value := v;
     unit_code := coord_part coord_map "unit" code;
     unit_label := coord_part coord_map "unit" label;
     geo_code := coord_part coord_map "geo" code;
     geo_label := coord_part coord_map "geo" label;
     time_code := coord_part coord_map "time" code;
     time_label := coord_part coord_map "time" label;
     time_pos := coord_part coord_map "time" pos |}.

(** [for k, v in value_map.items()] *)
Fixpoint materialize_loop (dim_ids : list string) (size : list Z)
  (dim_meta : dict string DimMeta) (items : list (string * option Q))
  (all_records : list FlatRecord) : result (list FlatRecord) :=
  match items with
  | [] => OK all_records
  | (k, v) :: rest =>
      lin_idx <- int_of_string k ;;
      coords <- _linear_index_to_coords lin_idx size ;;
      coord_map <- coord_loop dim_meta (combine dim_ids coords) [] ;;
      materialize_loop dim_ids size dim_meta rest
        (all_records ++ [make_record v coord_map])
  end.

(* ------------------------------------------------------------------ *)
(** ** Projection builder *)
(* ------------------------------------------------------------------ *)

(** [if chosen_unit: all_records = [r for r in all_records if ...]] *)
Definition unit_filter (chosen_unit : option string)
  (all_records : list FlatRecord) : list FlatRecord :=
  if truthy chosen_unit
  then filter (fun r => eqb_ostr (unit_code r) chosen_unit) all_records
  else all_records.

(** The key [(x["value"] is None, x["value"])] and the [<] of such pairs:
    the first components decide when they differ ([False < True]); equal
    pairs are not smaller; otherwise the numbers decide. *)
Definition latest_key (r : FlatRecord) : bool * option Q :=
  (match value r with None => true | Some _ => false end, value r).

Definition latest_key_lt (a b : bool * option Q) : result bool :=
  if negb (Bool.eqb (fst a) (fst b)) then OK (negb (fst a) && fst b)
  else match snd a, snd b with
       | None, None => OK false
       | Some x, Some y => OK (negb (Qle_bool y x))
       | _, _ => Err TypeError
       end.

Definition latest_records_of (all_records : list FlatRecord)
  (latest_time_pos : Z) : result (list FlatRecord) :=
  py_sorted latest_key latest_key_lt true
    (filter (fun r => eqb_oZ (time_pos r) (Some latest_time_pos)) all_records).

Definition latest_out (r : FlatRecord) : LatestOut :=
  {| lo_country_code := geo_code r;
     lo_country := geo_label r;
     lo_time := time_label r;
     lo_value_pct_gdp := value r |}.

(** The key [(x["geo_code"], x["time_pos"])] and its [<]. *)
Definition geo_time_key (r : FlatRecord) : option string * option Z :=
  (geo_code r, time_pos r).

Definition geo_time_key_lt (a b : option string * option Z) : result bool :=
  if negb (eqb_ostr (fst a) (fst b)) then
    match fst a, fst b with
    | Some x, Some y => OK (String.ltb x y)
    | _, _ => Err TypeError
    end
  else if eqb_oZ (snd a) (snd b) then OK false
  else match snd a, snd b with
       | Some x, Some y => OK (x <? y)
       | _, _ => Err TypeError
       end.

Definition series_entry (r : FlatRecord) : SeriesEntry :=
  {| se_time := time_label r; se_value_pct_gdp := value r |}.

Definition push_entry (e : SeriesEntry) (s : GeoSeries) : GeoSeries :=
  {| gs_country_code := gs_country_code s;
     gs_country := gs_country s;
     gs_unit := gs_unit s;
     gs_series := gs_series s ++ [e] |}.

(** [for r in all_records_sorted] *)
Fixpoint series_loop (sorted_records : list FlatRecord)
  (series_by_geo : dict string GeoSeries) : dict string GeoSeries :=
  match sorted_records with
  | [] => series_by_geo
  | r :: rest =>
      match geo_code r with
      | Some geo =>
          if negb (truthy (Some geo)) then series_loop rest series_by_geo
          else
            let created :=
              if negb (contains String.eqb series_by_geo geo)
              then set String.eqb series_by_geo geo
                     {| gs_country_code := geo;
                        gs_country := geo_label r;
                        gs_unit := "% of GDP";
                        gs_series := [] |}
              else series_by_geo in
            series_loop rest
              (modify String.eqb created geo (push_entry (series_entry r)))
      | None => series_loop rest series_by_geo
      end
  end.

Definition timeseries_of (all_records : list FlatRecord)
  : result (dict string GeoSeries) :=
  all_records_sorted <-
    py_sorted geo_time_key geo_time_key_lt false all_records ;;
  OK (series_loop all_records_sorted []).

(* ------------------------------------------------------------------ *)
(** ** [parse_latest_and_timeseries] *)
(* ------------------------------------------------------------------ *)

Definition no_value_msg : string := "Eurostat response bevat geen 'value'.".
Definition no_time_msg : string :=
  "Geen 'time' dimensie gevonden in Eurostat response.".

Definition parse_latest_and_timeseries (cube : Cube)
  : result (list LatestOut * dict string GeoSeries * Meta) :=
  let value_map := field_or_empty (cube_value cube) in
  match value_map with
  | [] => Err (ValueError no_value_msg)
  | _ :: _ =>
      '(dim_ids, size, dim_meta) <- _build_dim_meta cube ;;
      match get String.eqb dim_meta "time" with
      | None => Err (ValueError no_time_msg)
      | Some time_meta =>
          let time_size := dm_size time_meta in
          let latest_time_pos := time_size - 1 in
          latest_time_code <-
            getitem Z.eqb (dm_inv_index time_meta) latest_time_pos ;;
          let latest_time_label :=
            get_default String.eqb (dm_labels time_meta)
              latest_time_code latest_time_code in
          all_records <- materialize_loop dim_ids size dim_meta value_map [] ;;
          let chosen_unit := _choose_pct_unit all_records in
          let all_records := unit_filter chosen_unit all_records in
          latest_records <- latest_records_of all_records latest_time_pos ;;
          let latest_output := map latest_out latest_records in
          series_by_geo <- timeseries_of all_records ;;
          let units_present :=
            sorted_set (truthy_codes unit_code all_records) in
          OK (latest_output, series_by_geo,
              {| meta_dim_ids := dim_ids;
                 meta_units_present := units_present;
                 meta_chosen_unit := chosen_unit;
                 meta_latest_time_code := latest_time_code;
                 meta_latest_time_label := latest_time_label |})
      end
  end.

(** Step 2 of [process_dataset]: the [try] around the parse logs and
    re-raises, then an empty cross-section aborts the dataset. *)
Definition process_dataset_parse (dataset_id : string) (cube : Cube)
  : result (list LatestOut * dict string GeoSeries * Meta) :=
  match parse_latest_and_timeseries cube with
  | Err e => Err e
  | OK (latest_records, series_by_geo, meta) =>
      match latest_records with
      | [] => Err (RuntimeError
                     ("[" ++ dataset_id ++
                      "] Geen records gevonden na filtering; ETL wordt afgebroken.")%string)
      | _ :: _ => OK (latest_records, series_by_geo, meta)
      end
  end.

(** [list(series_by_geo.values())] of [build_timeseries_object]. *)
Definition timeseries_records (series_by_geo : dict string GeoSeries)
  : list GeoSeries := values series_by_geo.

(* ------------------------------------------------------------------ *)
(** ** [eurostat_teina230.py]: the single-period script *)
(* ------------------------------------------------------------------ *)

(** The record of [parse_cube_last_period] has the fields of a flat record
    but for "time_pos"; the field stays [None] here, and nothing in that
    script reads it. *)
Definition make_record_last (v : option Q) (coord_map : dict string Coord)
  : FlatRecord :=
  {| value := v;
     unit_code := coord_part coord_map "unit" code;
     unit_label := coord_part coord_map "unit" label;
     geo_code := coord_part coord_map "geo" code;
     geo_label := coord_part coord_map "geo" label;
     time_code := coord_part coord_map "time" code;
     time_label := coord_part coord_map "time" label;
     time_pos := None |}.

(** [for k, v in value_map.items()] of [parse_cube_last_period]. *)
Fixpoint materialize_last_loop (dim_ids : list string) (size : list Z)
  (dim_meta : dict string DimMeta) (items : list (string * option Q))
  (records : list FlatRecord) : result (list FlatRecord) :=
  match items with
  | [] => OK records
  | (k, v) :: rest =>
      lin_idx <- int_of_string k ;;
      coords <- _linear_index_to_coords lin_idx size ;;
      coord_map <- coord_loop dim_meta (combine dim_ids coords) [] ;;
      materialize_last_loop dim_ids size dim_meta rest
        (records ++ [make_record_last v coord_map])
  end.

(** [[(r["unit_code"], r["unit_label"]) for r in records if r["unit_code"]]],
    the pairs the dict comprehension of the inlined unit choice runs over. *)
Definition unit_label_items (records : list FlatRecord)
  : list (string * option string) :=
  flat_map (fun r => match unit_code r with
                     | Some c => if truthy (Some c) then [(c, unit_label r)]
                                 else []
                     | None => []
                     end) records.

(** The unit choice inlined in [parse_cube_last_period]: the same cascade,
    but the labels come from a dict comprehension, where the last label of a
    code wins. *)
Definition choose_unit_inline (records : list FlatRecord) : option string :=
  let units_present := sorted_set (truthy_codes unit_code records) in
  match find (fun candidate => str_mem candidate units_present)
             preferred_units with
  | Some candidate => Some candidate
  | None =>
      let unit_labels := of_items String.eqb (unit_label_items records) in
      match first_pct_label unit_labels with
      | Some c => Some c
      | None =>
          match units_present with
          | [only] => Some only
          | _ => None
          end
      end
  end.

Record LastMeta : Type := {
  lm_dim_ids : list string;
  lm_units_present : list string;
  lm_chosen_unit : option string
}.

(** The catalog loop of this function is the loop of [_build_dim_meta],
    statement for statement. *)
Definition parse_cube_last_period (cube : Cube)
  : result (list FlatRecord * LastMeta) :=
  dimension <- field (cube_dimension cube) ;;
  dim_ids <- field (cube_id cube) ;;
  size <- field (cube_size cube) ;;
  value_map <- field (cube_value cube) ;;
  dim_meta <- build_loop dimension dim_ids [] ;;
  records <- materialize_last_loop dim_ids size dim_meta value_map [] ;;
  let units_present := sorted_set (truthy_codes unit_code records) in
  let chosen_unit := choose_unit_inline records in
  let records := unit_filter chosen_unit records in
  records <- py_sorted latest_key latest_key_lt true records ;;
  OK (records,
      {| lm_dim_ids := dim_ids;
         lm_units_present := units_present;
         lm_chosen_unit := chosen_unit |}).

(** [str.upper()] on ASCII text (the dataset identifiers are ASCII). *)
Definition upper_ascii (c : ascii) : ascii :=
  let n := N_of_ascii c in
  if ((97 <=? n) && (n <=? 122))%N then ascii_of_N (n - 32) else c.

Fixpoint upper (s : string) : string :=
  match s with
  | EmptyString => EmptyString
  | String c s' => String (upper_ascii c) (upper s')
  end.

Record OutputObject : Type := {
  ob_dataset : string;
  ob_description : string;
  ob_source_url : string;
  ob_updated_at : string;
  ob_latest_period : option string;
  ob_unit : string;
  ob_records : list LatestOut;
  ob_notes : list string
}.

(** [build_output]; [now] is the reading of the clock,
    [datetime.now(timezone.utc).isoformat()]. *)
Definition build_output (records : list FlatRecord)
  (source_url dataset_id now : string) : OutputObject :=
  let time_labels := sorted_set (truthy_codes time_label records) in
  let latest_time := hd_error time_labels in
  let simplified := map latest_out records in
  {| ob_dataset := upper dataset_id;
     ob_description :=
       "General government gross debt, % of GDP (quarterly, latest period)";
     ob_source_url := source_url;
     ob_updated_at := now;
     ob_latest_period := latest_time;
     ob_unit := "% of GDP";
     ob_records := simplified;
     ob_notes :=
       ["Eurostat 1.0 API; only the most recent quarter is included here.";
        "Values represent consolidated gross debt of general government.";
        "Figures may be revised by Eurostat; check source for metadata."] |}.

(* ------------------------------------------------------------------ *)
(** ** [main] of [eufacts.py]: one dataset after the other *)
(* ------------------------------------------------------------------ *)

(** [process_dataset] fetches, writes and hashes; what it returns for a
    configuration in a run, the pair of dataset identifier and manifest
    entry or the exception it raises, is the parameter here. *)
Section Main.
Context {Cfg Entry : Type} (process_dataset : Cfg -> result (string * Entry)).

(** [for cfg in DATASETS: try: ... except Exception as e: log.error(...)] *)
Fixpoint main_loop (datasets : list Cfg) (manifest : dict string Entry)
  : dict string Entry :=
  match datasets with
  | [] => manifest
  | cfg :: rest =>
      match process_dataset cfg with
      | OK (dataset_id, entry) =>
          main_loop rest (set String.eqb manifest dataset_id entry)
      | Err _ => main_loop rest manifest
      end
  end.

(** The ["datasets"] object of the manifest that [main] writes. *)
Definition main_manifest (datasets : list Cfg) : dict string Entry :=
  main_loop datasets [].
End Main.

(* ------------------------------------------------------------------ *)
(** ** Example cubes *)
(* ------------------------------------------------------------------ *)

Definition category (idx : dict string Z) (lbl : dict string string)
  : Dimension :=
  {| dim_category :=
       Some {| cat_index := Some idx; cat_label := Some lbl;
               cat_length := None |} |}.

(** [id=["unit","geo","time"]], [size=[1,2,2]], unit PC_GDP labelled "%",
    geographies BE and DE, values 80, 60, 82, 65 at indices 0..3. *)
Definition scenario_cube : Cube :=
  {| cube_id := Some ["unit"; "geo"; "time"];
     cube_size := Some [1; 2; 2];
     cube_dimension := Some
       [("unit", category [("PC_GDP", 0)] [("PC_GDP", "%")]);
        ("geo", category [("BE", 0); ("DE", 1)]
                         [("BE", "Belgium"); ("DE", "Germany")]);
        ("time", category [("2024-Q1", 0); ("2024-Q2", 1)]
                          [("2024-Q1", "2024-Q1"); ("2024-Q2", "2024-Q2")])];
     cube_value := Some
       [("0", Some 80%Q); ("1", Some 60%Q); ("2", Some 82%Q);
        ("3", Some 65%Q)] |}.

(* ------------------------------------------------------------------ *)
(** ** Notions used in the statements *)
(* ------------------------------------------------------------------ *)

(** The positions the decoder collects before its final [reversed]: least
    significant (last dimension) first. *)
Fixpoint digits (idx : Z) (rsizes : list Z) : list Z :=
  match rsizes with
  | [] => []
  | s :: rest => idx mod s :: digits (idx / s) rest
  end.

(** [len] of a collection of codes, counted without repetition. *)
Definition count_distinct (codes : list string) : nat :=
  List.length (nodup string_dec codes).

(** The positions [0, 1, 2, ...] handed out to [codes] in their order. *)
Definition numbered (codes : list string) : dict string Z :=
  combine codes (map Z.of_nat (seq 0 (List.length codes))).

(** The catalog of a cube, empty when the builder raises. *)
Definition dim_meta_of (cube : Cube) : dict string DimMeta :=
  match _build_dim_meta cube with
  | OK (_, _, dim_meta) => dim_meta
  | Err _ => []
  end.

(** A cube whose time dimension comes without an index map. *)
Definition labels_only_cube : Cube :=
  {| cube_id := Some ["geo"; "time"];
     cube_size := Some [1; 3];
     cube_dimension := Some
       [("geo", category [("NL", 0)] [("NL", "Netherlands")]);
        ("time",
         {| dim_category :=
              Some {| cat_index := None;
                      cat_label := Some [("2021", "2021"); ("2022", "2022");
                                         ("2023", "2023")];
                      cat_length := None |} |})];
     cube_value := Some [("0", Some 50%Q); ("2", Some 52%Q)] |}.

(** *** The unit cascade in the words of its contract

    A unit code is present when some record carries it (an empty code counts
    as no code).  The codes are taken in first-seen order over the records,
    each with the label of the first record that carries it. *)
Definition code_present (c : string) (records : list FlatRecord) : bool :=
  truthy (Some c) &&
  existsb (fun r => eqb_ostr (unit_code r) (Some c)) records.

Definition labelled (records : list FlatRecord)
  : list (string * option string) :=
  flat_map (fun r => match unit_code r with
                     | Some c => if truthy (Some c) then [(c, unit_label r)]
                                 else []
                     | None => []
                     end) records.

Fixpoint first_seen {V : Type} (kvs : list (string * V))
  : list (string * V) :=
  match kvs with
  | [] => []
  | (k, v) :: rest =>
      (k, v) :: filter (fun kv => negb (String.eqb (fst kv) k)) (first_seen rest)
  end.

Definition has_pct (l : option string) : bool :=
  match l with
  | Some txt => str_in "%" txt
  | None => false
  end.

Definition choose_unit_spec (records : list FlatRecord) : option string :=
  match find (fun c => code_present c records) preferred_units with
  | Some c => Some c
  | None =>
      let seen := first_seen (labelled records) in
      match find (fun cl => has_pct (snd cl)) seen with
      | Some (c, _) => Some c
      | None =>
          match seen with
          | [(c, _)] => Some c
          | _ => None
          end
      end
  end.

(** *** Orders on the outputs

    [asc] and [desc] are what a stable sort by [<] guarantees of any two
    elements, the first standing before the second. *)
Definition asc {A : Type} (ltb : A -> A -> bool) (a b : A) : Prop :=
  ltb b a = false.
Definition desc {A : Type} (ltb : A -> A -> bool) (a b : A) : Prop :=
  ltb a b = false.

(** The order the latest-period output has: a missing value ranks before
    everything, present values rank by size, larger first. *)
Definition missing_then_larger (a b : LatestOut) : Prop :=
  match lo_value_pct_gdp a, lo_value_pct_gdp b with
  | None, _ => True
  | Some _, None => False
  | Some x, Some y => (y <= x)%Q
  end.

(** The order with missing values trailing instead. *)
Definition larger_then_missing (a b : LatestOut) : Prop :=
  match lo_value_pct_gdp a, lo_value_pct_gdp b with
  | _, None => True
  | None, Some _ => False
  | Some x, Some y => (y <= x)%Q
  end.

(** Two geographies at one period, the second without a value. *)
Definition null_value_cube : Cube :=
  {| cube_id := Some ["unit"; "geo"; "time"];
     cube_size := Some [1; 2; 1];
     cube_dimension := Some
       [("unit", category [("PC_GDP", 0)] [("PC_GDP", "%")]);
        ("geo", category [("BE", 0); ("DE", 1)]
                         [("BE", "Belgium"); ("DE", "Germany")]);
        ("time", category [("2024", 0)] [("2024", "2024")])];
     cube_value := Some [("0", Some (-70)%Q); ("1", None)] |}.

(** [<] on the sort keys of two records, [False] where Python raises. *)
Definition latest_ltb : FlatRecord -> FlatRecord -> bool :=
  ltb latest_key latest_key_lt.
Definition geo_time_ltb : FlatRecord -> FlatRecord -> bool :=
  ltb geo_time_key geo_time_key_lt.

(** Three declared periods, observations for the first two only. *)
Definition sparse_cube : Cube :=
  {| cube_id := Some ["geo"; "time"];
     cube_size := Some [1; 3];
     cube_dimension := Some
       [("geo", category [("NL", 0)] [("NL", "Netherlands")]);
        ("time", category [("2021", 0); ("2022", 1); ("2023", 2)]
                          [("2021", "2021"); ("2022", "2022");
                           ("2023", "2023")])];
     cube_value := Some [("0", Some 50%Q); ("1", Some 51%Q)] |}.

(** No time dimension, a size of zero and a key that is no number: whatever
    the materializer would do with it, the parse has to stop before. *)
Definition timeless_cube : Cube :=
  {| cube_id := Some ["geo"];
     cube_size := Some [0];
     cube_dimension := Some [("geo", category [("NL", 0)] [("NL", "NL")])];
     cube_value := Some [("x", Some 1%Q)] |}.

(** The message of the [ValueError] the parse raises on a cube without
    values or without a time dimension. *)
Definition structural_error_msg (cube : Cube) : string :=
  match field_or_empty (cube_value cube) with
  | [] => no_value_msg
  | _ :: _ => no_time_msg
  end.

(** Geography code and value of each latest-period record. *)
Definition geo_values (latest : list LatestOut)
  : list (option string * option Q) :=
  map (fun o => (lo_country_code o, lo_value_pct_gdp o)) latest.

(** *** The timeseries key order, made total

    On keys that Python can compare, [<] of [(geo_code, time_pos)] pairs is
    the lexicographic order below, here extended to every pair of keys by
    ranking a missing component lowest. *)
Definition ostr_ltb (a b : option string) : bool :=
  match a, b with
  | Some x, Some y => String.ltb x y
  | None, Some _ => true
  | _, None => false
  end.

Definition oZ_ltb (a b : option Z) : bool :=
  match a, b with
  | Some x, Some y => x <? y
  | None, Some _ => true
  | _, None => false
  end.

Definition lex_ltb (a b : option string * option Z) : bool :=
  if eqb_ostr (fst a) (fst b) then oZ_ltb (snd a) (snd b)
  else ostr_ltb (fst a) (fst b).

(** Relations between two records of one series, the first standing before
    the second: time positions ascend, weakly or strictly. *)
Definition time_le (a b : FlatRecord) : Prop :=
  match time_pos a, time_pos b with
  | Some x, Some y => x <= y
  | None, None => True
  | _, _ => False
  end.

Definition time_lt (a b : FlatRecord) : Prop :=
  match time_pos a, time_pos b with
  | Some x, Some y => x < y
  | _, _ => False
  end.

(** [r["geo_code"] == g] and "has a geography code". *)
Definition geo_is (g : string) (r : FlatRecord) : bool :=
  eqb_ostr (geo_code r) (Some g).

Definition has_geo (r : FlatRecord) : bool := truthy (geo_code r).

Definition geo_of (r : FlatRecord) : string :=
  match geo_code r with
  | Some g => g
  | None => ""
  end.

(** The entries stored for [g], none when [g] has no series. *)
Definition series_of (g : string) (d : dict string GeoSeries)
  : list SeriesEntry :=
  match get String.eqb d g with
  | Some s => gs_series s
  | None => []
  end.

(** One pass of the series loop for a record that has a geography code. *)
Definition series_step (d : dict string GeoSeries) (r : FlatRecord)
  : dict string GeoSeries :=
  let geo := geo_of r in
  modify String.eqb
    (if negb (contains String.eqb d geo)
     then set String.eqb d geo
            {| gs_country_code := geo; gs_country := geo_label r;
               gs_unit := "% of GDP"; gs_series := [] |}
     else d)
    geo (push_entry (series_entry r)).

(** The record list both projections of a cube work on. *)
Definition unit_filtered_records (cube : Cube) : list FlatRecord :=
  match _build_dim_meta cube with
  | OK (dim_ids, size, dim_meta) =>
      match materialize_loop dim_ids size dim_meta
              (field_or_empty (cube_value cube)) [] with
      | OK all_records => unit_filter (_choose_pct_unit all_records) all_records
      | Err _ => []
      end
  | Err _ => []
  end.

(** A cube with a fourth dimension of two categories: every geography and
    period has two cells. *)
Definition two_sector_cube : Cube :=
  {| cube_id := Some ["unit"; "sector"; "geo"; "time"];
     cube_size := Some [1; 2; 1; 1];
     cube_dimension := Some
       [("unit", category [("PC_GDP", 0)] [("PC_GDP", "%")]);
        ("sector", category [("S13", 0); ("S1311", 1)]
                            [("S13", "General government");
                             ("S1311", "Central government")]);
        ("geo", category [("BE", 0)] [("BE", "Belgium")]);
        ("time", category [("2024", 0)] [("2024", "2024")])];
     cube_value := Some [("0", Some 105%Q); ("1", Some 90%Q)] |}.

(** [x is not None] *)
Definition is_some {A : Type} (o : option A) : bool :=
  match o with
  | Some _ => true
  | None => false
  end.

(** The dimension names that get a coordinate: [zip] stops at the shorter
    of [dim_ids] and the size list. *)
Definition zipped_dims (dim_ids : list string) (size : list Z) : list string :=
  firstn (List.length size) dim_ids.

(** The value of a digit list read least significant digit first, the
    mirror image of [encode_from]. *)
Fixpoint lsb_value (ds rsizes : list Z) : Z :=
  match ds, rsizes with
  | d :: ds', s :: rest => d + s * lsb_value ds' rest
  | _, _ => 0
  end.

(** [dim_meta[name]["labels"].get(code, code)], the label the materializer
    gives to [code] along dimension [name]. *)
Definition label_in (dim_meta : dict string DimMeta) (name code : string)
  : string :=
  match get String.eqb dim_meta name with
  | Some m => get_default String.eqb (dm_labels m) code code
  | None => code
  end.

(** What the materializer stores for one dimension of one cell: the code
    the inverse index gives for the position, and that code's label. *)
Definition coord_of (dim_meta : dict string DimMeta) (name : string)
  (co : Coord) : Prop :=
  label co = label_in dim_meta name (code co) /\
  exists m, get String.eqb dim_meta name = Some m /\
            get Z.eqb (dm_inv_index m) (pos co) = Some (code co).

(** The same, read off a finished record. *)
Definition record_of_catalog (dim_meta : dict string DimMeta)
  (r : FlatRecord) : Prop :=
  unit_label r = option_map (label_in dim_meta "unit") (unit_code r) /\
  geo_label r = option_map (label_in dim_meta "geo") (geo_code r) /\
  time_label r = option_map (label_in dim_meta "time") (time_code r) /\
  match time_pos r with
  | Some p =>
      exists m, get String.eqb dim_meta "time" = Some m /\
                get Z.eqb (dm_inv_index m) p = time_code r
  | None => time_code r = None
  end.

(** The materialized records of a cube, before the unit filter. *)
Definition all_records_of (cube : Cube) : list FlatRecord :=
  match _build_dim_meta cube with
  | OK (dim_ids, size, dim_meta) =>
      match materialize_loop dim_ids size dim_meta
              (field_or_empty (cube_value cube)) [] with
      | OK all_records => all_records
      | Err _ => []
      end
  | Err _ => []
  end.

(** [latest_time_pos] of a cube: the declared size of its time dimension
    minus one. *)
Definition latest_time_pos_of (cube : Cube) : Z :=
  match get String.eqb (dim_meta_of cube) "time" with
  | Some time_meta => dm_size time_meta - 1
  | None => -1
  end.

(** [r["time_pos"] == p], [r["value"] == v] and equality of both components
    of the timeseries key. *)
Definition at_time_pos (p : Z) (r : FlatRecord) : bool :=
  eqb_oZ (time_pos r) (Some p).

Definition value_is (v : option Q) (r : FlatRecord) : bool :=
  match v, value r with
  | Some x, Some y => Qeq_bool x y
  | None, None => true
  | _, _ => false
  end.

Definition key_is (g : string) (t : option Z) (r : FlatRecord) : bool :=
  geo_is g r && eqb_oZ (time_pos r) t.

(** The two counts [process_dataset] puts in a manifest entry:
    [len(latest_obj["records"])], and
    [sum(len(x["series"]) for x in ts_obj["records"])] where the records of
    the timeseries object are [list(series_by_geo.values())]. *)
Definition record_count_latest (latest_records : list LatestOut) : Z :=
  Z.of_nat (List.length latest_records).

Definition record_count_timeseries (series_by_geo : dict string GeoSeries)
  : Z :=
  fold_left (fun acc x => acc + Z.of_nat (List.length (gs_series x)))
    (timeseries_records series_by_geo) 0.

(** The number of entries over all series of a dict. *)
Definition entries_total (d : dict string GeoSeries) : nat :=
  list_sum (map (fun kv => List.length (gs_series (snd kv))) d).

(** Two units for one geography and period; only PC_GDP is preferred. *)
Definition two_unit_cube : Cube :=
  {| cube_id := Some ["unit"; "geo"; "time"];
     cube_size := Some [2; 1; 1];
     cube_dimension := Some
       [("unit", category [("MIO_EUR", 0); ("PC_GDP", 1)]
                          [("MIO_EUR", "Million euro");
                           ("PC_GDP", "Percentage of GDP")]);
        ("geo", category [("BE", 0)] [("BE", "Belgium")]);
        ("time", category [("2024", 0)] [("2024", "2024")])];
     cube_value := Some [("0", Some 600000%Q); ("1", Some 105%Q)] |}.

(** Dropping the time position of a record, the one field the records of
    the single-period script lack. *)
Definition forget_time_pos (r : FlatRecord) : FlatRecord :=
  {| value := value r;
     unit_code := unit_code r; unit_label := unit_label r;
     geo_code := geo_code r; geo_label := geo_label r;
     time_code := time_code r; time_label := time_label r;
     time_pos := None |}.

(** Every key of a list of pairs has one value. *)
Definition functional {V : Type} (kvs : list (string * V)) : Prop :=
  forall k v v', In (k, v) kvs -> In (k, v') kvs -> v = v'.

(** Records with the same unit code have the same unit label. *)
Definition unit_labels_consistent (records : list FlatRecord) : Prop :=
  forall r r', In r records -> In r' records ->
               unit_code r = unit_code r' -> unit_label r = unit_label r'.

(** The results of the successful calls of a run, in call order. *)
Definition successes {Cfg Entry : Type}
  (process_dataset : Cfg -> result (string * Entry)) (datasets : list Cfg)
  : list (string * Entry) :=
  flat_map (fun cfg => match process_dataset cfg with
                       | OK out => [out]
                       | Err _ => []
                       end) datasets.



(** A series entry of the dict was opened for a record of [records]: it
    has the fixed unit, and the geography label of a record with its code. *)
Definition opened_for (records : list FlatRecord) (kv : string * GeoSeries)
  : Prop :=
  gs_unit (snd kv) = "% of GDP" /\
  exists r, In r records /\ geo_code r = Some (fst kv) /\
            gs_country (snd kv) = geo_label r.

(** A well-formed cube but for its value mapping, which is empty. *)
Definition empty_value_cube : Cube :=
  {| cube_id := Some ["geo"; "time"];
     cube_size := Some [1; 1];
     cube_dimension := Some
       [("geo", category [("NL", 0)] [("NL", "Netherlands")]);
        ("time", category [("2024", 0)] [("2024", "2024")])];
     cube_value := Some [] |}.

(* ================================================================== *)
(** * Properties *)
(* ================================================================== *)

(* ------------------------------------------------------------------ *)
(** ** Coordinate decoder *)
(* ------------------------------------------------------------------ *)

Section Decoder.

Lemma product_app (l : list Z) (s : Z) : product (l ++ [s]) = product l * s.
Proof.
  unfold product.
  induction l as [| a l IH]; cbn [fold_right app]; [ring |].
  rewrite IH. ring.
Qed.

Lemma product_rev (l : list Z) : product (rev l) = product l.
Proof.
  induction l as [| a l IH]; cbn [rev]; [reflexivity |].
  rewrite product_app, IH. unfold product. cbn [fold_right]. ring.
Qed.

Lemma product_pos (l : list Z) : Forall (fun s => 0 < s) l -> 0 < product l.
Proof.
  induction 1 as [| s l Hs _ IH]; unfold product in *; cbn [fold_right]; lia.
Qed.

Lemma decode_loop_digits (rs : list Z) :
  Forall (fun s => 0 < s) rs ->
  forall idx acc, decode_loop idx rs acc = OK (acc ++ digits idx rs).
Proof.
  induction 1 as [| s rs Hs _ IH]; intros idx acc; simpl.
  - now rewrite app_nil_r.
  - destruct (Z.eqb_spec s 0) as [-> | _]; [lia |].
    rewrite IH, <- app_assoc. reflexivity.
Qed.

Lemma decode_as_digits (idx : Z) (sizes : list Z) :
  Forall (fun s => 0 < s) sizes ->
  _linear_index_to_coords idx sizes = OK (rev (digits idx (rev sizes))).
Proof.
  intros Hpos. unfold _linear_index_to_coords.
  rewrite decode_loop_digits by now apply Forall_rev.
  reflexivity.
Qed.

Lemma digits_length (rs : list Z) :
  forall idx, List.length (digits idx rs) = List.length rs.
Proof. induction rs as [| s rs IH]; intros idx; simpl; auto. Qed.

Lemma digits_in_range (rs : list Z) :
  Forall (fun s => 0 < s) rs ->
  forall idx, Forall2 (fun c s => 0 <= c < s) (digits idx rs) rs.
Proof.
  induction 1 as [| s rs Hs _ IH]; intros idx; simpl; constructor.
  - now apply Z.mod_pos_bound.
  - apply IH.
Qed.

Lemma Forall2_snoc {A B : Type} (R : A -> B -> Prop) l1 l2 a b :
  Forall2 R l1 l2 -> R a b -> Forall2 R (l1 ++ [a]) (l2 ++ [b]).
Proof. intros H Hab. apply Forall2_app; auto. Qed.

Lemma Forall2_rev {A B : Type} (R : A -> B -> Prop) l1 l2 :
  Forall2 R l1 l2 -> Forall2 R (rev l1) (rev l2).
Proof.
  induction 1; simpl; [constructor |]. now apply Forall2_snoc.
Qed.

(** Residues of a product split into a low digit and the rest. *)
Lemma digits_mod_product (rs : list Z) :
  Forall (fun s => 0 < s) rs ->
  forall idx, digits (idx mod product rs) rs = digits idx rs.
Proof.
  induction 1 as [| s rs Hs Hrs IH]; intros idx; simpl; [reflexivity |].
  pose proof (product_pos rs Hrs) as HP.
  change (product (s :: rs)) with (s * product rs).
  rewrite Z.rem_mul_r by lia.
  pose proof (Z.mod_pos_bound idx s Hs) as Hlow.
  set (q := (idx / s) mod product rs).
  replace (idx mod s + s * q) with (q * s + idx mod s) by ring.
  f_equal.
  - rewrite Z.add_comm, Z.mod_add by lia. now apply Z.mod_small.
  - rewrite Z.div_add_l by lia.
    rewrite (Z.div_small (idx mod s) s), Z.add_0_r by lia.
    apply IH.
Qed.

Lemma encode_from_snoc (cs ss : list Z) :
  List.length cs = List.length ss ->
  forall acc c s,
    encode_from acc (cs ++ [c]) (ss ++ [s]) = encode_from acc cs ss * s + c.
Proof.
  revert ss. induction cs as [| c0 cs IH]; intros [| s0 ss] Hlen acc c s;
    simpl in *; try discriminate; [reflexivity |].
  apply IH. lia.
Qed.

Lemma encode_digits (rs : list Z) :
  Forall (fun s => 0 < s) rs ->
  forall idx,
    encode_from 0 (rev (digits idx rs)) (rev rs) = idx mod product rs.
Proof.
  induction 1 as [| s rs Hs Hrs IH]; intros idx; simpl.
  - now rewrite Z.mod_1_r.
  - rewrite encode_from_snoc
      by now rewrite !length_rev, digits_length.
    rewrite IH. change (product (s :: rs)) with (s * product rs).
    pose proof (product_pos rs Hrs).
    rewrite Z.rem_mul_r by lia. ring.
Qed.

End Decoder.

(** C3. For positive sizes and [0 <= idx < product sizes], decoding succeeds,
    re-encoding the decoded vector over the same sizes gives [idx] back, and
    the vector has one in-range position per dimension, in dimension order. *)
Theorem decode_encode_roundtrip (idx : Z) (sizes : list Z) :
  Forall (fun s => 0 < s) sizes ->
  0 <= idx < product sizes ->
  exists coords,
    _linear_index_to_coords idx sizes = OK coords /\
    coords_to_linear_index coords sizes = idx /\
    in_range coords sizes.
Proof.
  intros Hpos Hidx.
  assert (Hrpos : Forall (fun s => 0 < s) (rev sizes)) by now apply Forall_rev.
  exists (rev (digits idx (rev sizes))). split; [| split].
  - now apply decode_as_digits.
  - unfold coords_to_linear_index.
    rewrite <- (rev_involutive sizes) at 2.
    rewrite encode_digits, product_rev by assumption.
    now apply Z.mod_small.
  - unfold in_range. rewrite <- (rev_involutive sizes) at 2.
    apply Forall2_rev, digits_in_range; assumption.
Qed.

Lemma decode_encode_roundtrip_witness :
  exists coords,
    _linear_index_to_coords 3 [1; 2; 2] = OK coords /\
    coords_to_linear_index coords [1; 2; 2] = 3 /\
    in_range coords [1; 2; 2].
Proof.
  apply decode_encode_roundtrip.
  - repeat constructor.
  - vm_compute. split; [discriminate | reflexivity].
Defined.

(** C10. On strictly positive sizes the decoder never fails, every position
    it returns lies in [0, size) of its dimension, and an index decodes like
    its residue modulo the product of the sizes: an out-of-range index
    aliases to an in-range cell instead of raising.  (Neither the sign of the
    index nor the emptiness of the size list matters.) *)
Theorem decode_total_in_range_aliasing (idx : Z) (sizes : list Z) :
  Forall (fun s => 0 < s) sizes ->
  exists coords,
    _linear_index_to_coords idx sizes = OK coords /\
    in_range coords sizes /\
    _linear_index_to_coords (idx mod product sizes) sizes = OK coords.
Proof.
  intros Hpos.
  assert (Hrpos : Forall (fun s => 0 < s) (rev sizes)) by now apply Forall_rev.
  exists (rev (digits idx (rev sizes))). split; [| split].
  - now apply decode_as_digits.
  - unfold in_range. rewrite <- (rev_involutive sizes) at 2.
    apply Forall2_rev, digits_in_range; assumption.
  - rewrite decode_as_digits by assumption.
    rewrite <- (product_rev sizes), digits_mod_product by assumption.
    reflexivity.
Qed.

Lemma decode_total_in_range_aliasing_witness :
  exists coords,
    _linear_index_to_coords 7 [1; 2; 2] = OK coords /\
    in_range coords [1; 2; 2] /\
    _linear_index_to_coords (7 mod product [1; 2; 2]) [1; 2; 2] = OK coords.
Proof.
  apply decode_total_in_range_aliasing. repeat constructor.
Defined.

(* ------------------------------------------------------------------ *)
(** ** Dicts as association lists *)
(* ------------------------------------------------------------------ *)

Section DictFacts.
Context {K V : Type} (eqb : K -> K -> bool).
Hypothesis eqb_eq : forall a b, eqb a b = true <-> a = b.

Lemma eqb_refl' (a : K) : eqb a a = true.
Proof. now apply eqb_eq. Qed.

Lemma eqb_neq (a b : K) : a <> b -> eqb a b = false.
Proof.
  intros Hne. destruct (eqb a b) eqn:E; [| reflexivity].
  apply eqb_eq in E. contradiction.
Qed.

Lemma get_set_same (d : dict K V) k v : get eqb (set eqb d k v) k = Some v.
Proof.
  induction d as [| [k' v'] d IH]; simpl.
  - now rewrite eqb_refl'.
  - destruct (eqb k' k) eqn:E; simpl; rewrite E; auto.
Qed.

Lemma get_set_other (d : dict K V) k k0 v :
  k <> k0 -> get eqb (set eqb d k v) k0 = get eqb d k0.
Proof.
  intros Hne. induction d as [| [k' v'] d IH]; simpl.
  - now rewrite eqb_neq.
  - destruct (eqb k' k) eqn:E; simpl.
    + apply eqb_eq in E. subst k'. now rewrite eqb_neq.
    + now rewrite IH.
Qed.

Lemma get_None_notin (d : dict K V) k :
  get eqb d k = None <-> ~ In k (keys d).
Proof.
  induction d as [| [k' v'] d IH]; simpl; [tauto |].
  destruct (eqb k' k) eqn:E.
  - apply eqb_eq in E. split; [discriminate | intros H; exfalso; auto].
  - rewrite IH. split; [| tauto].
    intros H [-> | Hin]; [| tauto]. now rewrite eqb_refl' in E.
Qed.

Lemma set_fresh (d : dict K V) k v :
  ~ In k (keys d) -> set eqb d k v = d ++ [(k, v)].
Proof.
  induction d as [| [k' v'] d IH]; simpl; intros Hnin; [reflexivity |].
  rewrite eqb_neq by tauto. f_equal. apply IH. tauto.
Qed.

Lemma keys_set_present (d : dict K V) k v :
  In k (keys d) -> keys (set eqb d k v) = keys d.
Proof.
  induction d as [| [k' v'] d IH]; simpl; intros Hin; [tauto |].
  destruct (eqb k' k) eqn:E; simpl; [reflexivity |].
  f_equal. apply IH. destruct Hin as [-> | Hin]; [| assumption].
  now rewrite eqb_refl' in E.
Qed.

Lemma fold_set_fresh (kvs : list (K * V)) :
  forall acc,
    NoDup (keys acc ++ keys kvs) ->
    fold_left (fun d kv => set eqb d (fst kv) (snd kv)) kvs acc = acc ++ kvs.
Proof.
  induction kvs as [| [k v] kvs IH]; intros acc Hnd; simpl.
  - now rewrite app_nil_r.
  - simpl in Hnd. rewrite set_fresh.
    + rewrite IH; [now rewrite <- app_assoc |].
      unfold keys in *. rewrite map_app, <- app_assoc. exact Hnd.
    + apply NoDup_remove_2 in Hnd. intros Hin. apply Hnd.
      apply in_or_app. now left.
Qed.

(** A comprehension over pairs with distinct keys is those pairs. *)
Lemma of_items_NoDup (kvs : list (K * V)) :
  NoDup (keys kvs) -> of_items eqb kvs = kvs.
Proof. intros Hnd. unfold of_items. now rewrite fold_set_fresh. Qed.

Lemma get_modify_same (d : dict K V) k f :
  get eqb (modify eqb d k f) k = option_map f (get eqb d k).
Proof.
  induction d as [| [k' v'] d IH]; simpl; [reflexivity |].
  destruct (eqb k' k) eqn:E; simpl; rewrite E; auto.
Qed.

Lemma get_modify_other (d : dict K V) k k0 f :
  k <> k0 -> get eqb (modify eqb d k f) k0 = get eqb d k0.
Proof.
  intros Hne. induction d as [| [k' v'] d IH]; simpl; [reflexivity |].
  destruct (eqb k' k) eqn:E; simpl.
  - apply eqb_eq in E. subst k'. now rewrite eqb_neq.
  - now rewrite IH.
Qed.

Lemma keys_modify (d : dict K V) k f : keys (modify eqb d k f) = keys d.
Proof.
  induction d as [| [k' v'] d IH]; simpl; [reflexivity |].
  destruct (eqb k' k); simpl; [reflexivity | now rewrite IH].
Qed.
End DictFacts.

Lemma str_eqb_eq (a b : string) : String.eqb a b = true <-> a = b.
Proof. apply String.eqb_eq. Qed.

Lemma truthy_Some (c : string) : truthy (Some c) = true <-> c <> "".
Proof. destruct c; simpl; split; congruence. Qed.

(* ------------------------------------------------------------------ *)
(** ** Dimension catalog builder *)
(* ------------------------------------------------------------------ *)

Section Catalog.

Lemma keys_set_NoDup {V : Type} (d : dict string V) k v :
  NoDup (keys d) -> NoDup (keys (set String.eqb d k v)).
Proof.
  intros Hnd. destruct (in_dec string_dec k (keys d)) as [Hin | Hnin].
  - now rewrite (keys_set_present String.eqb str_eqb_eq).
  - rewrite (set_fresh String.eqb str_eqb_eq) by assumption.
    unfold keys in *. rewrite map_app. simpl.
    apply NoDup_incl_NoDup with (l := k :: map fst d).
    + now constructor.
    + rewrite length_app. simpl. lia.
    + intros x [-> | Hx]; apply in_or_app; simpl; auto.
Qed.

Lemma keys_of_items_NoDup {V : Type} (kvs : list (string * V)) :
  NoDup (keys (of_items String.eqb kvs)).
Proof.
  unfold of_items.
  assert (H : forall acc : dict string V, NoDup (keys acc) ->
            NoDup (keys (fold_left
              (fun d kv => set String.eqb d (fst kv) (snd kv)) kvs acc))).
  { induction kvs as [| kv kvs IH]; intros acc Hacc; simpl; [assumption |].
    apply IH. now apply keys_set_NoDup. }
  apply H. constructor.
Qed.

Lemma enumerate_from_numbered (codes : list string) :
  forall n,
    map swap (enumerate_from (Z.of_nat n) codes)
    = combine codes (map Z.of_nat (seq n (List.length codes))).
Proof.
  induction codes as [| c codes IH]; intros n; simpl; [reflexivity |].
  unfold swap at 1. simpl. f_equal.
  replace (Z.of_nat n + 1) with (Z.of_nat (S n)) by lia. apply IH.
Qed.

Lemma keys_numbered (codes : list string) : keys (numbered codes) = codes.
Proof.
  unfold keys, numbered.
  assert (H : forall n, map fst (combine codes
            (map Z.of_nat (seq n (List.length codes)))) = codes).
  { induction codes as [| c codes IH]; intros n; simpl; [reflexivity |].
    now rewrite IH. }
  apply H.
Qed.

Lemma count_distinct_NoDup (codes : list string) :
  NoDup codes -> count_distinct codes = List.length codes.
Proof.
  intros Hnd. unfold count_distinct. now rewrite nodup_fixed_point.
Qed.

(** What [build_dim] stores for a dimension whose category is [cat]. *)
Lemma build_dim_inv (dimension : dict string Dimension) d m :
  build_dim dimension d = OK m ->
  exists dim cat,
    get String.eqb dimension d = Some dim /\
    dim_category dim = Some cat /\
    dm_index m =
      match field_or_empty (cat_index cat) with
      | [] => of_items String.eqb
                (map swap (enumerate (keys (field_or_empty (cat_label cat)))))
      | supplied => supplied
      end /\
    dm_labels m = field_or_empty (cat_label cat) /\
    dm_inv_index m = of_items Z.eqb (map swap (dm_index m)) /\
    dm_size m =
      match cat_length cat with
      | Some n => n
      | None => Z.of_nat (List.length (dm_index m))
      end.
Proof.
  unfold build_dim, getitem, field.
  destruct (get String.eqb dimension d) as [dim |] eqn:Hdim; simpl;
    [| discriminate].
  destruct (dim_category dim) as [cat |] eqn:Hcat; simpl; [| discriminate].
  intros [= <-]. exists dim, cat. simpl. repeat split; auto.
Qed.

(** After the loop every listed dimension holds what [build_dim] computes
    for it, and the other keys are as the loop found them. *)
Lemma build_loop_get (dimension : dict string Dimension) (ids : list string) :
  forall acc dm,
    build_loop dimension ids acc = OK dm ->
    forall d,
      (In d ids ->
       exists m, build_dim dimension d = OK m /\
                 get String.eqb dm d = Some m) /\
      (~ In d ids -> get String.eqb dm d = get String.eqb acc d).
Proof.
  induction ids as [| x ids IH]; intros acc dm Hloop d; simpl in *.
  - injection Hloop as <-. split; tauto.
  - destruct (build_dim dimension x) as [mx | e] eqn:Hx; simpl in Hloop;
      [| discriminate].
    destruct (IH _ _ Hloop d) as [Hin Hnin].
    destruct (in_dec string_dec d ids) as [Hd | Hd].
    + split; [intros _; now apply Hin | tauto].
    + split.
      * intros [-> | Hd']; [| contradiction].
        exists mx. split; [assumption |].
        rewrite (Hnin Hd). apply get_set_same, str_eqb_eq.
      * intros Hno. rewrite (Hnin Hd).
        apply get_set_other; [apply str_eqb_eq | tauto].
Qed.

End Catalog.

(** C9. For every dimension named in [id], the catalog entry takes its
    code-to-position map from the supplied index map when that is present
    and non-empty; otherwise it numbers the label-map keys 0, 1, 2, ... in
    their iteration order; and its size is the "length" field when there is
    one, else the number of distinct codes of the position map.  (The
    [NoDup] premises say that the maps of the document are dicts: no key
    occurs twice.) *)
Theorem build_dim_meta_catalog (cube : Cube) (dim_ids : list string)
  (size : list Z) (dim_meta : dict string DimMeta) (d : string) :
  _build_dim_meta cube = OK (dim_ids, size, dim_meta) ->
  In d dim_ids ->
  exists dimension dim cat m,
    cube_dimension cube = Some dimension /\
    get String.eqb dimension d = Some dim /\
    dim_category dim = Some cat /\
    get String.eqb dim_meta d = Some m /\
    (forall supplied,
        cat_index cat = Some supplied -> supplied <> [] ->
        dm_index m = supplied) /\
    (cat_index cat = None \/ cat_index cat = Some [] ->
     NoDup (keys (field_or_empty (cat_label cat))) ->
     dm_index m = numbered (keys (field_or_empty (cat_label cat)))) /\
    (forall n, cat_length cat = Some n -> dm_size m = n) /\
    (cat_length cat = None ->
     NoDup (keys (field_or_empty (cat_index cat))) ->
     dm_size m = Z.of_nat (count_distinct (keys (dm_index m)))).
Proof.
  unfold _build_dim_meta, field. intros Hbuild Hin.
  destruct (cube_id cube) as [ids |]; simpl in Hbuild; [| discriminate].
  destruct (cube_size cube) as [sz |]; simpl in Hbuild; [| discriminate].
  destruct (cube_dimension cube) as [dimension |]; simpl in Hbuild;
    [| discriminate].
  destruct (build_loop dimension ids []) as [dm | e] eqn:Hloop;
    simpl in Hbuild; [| discriminate].
  injection Hbuild as -> -> ->.
  destruct (proj1 (build_loop_get _ _ _ _ Hloop d) Hin) as (m & Hm & Hget).
  destruct (build_dim_inv _ _ _ Hm) as (dim & cat & Hdim & Hcat & Hidx & _ & _ & Hsz).
  exists dimension, dim, cat, m. repeat split; try assumption.
  - intros supplied Hsup Hne. rewrite Hidx, Hsup. simpl.
    destruct supplied; [contradiction | reflexivity].
  - intros Habsent Hnd. rewrite Hidx.
    assert (Hempty : field_or_empty (cat_index cat) = []).
    { destruct Habsent as [-> | ->]; reflexivity. }
    rewrite Hempty. unfold enumerate.
    rewrite (enumerate_from_numbered _ 0%nat).
    apply of_items_NoDup; [apply str_eqb_eq |].
    fold (numbered (keys (field_or_empty (cat_label cat)))).
    now rewrite keys_numbered.
  - intros n Hn. now rewrite Hsz, Hn.
  - intros Hnone Hnd. rewrite Hsz, Hnone. f_equal.
    rewrite count_distinct_NoDup; [unfold keys; now rewrite length_map |].
    rewrite Hidx.
    destruct (field_or_empty (cat_index cat)); [| assumption].
    apply keys_of_items_NoDup.
Qed.

Lemma build_dim_meta_catalog_witness :
  exists dimension dim cat m,
    cube_dimension labels_only_cube = Some dimension /\
    get String.eqb dimension "time" = Some dim /\
    dim_category dim = Some cat /\
    get String.eqb (dim_meta_of labels_only_cube) "time" = Some m /\
    (forall supplied,
        cat_index cat = Some supplied -> supplied <> [] ->
        dm_index m = supplied) /\
    (cat_index cat = None \/ cat_index cat = Some [] ->
     NoDup (keys (field_or_empty (cat_label cat))) ->
     dm_index m = numbered (keys (field_or_empty (cat_label cat)))) /\
    (forall n, cat_length cat = Some n -> dm_size m = n) /\
    (cat_length cat = None ->
     NoDup (keys (field_or_empty (cat_index cat))) ->
     dm_size m = Z.of_nat (count_distinct (keys (dm_index m)))).
Proof.
  apply (build_dim_meta_catalog labels_only_cube ["geo"; "time"] [1; 3]).
  - reflexivity.
  - simpl. tauto.
Defined.

(** The fallback numbering at work: three label keys get 0, 1, 2. *)
Example labels_only_time_index :
  option_map dm_index (get String.eqb (dim_meta_of labels_only_cube) "time")
  = Some [("2021", 0); ("2022", 1); ("2023", 2)].
Proof. reflexivity. Qed.

(* ------------------------------------------------------------------ *)
(** ** Unit disambiguator *)
(* ------------------------------------------------------------------ *)

Section Disambiguator.

Lemma bool_eq_iff (a b : bool) : (a = true <-> b = true) -> a = b.
Proof.
  destruct a, b; intros [H1 H2]; auto. symmetry. now apply H1.
Qed.

Lemma find_agree {A : Type} (f g : A -> bool) (l : list A) :
  (forall x, f x = g x) -> find f l = find g l.
Proof.
  intros Hfg. induction l as [| a l IH]; simpl; [reflexivity |].
  now rewrite Hfg, IH.
Qed.

Lemma str_mem_In (c : string) (l : list string) :
  str_mem c l = true <-> In c l.
Proof.
  unfold str_mem. rewrite existsb_exists. split.
  - intros (x & Hx & Heq). apply String.eqb_eq in Heq. now subst.
  - intros Hin. exists c. split; [assumption | apply String.eqb_refl].
Qed.

Lemma str_insert_perm (x : string) (l : list string) :
  Permutation (str_insert x l) (x :: l).
Proof.
  induction l as [| y l IH]; simpl; [reflexivity |].
  destruct (String.ltb y x); [| reflexivity].
  rewrite IH. apply perm_swap.
Qed.

Lemma sorted_set_perm (codes : list string) :
  Permutation (sorted_set codes) (nodup string_dec codes).
Proof.
  unfold sorted_set. induction (nodup string_dec codes) as [| c l IH];
    simpl; [reflexivity |].
  rewrite str_insert_perm. now constructor.
Qed.

Lemma sorted_set_In (c : string) (codes : list string) :
  In c (sorted_set codes) <-> In c codes.
Proof.
  rewrite <- (nodup_In string_dec codes c).
  pose proof (sorted_set_perm codes) as Hp.
  split; apply Permutation_in; (exact Hp || now symmetry).
Qed.

Lemma truthy_codes_In (c : string) (records : list FlatRecord) :
  In c (truthy_codes unit_code records) <->
  c <> "" /\ exists r, In r records /\ unit_code r = Some c.
Proof.
  unfold truthy_codes. rewrite in_flat_map. split.
  - intros (r & Hr & Hc). destruct (unit_code r) as [u |] eqn:Hu;
      [| contradiction].
    destruct (truthy (Some u)) eqn:Ht; [| contradiction].
    destruct Hc as [-> | []]. split; [now apply truthy_Some | eauto].
  - intros (Hne & r & Hr & Hu). exists r. split; [assumption |].
    rewrite Hu. apply truthy_Some in Hne. rewrite Hne. now left.
Qed.

Lemma units_present_code_present (c : string) (records : list FlatRecord) :
  str_mem c (sorted_set (truthy_codes unit_code records))
  = code_present c records.
Proof.
  apply bool_eq_iff.
  rewrite str_mem_In, sorted_set_In, truthy_codes_In.
  unfold code_present. rewrite andb_true_iff, truthy_Some, existsb_exists.
  split; intros (Hne & r & Hr & Hu); split; try assumption; exists r;
    split; try assumption.
  - rewrite Hu. simpl. apply String.eqb_refl.
  - destruct (unit_code r) as [u |]; simpl in Hu; [| discriminate].
    apply String.eqb_eq in Hu. now subst.
Qed.

Lemma keys_labelled (records : list FlatRecord) :
  keys (labelled records) = truthy_codes unit_code records.
Proof.
  unfold keys, labelled, truthy_codes.
  induction records as [| r records IH]; [reflexivity |].
  cbn [flat_map]. rewrite map_app, IH. f_equal.
  destruct (unit_code r) as [u |]; [| reflexivity].
  destruct (truthy (Some u)); reflexivity.
Qed.

Lemma first_seen_In {V : Type} (kvs : list (string * V)) (k : string) :
  In k (keys (first_seen kvs)) <-> In k (keys kvs).
Proof.
  unfold keys. induction kvs as [| [k0 v0] kvs IH]; simpl; [tauto |].
  rewrite <- IH, !in_map_iff. split.
  - intros [-> | (kv & <- & Hin)]; [now left |].
    apply filter_In in Hin. right. exists kv. tauto.
  - intros [-> | (kv & <- & Hin)]; [now left |].
    destruct (string_dec k0 (fst kv)) as [-> | Hne]; [now left |].
    right. exists kv. split; [reflexivity |]. apply filter_In. split;
      [assumption |].
    apply negb_true_iff. destruct (String.eqb_spec (fst kv) k0); congruence.
Qed.

Lemma map_fst_filter_NoDup {V : Type} (f : string * V -> bool) l :
  NoDup (map fst l) -> NoDup (map fst (filter f l)).
Proof.
  induction l as [| kv l IH]; simpl; intros Hnd; [constructor |].
  inversion Hnd as [| ? ? Hnin Hnd']; subst.
  destruct (f kv); simpl; [| now apply IH].
  constructor; [| now apply IH].
  intros Hin. apply Hnin. apply in_map_iff in Hin.
  destruct Hin as (x & Hx & Hin). apply filter_In in Hin.
  apply in_map_iff. exists x. tauto.
Qed.

Lemma first_seen_NoDup {V : Type} (kvs : list (string * V)) :
  NoDup (keys (first_seen kvs)).
Proof.
  unfold keys. induction kvs as [| [k0 v0] kvs IH]; simpl; constructor.
  - intros Hin. apply in_map_iff in Hin. destruct Hin as (kv & Hk & Hin).
    apply filter_In in Hin. destruct Hin as [_ Hneq].
    rewrite Hk, String.eqb_refl in Hneq. discriminate.
  - now apply map_fst_filter_NoDup.
Qed.

Lemma contains_snoc {V : Type} (acc : dict string V) c l k :
  contains String.eqb (acc ++ [(c, l)]) k
  = contains String.eqb acc k || String.eqb c k.
Proof.
  unfold contains. induction acc as [| [k' v'] acc IH]; simpl.
  - destruct (String.eqb c k); reflexivity.
  - destruct (String.eqb k' k); [reflexivity | apply IH].
Qed.

Lemma contains_false_notin {V : Type} (acc : dict string V) k :
  contains String.eqb acc k = false <-> ~ In k (keys acc).
Proof.
  unfold contains. rewrite <- (get_None_notin String.eqb str_eqb_eq).
  destruct (get String.eqb acc k); split; congruence.
Qed.

Lemma filter_filter {A : Type} (f g : A -> bool) (l : list A) :
  filter f (filter g l) = filter (fun x => g x && f x) l.
Proof.
  induction l as [| a l IH]; simpl; [reflexivity |].
  destruct (g a); simpl; [destruct (f a) |]; now rewrite IH.
Qed.

Lemma labelled_cons (r : FlatRecord) (records : list FlatRecord) :
  labelled (r :: records)
  = match unit_code r with
    | Some c => if truthy (Some c) then [(c, unit_label r)] else []
    | None => []
    end ++ labelled records.
Proof. reflexivity. Qed.

(** The dict built by the label loop lists the codes in first-seen order,
    each with its first-seen label. *)
Lemma unit_labels_loop_first_seen (records : list FlatRecord) :
  forall acc,
    unit_labels_loop records acc
    = acc ++ filter (fun kv => negb (contains String.eqb acc (fst kv)))
               (first_seen (labelled records)).
Proof.
  induction records as [| r records IH]; intros acc.
  - simpl. now rewrite app_nil_r.
  - cbn [unit_labels_loop]. rewrite labelled_cons.
    destruct (unit_code r) as [u |]; [| apply IH].
    destruct (truthy (Some u)); cbn [andb app]; [| apply IH].
    cbn [first_seen filter fst].
    destruct (contains String.eqb acc u) eqn:Hc; cbn [negb].
    + rewrite IH, filter_filter. f_equal. apply filter_ext. intros [k v].
      cbn [fst]. destruct (String.eqb_spec k u) as [-> | Hne]; cbn [negb andb];
        [now rewrite Hc | reflexivity].
    + rewrite (set_fresh String.eqb str_eqb_eq)
        by now apply contains_false_notin.
      rewrite IH, <- app_assoc, filter_filter. cbn [app]. do 2 f_equal.
      apply filter_ext. intros [k v]. cbn [fst].
      rewrite contains_snoc, negb_orb, andb_comm, (String.eqb_sym u k).
      reflexivity.
Qed.

Lemma str_in_pct_nonempty (txt : string) :
  str_in "%" txt = true -> truthy (Some txt) = true.
Proof. destruct txt; simpl; [discriminate | reflexivity]. Qed.

Lemma first_pct_label_find (items : list (string * option string)) :
  first_pct_label items
  = match find (fun cl => has_pct (snd cl)) items with
    | Some (c, _) => Some c
    | None => None
    end.
Proof.
  induction items as [| [c l] items IH]; [reflexivity |].
  cbn [first_pct_label find snd].
  destruct l as [txt |]; [| apply IH].
  change (has_pct (Some txt)) with (str_in "%" txt).
  destruct (str_in "%" txt) eqn:Hp.
  - rewrite (str_in_pct_nonempty _ Hp). reflexivity.
  - rewrite andb_false_r. apply IH.
Qed.

Lemma only_element_perm (l1 l2 : list string) :
  Permutation l1 l2 ->
  match l1 with [only] => Some only | _ => None end
  = match l2 with [only] => Some only | _ => None end.
Proof.
  intros Hp. destruct l1 as [| a [| b l1]].
  - apply Permutation_nil in Hp. now subst.
  - apply Permutation_length_1_inv in Hp. now subst.
  - apply Permutation_length in Hp. destruct l2 as [| c [| d l2]];
      simpl in Hp; try discriminate. reflexivity.
Qed.

Lemma units_present_first_seen (records : list FlatRecord) :
  Permutation (sorted_set (truthy_codes unit_code records))
              (keys (first_seen (labelled records))).
Proof.
  rewrite sorted_set_perm. apply NoDup_Permutation.
  - apply NoDup_nodup.
  - apply first_seen_NoDup.
  - intros c. rewrite nodup_In, first_seen_In, keys_labelled. tauto.
Qed.

End Disambiguator.

(** C2. The unit disambiguator is the cascade of its contract: the first of
    PC_GDP, PCGDP, PCT_GDP, PCTGDP that is present; failing that, the first
    code in first-seen order whose (first-seen) label contains '%'; failing
    that, the only code present; otherwise none. *)
Theorem choose_pct_unit_cascade (records : list FlatRecord) :
  _choose_pct_unit records = choose_unit_spec records.
Proof.
  unfold _choose_pct_unit, choose_unit_spec.
  rewrite (find_agree _ (fun c => code_present c records))
    by (intros c; apply units_present_code_present).
  destruct (find _ preferred_units); [reflexivity |].
  rewrite unit_labels_loop_first_seen, first_pct_label_find. simpl.
  rewrite filter_true.
  destruct (find _ (first_seen (labelled records))) as [[c l] |];
    [reflexivity |].
  rewrite (only_element_perm _ _ (units_present_first_seen records)).
  unfold keys. destruct (first_seen (labelled records)) as [| [c l] [| kv rest]];
    reflexivity.
Qed.

(** Step 1 wins over step 2: PC_GDP is chosen although only the label of
    the other unit carries a percent sign. *)
Example preferred_code_before_label :
  let r c l := {| value := Some 1%Q; unit_code := Some c; unit_label := Some l;
                  geo_code := Some "BE"; geo_label := Some "Belgium";
                  time_code := Some "2024"; time_label := Some "2024";
                  time_pos := Some 0 |} in
  _choose_pct_unit [r "XYZ" "% of something"; r "PC_GDP" "Share of GDP"]
  = Some "PC_GDP".
Proof. reflexivity. Qed.

(** Step 2: no preferred code, one label with a percent sign. *)
Example percent_label_chosen :
  let r c l := {| value := Some 1%Q; unit_code := Some c; unit_label := Some l;
                  geo_code := Some "BE"; geo_label := Some "Belgium";
                  time_code := Some "2024"; time_label := Some "2024";
                  time_pos := Some 0 |} in
  _choose_pct_unit [r "MIO_EUR" "Million euro";
                    r "PC" "Percentage (%) of GDP"]
  = Some "PC" /\
  _choose_pct_unit [r "MIO_EUR" "Million euro"] = Some "MIO_EUR" /\
  _choose_pct_unit [r "MIO_EUR" "Million euro";
                    r "MIO_NAC" "Million units of national currency"]
  = None.
Proof. repeat split; reflexivity. Qed.

(* ------------------------------------------------------------------ *)
(** ** Sorting *)
(* ------------------------------------------------------------------ *)

Section SortFacts.
Context {A Key : Type} (key : A -> Key) (lt : Key -> Key -> result bool).

(** The elements being sorted; [<] has to behave on those only. *)
Variable dom : A -> Prop.
Hypothesis ltb_asym :
  forall a b, dom a -> dom b -> ltb key lt a b = true -> ltb key lt b a = false.
Hypothesis ltb_negtrans :
  forall a b c, dom a -> dom b -> dom c ->
    ltb key lt a b = false -> ltb key lt b c = false -> ltb key lt a c = false.

Lemma insert_asc_perm (x : A) (l : list A) :
  Permutation (insert_asc key lt x l) (x :: l).
Proof.
  induction l as [| y l IH]; simpl; [reflexivity |].
  destruct (ltb key lt y x); [| reflexivity].
  rewrite IH. apply perm_swap.
Qed.

Lemma insert_desc_perm (x : A) (l : list A) :
  Permutation (insert_desc key lt x l) (x :: l).
Proof.
  induction l as [| y l IH]; simpl; [reflexivity |].
  destruct (ltb key lt x y); [| reflexivity].
  rewrite IH. apply perm_swap.
Qed.

Lemma sort_perm (reverse : bool) (l : list A) :
  Permutation
    (fold_right (if reverse then insert_desc key lt else insert_asc key lt)
                [] l) l.
Proof.
  induction l as [| x l IH]; simpl; [reflexivity |].
  destruct reverse;
    [rewrite insert_desc_perm | rewrite insert_asc_perm]; now constructor.
Qed.

Lemma insert_asc_sorted (x : A) (l : list A) :
  dom x -> Forall dom l ->
  StronglySorted (asc (ltb key lt)) l ->
  StronglySorted (asc (ltb key lt)) (insert_asc key lt x l).
Proof.
  intros Hx Hdom Hs. induction Hs as [| y l Hs IH Hy]; simpl.
  - repeat constructor.
  - inversion Hdom as [| ? ? Hdy Hdl]; subst.
    destruct (ltb key lt y x) eqn:Hyx.
    + constructor; [now apply IH |].
      apply Forall_forall. intros z Hz.
      apply (Permutation_in _ (insert_asc_perm x l)) in Hz.
      destruct Hz as [<- | Hz].
      * now apply ltb_asym.
      * rewrite Forall_forall in Hy. now apply Hy.
    + constructor; [now constructor |].
      constructor; [exact Hyx |].
      rewrite Forall_forall in *. intros z Hz.
      unfold asc in *. apply (ltb_negtrans z y x); auto.
Qed.

Lemma insert_desc_sorted (x : A) (l : list A) :
  dom x -> Forall dom l ->
  StronglySorted (desc (ltb key lt)) l ->
  StronglySorted (desc (ltb key lt)) (insert_desc key lt x l).
Proof.
  intros Hx Hdom Hs. induction Hs as [| y l Hs IH Hy]; simpl.
  - repeat constructor.
  - inversion Hdom as [| ? ? Hdy Hdl]; subst.
    destruct (ltb key lt x y) eqn:Hxy.
    + constructor; [now apply IH |].
      apply Forall_forall. intros z Hz.
      apply (Permutation_in _ (insert_desc_perm x l)) in Hz.
      destruct Hz as [<- | Hz].
      * now apply ltb_asym.
      * rewrite Forall_forall in Hy. now apply Hy.
    + constructor; [now constructor |].
      constructor; [exact Hxy |].
      rewrite Forall_forall in *. intros z Hz.
      unfold desc in *. apply (ltb_negtrans x y z); auto.
Qed.

Lemma sort_asc_sorted (l : list A) :
  Forall dom l ->
  StronglySorted (asc (ltb key lt)) (fold_right (insert_asc key lt) [] l).
Proof.
  induction 1 as [| x l Hx Hl IH]; simpl; [constructor |].
  apply insert_asc_sorted; auto.
  rewrite Forall_forall in *. intros z Hz. apply Hl.
  now apply (Permutation_in _ (sort_perm false l)).
Qed.

Lemma sort_desc_sorted (l : list A) :
  Forall dom l ->
  StronglySorted (desc (ltb key lt)) (fold_right (insert_desc key lt) [] l).
Proof.
  induction 1 as [| x l Hx Hl IH]; simpl; [constructor |].
  apply insert_desc_sorted; auto.
  rewrite Forall_forall in *. intros z Hz. apply Hl.
  now apply (Permutation_in _ (sort_perm true l)).
Qed.

Lemma all_comparable_In (l : list A) :
  all_comparable key lt l = true <->
  forall a b, In a l -> In b l -> comparable key lt a b = true.
Proof.
  unfold all_comparable. rewrite forallb_forall. split.
  - intros H a b Ha Hb. specialize (H a Ha).
    rewrite forallb_forall in H. now apply H.
  - intros H a Ha. apply forallb_forall. intros b Hb. now apply H.
Qed.
End SortFacts.

Lemma StronglySorted_map_In {A B : Type} (R : A -> A -> Prop)
  (S : B -> B -> Prop) (f : A -> B) (l : list A) :
  (forall a b, In a l -> In b l -> R a b -> S (f a) (f b)) ->
  StronglySorted R l -> StronglySorted S (map f l).
Proof.
  intros HRS Hs. induction Hs as [| a l Hs IH Ha]; simpl; constructor.
  - apply IH. intros x y Hx Hy. apply HRS; simpl; auto.
  - rewrite Forall_forall in *. intros y Hy. apply in_map_iff in Hy.
    destruct Hy as (b & <- & Hb). apply HRS; simpl; auto.
Qed.

Lemma StronglySorted_impl_In {A : Type} (R S : A -> A -> Prop) (l : list A) :
  (forall a b, In a l -> In b l -> R a b -> S a b) ->
  StronglySorted R l -> StronglySorted S l.
Proof.
  intros HRS Hs. rewrite <- (map_id l).
  now apply (StronglySorted_map_In R S (fun a => a)).
Qed.

Lemma Permutation_filter {A : Type} (f : A -> bool) (l l' : list A) :
  Permutation l l' -> Permutation (filter f l) (filter f l').
Proof.
  induction 1 as [| x l l' _ IH | x y l | l l' l'' _ IH1 _ IH2]; simpl.
  - constructor.
  - destruct (f x); [now constructor | assumption].
  - destruct (f x), (f y); try reflexivity. apply perm_swap.
  - now transitivity (filter f l').
Qed.

Lemma NoDup_map_filter {A B : Type} (h : A -> B) (f : A -> bool) l :
  NoDup (map h l) -> NoDup (map h (filter f l)).
Proof.
  induction l as [| a l IH]; simpl; intros Hnd; [constructor |].
  inversion Hnd as [| ? ? Hnin Hnd']; subst.
  destruct (f a); simpl; [| now apply IH].
  constructor; [| now apply IH].
  intros Hin. apply Hnin. apply in_map_iff in Hin.
  destruct Hin as (x & Hx & Hin). apply filter_In in Hin.
  apply in_map_iff. exists x. tauto.
Qed.

Lemma StronglySorted_filter {A : Type} (R : A -> A -> Prop) (f : A -> bool)
  (l : list A) :
  StronglySorted R l -> StronglySorted R (filter f l).
Proof.
  induction 1 as [| a l Hs IH Ha]; simpl; [constructor |].
  destruct (f a); [| assumption]. constructor; [assumption |].
  rewrite Forall_forall in *. intros y Hy. apply filter_In in Hy.
  now apply Ha.
Qed.

(* ------------------------------------------------------------------ *)
(** ** Latest-period projection *)
(* ------------------------------------------------------------------ *)

Section Latest.

Lemma latest_ltb_eq (a b : FlatRecord) :
  latest_ltb a b =
  match value a, value b with
  | Some x, Some y => negb (Qle_bool y x)
  | Some _, None => true
  | None, _ => false
  end.
Proof.
  unfold latest_ltb, ltb, latest_key, latest_key_lt. simpl.
  destruct (value a) as [x |], (value b) as [y |]; simpl; try reflexivity.
  destruct (Qle_bool y x); reflexivity.
Qed.

Lemma latest_comparable (l : list FlatRecord) :
  all_comparable latest_key latest_key_lt l = true.
Proof.
  apply all_comparable_In. intros a b _ _.
  unfold comparable, latest_key, latest_key_lt. simpl.
  destruct (value a), (value b); reflexivity.
Qed.

Lemma Qle_bool_false (x y : Q) : Qle_bool y x = false <-> (x < y)%Q.
Proof.
  rewrite <- not_true_iff_false, Qle_bool_iff. split.
  - apply Qnot_le_lt.
  - apply Qlt_not_le.
Qed.

Lemma latest_ltb_asym (a b : FlatRecord) :
  latest_ltb a b = true -> latest_ltb b a = false.
Proof.
  rewrite !latest_ltb_eq.
  destruct (value a) as [x |], (value b) as [y |]; try easy.
  rewrite negb_true_iff, negb_false_iff, Qle_bool_false, Qle_bool_iff.
  apply Qlt_le_weak.
Qed.

Lemma latest_ltb_negtrans (a b c : FlatRecord) :
  latest_ltb a b = false -> latest_ltb b c = false -> latest_ltb a c = false.
Proof.
  rewrite !latest_ltb_eq.
  destruct (value a) as [x |], (value b) as [y |], (value c) as [z |];
    try easy.
  rewrite !negb_false_iff, !Qle_bool_iff. intros H1 H2.
  now apply Qle_trans with y.
Qed.

(** The cross-section never fails to sort, keeps exactly the records at
    the asked position, and orders them by descending key. *)
Lemma latest_records_of_spec (records : list FlatRecord) (p : Z) :
  exists kept,
    latest_records_of records p = OK kept /\
    Permutation kept
      (filter (fun r => eqb_oZ (time_pos r) (Some p)) records) /\
    StronglySorted (desc latest_ltb) kept.
Proof.
  unfold latest_records_of, py_sorted. rewrite latest_comparable.
  eexists. split; [reflexivity |]. split.
  - apply (sort_perm latest_key latest_key_lt true).
  - apply (sort_desc_sorted latest_key latest_key_lt (fun _ => True)).
    + intros a b _ _. apply latest_ltb_asym.
    + intros a b c _ _ _. apply latest_ltb_negtrans.
    + apply Forall_forall. trivial.
Qed.

Lemma desc_missing_then_larger (a b : FlatRecord) :
  desc latest_ltb a b -> missing_then_larger (latest_out a) (latest_out b).
Proof.
  unfold desc, missing_then_larger. rewrite latest_ltb_eq. simpl.
  destruct (value a) as [x |], (value b) as [y |]; try easy.
  now rewrite negb_false_iff, Qle_bool_iff.
Qed.

End Latest.

(** C1 (as amended). The cross-section of any record list is sorted by
    descending key: records without a value come first, the others follow,
    larger value first whatever the sign; and it holds exactly the records at
    the asked time position. *)
Theorem latest_sorted_missing_first (records : list FlatRecord) (p : Z) :
  exists kept,
    latest_records_of records p = OK kept /\
    Permutation kept
      (filter (fun r => eqb_oZ (time_pos r) (Some p)) records) /\
    StronglySorted missing_then_larger (map latest_out kept).
Proof.
  destruct (latest_records_of_spec records p) as (kept & Hk & Hperm & Hs).
  exists kept. repeat split; try assumption.
  eapply StronglySorted_map_In; [| exact Hs].
  intros a b _ _. apply desc_missing_then_larger.
Qed.

(** C1 as stated fails: the record without a value leads the output. *)
Lemma missing_value_leads_counterexample :
  exists latest series meta,
    parse_latest_and_timeseries null_value_cube = OK (latest, series, meta) /\
    geo_values latest = [(Some "DE", None); (Some "BE", Some (-70)%Q)] /\
    ~ StronglySorted larger_then_missing latest.
Proof.
  do 3 eexists. split; [vm_compute; reflexivity |]. split; [reflexivity |].
  intros Hs. apply StronglySorted_inv in Hs. destruct Hs as [_ Hall].
  inversion Hall as [| ? ? Hhead _]; subst. exact Hhead.
Qed.

(* ------------------------------------------------------------------ *)
(** ** The stages of [parse_latest_and_timeseries] *)
(* ------------------------------------------------------------------ *)

Section Parse.

(** A successful parse went through every stage. *)
Lemma parse_inv (cube : Cube) latest series meta :
  parse_latest_and_timeseries cube = OK (latest, series, meta) ->
  exists dim_ids size dim_meta time_meta all_records latest_records,
    _build_dim_meta cube = OK (dim_ids, size, dim_meta) /\
    get String.eqb dim_meta "time" = Some time_meta /\
    materialize_loop dim_ids size dim_meta
      (field_or_empty (cube_value cube)) [] = OK all_records /\
    meta_chosen_unit meta = _choose_pct_unit all_records /\
    latest_records_of
      (unit_filter (_choose_pct_unit all_records) all_records)
      (dm_size time_meta - 1) = OK latest_records /\
    latest = map latest_out latest_records /\
    timeseries_of (unit_filter (_choose_pct_unit all_records) all_records)
    = OK series.
Proof.
  unfold parse_latest_and_timeseries. intros H.
  destruct (field_or_empty (cube_value cube)) as [| kv value_map] eqn:Hv;
    [discriminate |].
  destruct (_build_dim_meta cube) as [[[dim_ids size] dim_meta] | e];
    cbn [Py.bind] in H; [| discriminate].
  destruct (get String.eqb dim_meta "time") as [time_meta |] eqn:Htime;
    [| discriminate].
  destruct (getitem Z.eqb (dm_inv_index time_meta) (dm_size time_meta - 1))
    as [latest_time_code | e]; cbn [Py.bind] in H; [| discriminate].
  destruct (materialize_loop dim_ids size dim_meta (kv :: value_map) [])
    as [all_records | e] eqn:Hmat; cbn [Py.bind] in H; [| discriminate].
  destruct (latest_records_of _ _) as [latest_records | e] eqn:Hl;
    cbn [Py.bind] in H; [| discriminate].
  destruct (timeseries_of _) as [series_by_geo | e] eqn:Ht;
    cbn [Py.bind] in H; [| discriminate].
  injection H as <- <- <-.
  exists dim_ids, size, dim_meta, time_meta, all_records, latest_records.
  repeat split; auto.
Qed.

(** The disambiguator never answers with an empty code, so the test
    [if chosen_unit] is the test for "a unit was chosen". *)
Lemma chosen_unit_truthy (records : list FlatRecord) (u : string) :
  _choose_pct_unit records = Some u -> truthy (Some u) = true.
Proof.
  unfold _choose_pct_unit. intros H. apply truthy_Some.
  assert (Hin : In u (truthy_codes unit_code records) -> u <> "").
  { intros Hin. apply truthy_codes_In in Hin. tauto. }
  apply Hin. clear Hin.
  destruct (find _ preferred_units) as [c |] eqn:Hpref.
  - injection H as <-. apply find_some in Hpref. destruct Hpref as [_ Hmem].
    cbv beta in Hmem. apply str_mem_In in Hmem.
    now apply (proj1 (sorted_set_In _ _)) in Hmem.
  - rewrite unit_labels_loop_first_seen, first_pct_label_find in H.
    simpl in H. rewrite filter_true in H.
    rewrite <- keys_labelled, <- first_seen_In.
    destruct (find _ (first_seen (labelled records))) as [[c l] |] eqn:Hpct.
    + injection H as <-. apply find_some in Hpct. destruct Hpct as [Hc _].
      unfold keys. apply in_map_iff. now exists (c, l).
    + rewrite first_seen_In, keys_labelled, <- sorted_set_In.
      destruct (sorted_set _) as [| a [| b rest]]; try discriminate.
      injection H as <-. now left.
Qed.

Lemma unit_filter_chosen (records : list FlatRecord) :
  unit_filter (_choose_pct_unit records) records
  = match _choose_pct_unit records with
    | Some u => filter (fun r => eqb_ostr (unit_code r) (Some u)) records
    | None => records
    end.
Proof.
  unfold unit_filter.
  destruct (_choose_pct_unit records) as [u |] eqn:Hc; [| reflexivity].
  now rewrite (chosen_unit_truthy _ _ Hc).
Qed.

End Parse.

(** C8. Both projections of a parse are computed from one record list: the
    records whose unit code is the chosen one when the disambiguator chose a
    unit, and every materialized record when it chose none. *)
Theorem projections_on_unit_filtered_records (cube : Cube) latest series meta :
  parse_latest_and_timeseries cube = OK (latest, series, meta) ->
  exists dim_ids size dim_meta time_meta all_records projected latest_records,
    _build_dim_meta cube = OK (dim_ids, size, dim_meta) /\
    get String.eqb dim_meta "time" = Some time_meta /\
    materialize_loop dim_ids size dim_meta
      (field_or_empty (cube_value cube)) [] = OK all_records /\
    meta_chosen_unit meta = _choose_pct_unit all_records /\
    (forall u, meta_chosen_unit meta = Some u ->
       projected
       = filter (fun r => eqb_ostr (unit_code r) (Some u)) all_records) /\
    (meta_chosen_unit meta = None -> projected = all_records) /\
    latest_records_of projected (dm_size time_meta - 1) = OK latest_records /\
    latest = map latest_out latest_records /\
    timeseries_of projected = OK series.
Proof.
  intros Hparse.
  destruct (parse_inv _ _ _ _ Hparse)
    as (dim_ids & size & dim_meta & time_meta & all_records & latest_records
        & Hbuild & Htime & Hmat & Hchosen & Hlatest & Hout & Hseries).
  exists dim_ids, size, dim_meta, time_meta, all_records,
    (unit_filter (_choose_pct_unit all_records) all_records), latest_records.
  repeat split; try assumption.
  - intros u Hu. rewrite unit_filter_chosen, <- Hchosen, Hu. reflexivity.
  - intros Hnone. rewrite unit_filter_chosen, <- Hchosen, Hnone. reflexivity.
Qed.

Lemma projections_on_unit_filtered_records_witness :
  exists dim_ids size dim_meta time_meta all_records projected latest_records,
    _build_dim_meta scenario_cube = OK (dim_ids, size, dim_meta) /\
    get String.eqb dim_meta "time" = Some time_meta /\
    materialize_loop dim_ids size dim_meta
      (field_or_empty (cube_value scenario_cube)) [] = OK all_records /\
    Some "PC_GDP" = _choose_pct_unit all_records /\
    (forall u, Some "PC_GDP" = Some u ->
       projected
       = filter (fun r => eqb_ostr (unit_code r) (Some u)) all_records) /\
    (Some "PC_GDP" = None -> projected = all_records) /\
    latest_records_of projected (dm_size time_meta - 1) = OK latest_records /\
    map latest_out
      [{| value := Some 65%Q; unit_code := Some "PC_GDP";
          unit_label := Some "%"; geo_code := Some "DE";
          geo_label := Some "Germany"; time_code := Some "2024-Q2";
          time_label := Some "2024-Q2"; time_pos := Some 1 |};
       {| value := Some 60%Q; unit_code := Some "PC_GDP";
          unit_label := Some "%"; geo_code := Some "BE";
          geo_label := Some "Belgium"; time_code := Some "2024-Q2";
          time_label := Some "2024-Q2"; time_pos := Some 1 |}]
    = map latest_out latest_records /\
    timeseries_of projected
    = OK (match parse_latest_and_timeseries scenario_cube with
          | OK (_, series, _) => series
          | Err _ => []
          end).
Proof.
  apply (projections_on_unit_filtered_records scenario_cube _ _
           {| meta_dim_ids := ["unit"; "geo"; "time"];
              meta_units_present := ["PC_GDP"];
              meta_chosen_unit := Some "PC_GDP";
              meta_latest_time_code := "2024-Q2";
              meta_latest_time_label := "2024-Q2" |}).
  vm_compute. reflexivity.
Defined.

(** C4. The cross-section of a parse holds exactly the unit-filtered records
    whose time position is the declared size of the time dimension minus
    one.  The positions actually observed play no part: [sparse_cube]
    declares three periods and has observations for the first two only, and
    its cross-section is empty although its series are not. *)
Theorem latest_keeps_declared_last_position :
  (forall (cube : Cube) latest series meta,
      parse_latest_and_timeseries cube = OK (latest, series, meta) ->
      exists dim_ids size dim_meta time_meta all_records kept,
        _build_dim_meta cube = OK (dim_ids, size, dim_meta) /\
        get String.eqb dim_meta "time" = Some time_meta /\
        materialize_loop dim_ids size dim_meta
          (field_or_empty (cube_value cube)) [] = OK all_records /\
        latest = map latest_out kept /\
        Permutation kept
          (filter (fun r => eqb_oZ (time_pos r) (Some (dm_size time_meta - 1)))
             (unit_filter (_choose_pct_unit all_records) all_records))) /\
  (exists series meta,
      parse_latest_and_timeseries sparse_cube = OK ([], series, meta) /\
      map (fun s => List.length (gs_series s)) (timeseries_records series)
      = [2%nat]).
Proof.
  split.
  - intros cube latest series meta Hparse.
    destruct (parse_inv _ _ _ _ Hparse)
      as (dim_ids & size & dim_meta & time_meta & all_records & latest_records
          & Hbuild & Htime & Hmat & _ & Hlatest & Hout & _).
    exists dim_ids, size, dim_meta, time_meta, all_records, latest_records.
    repeat split; try assumption.
    destruct (latest_records_of_spec
                (unit_filter (_choose_pct_unit all_records) all_records)
                (dm_size time_meta - 1)) as (kept & Hk & Hperm & _).
    rewrite Hlatest in Hk. injection Hk as <-. exact Hperm.
  - do 2 eexists. split; [vm_compute; reflexivity | reflexivity].
Qed.

Lemma latest_keeps_declared_last_position_witness :
  exists dim_ids size dim_meta time_meta all_records kept,
    _build_dim_meta scenario_cube = OK (dim_ids, size, dim_meta) /\
    get String.eqb dim_meta "time" = Some time_meta /\
    materialize_loop dim_ids size dim_meta
      (field_or_empty (cube_value scenario_cube)) [] = OK all_records /\
    [{| lo_country_code := Some "DE"; lo_country := Some "Germany";
        lo_time := Some "2024-Q2"; lo_value_pct_gdp := Some 65%Q |};
     {| lo_country_code := Some "BE"; lo_country := Some "Belgium";
        lo_time := Some "2024-Q2"; lo_value_pct_gdp := Some 60%Q |}]
    = map latest_out kept /\
    Permutation kept
      (filter (fun r => eqb_oZ (time_pos r) (Some (dm_size time_meta - 1)))
         (unit_filter (_choose_pct_unit all_records) all_records)).
Proof.
  apply (proj1 latest_keeps_declared_last_position scenario_cube _
           (match parse_latest_and_timeseries scenario_cube with
            | OK (_, series, _) => series
            | Err _ => []
            end)
           {| meta_dim_ids := ["unit"; "geo"; "time"];
              meta_units_present := ["PC_GDP"];
              meta_chosen_unit := Some "PC_GDP";
              meta_latest_time_code := "2024-Q2";
              meta_latest_time_label := "2024-Q2" |}).
  vm_compute. reflexivity.
Defined.

(** C6. A cube without values, and a cube whose catalog has no "time"
    entry, make the parse raise its [ValueError]; nothing downstream of the
    check is looked at (the value keys may be malformed and the sizes zero),
    and the [try] around the parse in [process_dataset] re-raises the same
    error. *)
Theorem parse_raises_structural_error (cube : Cube) :
  field_or_empty (cube_value cube) = [] \/
  (exists dim_ids size dim_meta,
      _build_dim_meta cube = OK (dim_ids, size, dim_meta) /\
      get String.eqb dim_meta "time" = None) ->
  parse_latest_and_timeseries cube
  = Err (ValueError (structural_error_msg cube)) /\
  forall dataset_id,
    process_dataset_parse dataset_id cube
    = Err (ValueError (structural_error_msg cube)).
Proof.
  intros Hcube.
  assert (Hparse : parse_latest_and_timeseries cube
                   = Err (ValueError (structural_error_msg cube))).
  { unfold parse_latest_and_timeseries, structural_error_msg.
    destruct (field_or_empty (cube_value cube)) as [| kv value_map];
      [reflexivity |].
    destruct Hcube as [Hempty | (dim_ids & size & dim_meta & Hbuild & Htime)];
      [discriminate |].
    rewrite Hbuild. cbn [Py.bind]. now rewrite Htime. }
  split; [exact Hparse |].
  intros dataset_id. unfold process_dataset_parse. now rewrite Hparse.
Qed.

Lemma parse_raises_structural_error_witness :
  parse_latest_and_timeseries timeless_cube
  = Err (ValueError (structural_error_msg timeless_cube)) /\
  forall dataset_id,
    process_dataset_parse dataset_id timeless_cube
    = Err (ValueError (structural_error_msg timeless_cube)).
Proof.
  apply parse_raises_structural_error. right.
  exists ["geo"], [0], (dim_meta_of timeless_cube). split; reflexivity.
Defined.

(** The empty value mapping is found first, before the catalog is built. *)
Example empty_value_mapping_raises :
  parse_latest_and_timeseries
    {| cube_id := None; cube_size := None; cube_dimension := None;
       cube_value := Some [] |}
  = Err (ValueError no_value_msg).
Proof. reflexivity. Qed.

(** C7 (as amended). On the scenario cube the cross-section is DE 65 then
    BE 60, the values at the last time position of each geography, and the
    timeseries are BE 80, 60 and DE 82, 65, each in time order. *)
Theorem scenario_projections :
  exists latest series meta,
    parse_latest_and_timeseries scenario_cube = OK (latest, series, meta) /\
    geo_values latest = [(Some "DE", Some 65%Q); (Some "BE", Some 60%Q)] /\
    map (fun s => (gs_country_code s, gs_series s)) (timeseries_records series)
    = [("BE", [{| se_time := Some "2024-Q1"; se_value_pct_gdp := Some 80%Q |};
               {| se_time := Some "2024-Q2"; se_value_pct_gdp := Some 60%Q |}]);
       ("DE", [{| se_time := Some "2024-Q1"; se_value_pct_gdp := Some 82%Q |};
               {| se_time := Some "2024-Q2"; se_value_pct_gdp := Some 65%Q |}])].
Proof.
  do 3 eexists. split; [vm_compute; reflexivity |]. split; reflexivity.
Qed.

(** C7 as stated fails: 82 is the value of DE at the first period and is in
    no cross-section of this cube. *)
Lemma scenario_latest_counterexample :
  exists latest series meta,
    parse_latest_and_timeseries scenario_cube = OK (latest, series, meta) /\
    geo_values latest <> [(Some "DE", Some 65%Q); (Some "BE", Some 82%Q)].
Proof.
  do 3 eexists. split; [vm_compute; reflexivity |].
  vm_compute. discriminate.
Qed.

(* ------------------------------------------------------------------ *)
(** ** The order of the timeseries keys *)
(* ------------------------------------------------------------------ *)

Section KeyOrder.

Lemma eqb_sym_ostr (a b : option string) : eqb_ostr a b = eqb_ostr b a.
Proof. destruct a, b; simpl; auto using String.eqb_sym. Qed.

Lemma eqb_sym_oZ (a b : option Z) : eqb_oZ a b = eqb_oZ b a.
Proof. destruct a, b; simpl; auto using Z.eqb_sym. Qed.

Lemma str_ltb_lt (a b : string) :
  String.ltb a b = true <-> String_as_OT.lt a b.
Proof.
  unfold String.ltb. rewrite <- String_as_OT.cmp_lt.
  unfold String_as_OT.cmp. destruct (String.compare a b); split; congruence.
Qed.

Lemma str_ltb_irrefl (a : string) : String.ltb a a = false.
Proof.
  destruct (String.ltb a a) eqn:E; [| reflexivity].
  apply str_ltb_lt, String_as_OT.lt_not_eq in E.
  exfalso. apply E. reflexivity.
Qed.

Lemma str_ltb_trans (a b c : string) :
  String.ltb a b = true -> String.ltb b c = true -> String.ltb a c = true.
Proof. rewrite !str_ltb_lt. apply String_as_OT.lt_trans. Qed.

Lemma str_ltb_asym (a b : string) :
  String.ltb a b = true -> String.ltb b a = false.
Proof.
  intros Hab. destruct (String.ltb b a) eqn:Hba; [| reflexivity].
  pose proof (str_ltb_trans _ _ _ Hab Hba) as Haa.
  now rewrite str_ltb_irrefl in Haa.
Qed.

Lemma str_ltb_total (a b : string) :
  String.ltb a b = false -> String.ltb b a = false -> a = b.
Proof.
  unfold String.ltb. rewrite (String.compare_antisym b a).
  destruct (String.compare a b) eqn:E; simpl; try discriminate.
  intros _ _. now apply String.compare_eq_iff.
Qed.

Lemma str_ltb_negtrans (a b c : string) :
  String.ltb a b = false -> String.ltb b c = false -> String.ltb a c = false.
Proof.
  intros Hab Hbc. destruct (String.ltb a c) eqn:Hac; [| reflexivity].
  destruct (String.ltb b a) eqn:Hba.
  - now rewrite (str_ltb_trans _ _ _ Hba Hac) in Hbc.
  - rewrite (str_ltb_total _ _ Hab Hba) in Hac. congruence.
Qed.

Lemma eqb_ostr_eq (a b : option string) : eqb_ostr a b = true <-> a = b.
Proof.
  destruct a as [x |], b as [y |]; simpl; try (split; congruence).
  rewrite String.eqb_eq. split; congruence.
Qed.

Lemma eqb_oZ_eq (a b : option Z) : eqb_oZ a b = true <-> a = b.
Proof.
  destruct a as [x |], b as [y |]; simpl; try (split; congruence).
  rewrite Z.eqb_eq. split; congruence.
Qed.

Lemma ostr_ltb_asym a b : ostr_ltb a b = true -> ostr_ltb b a = false.
Proof.
  destruct a, b; simpl; try congruence. apply str_ltb_asym.
Qed.

Lemma ostr_ltb_total a b :
  ostr_ltb a b = false -> ostr_ltb b a = false -> a = b.
Proof.
  destruct a, b; simpl; try congruence.
  intros H1 H2. f_equal. now apply str_ltb_total.
Qed.

Lemma ostr_ltb_negtrans a b c :
  ostr_ltb a b = false -> ostr_ltb b c = false -> ostr_ltb a c = false.
Proof.
  destruct a, b, c; simpl; try congruence. apply str_ltb_negtrans.
Qed.

Lemma oZ_ltb_asym a b : oZ_ltb a b = true -> oZ_ltb b a = false.
Proof. destruct a, b; simpl; try congruence. lia. Qed.

Lemma oZ_ltb_negtrans a b c :
  oZ_ltb a b = false -> oZ_ltb b c = false -> oZ_ltb a c = false.
Proof. destruct a, b, c; simpl; try congruence. lia. Qed.

Lemma lex_ltb_asym a b : lex_ltb a b = true -> lex_ltb b a = false.
Proof.
  unfold lex_ltb. destruct a as [ga ta], b as [gb tb]. simpl.
  destruct (eqb_ostr ga gb) eqn:E.
  - apply eqb_ostr_eq in E. subst gb.
    rewrite (proj2 (eqb_ostr_eq ga ga) eq_refl). apply oZ_ltb_asym.
  - destruct (eqb_ostr gb ga) eqn:E'.
    + apply eqb_ostr_eq in E'. subst gb.
      rewrite (proj2 (eqb_ostr_eq ga ga) eq_refl) in E. discriminate.
    + apply ostr_ltb_asym.
Qed.

Lemma eqb_ostr_false a b : a <> b -> eqb_ostr a b = false.
Proof.
  intros Hne. destruct (eqb_ostr a b) eqn:E; [| reflexivity].
  now apply eqb_ostr_eq in E.
Qed.

Lemma lex_ltb_negtrans a b c :
  lex_ltb a b = false -> lex_ltb b c = false -> lex_ltb a c = false.
Proof.
  unfold lex_ltb. destruct a as [ga ta], b as [gb tb], c as [gc tc]. simpl.
  destruct (eqb_ostr ga gb) eqn:Eab.
  - apply eqb_ostr_eq in Eab. subst gb.
    destruct (eqb_ostr ga gc); [apply oZ_ltb_negtrans | auto].
  - destruct (eqb_ostr gb gc) eqn:Ebc.
    + apply eqb_ostr_eq in Ebc. subst gc. rewrite Eab. auto.
    + intros Hab Hbc. destruct (eqb_ostr ga gc) eqn:Eac.
      * apply eqb_ostr_eq in Eac. subst gc.
        rewrite (ostr_ltb_total _ _ Hab Hbc), (proj2 (eqb_ostr_eq gb gb))
          in Eab by reflexivity.
        discriminate.
      * now apply ostr_ltb_negtrans with gb.
Qed.

(** Where Python can compare two keys, [<] is the total order. *)
Lemma geo_time_ltb_lex (a b : FlatRecord) :
  comparable geo_time_key geo_time_key_lt a b = true ->
  geo_time_ltb a b = lex_ltb (geo_time_key a) (geo_time_key b).
Proof.
  unfold comparable, geo_time_ltb, ltb, geo_time_key_lt, lex_ltb,
    geo_time_key. cbn [fst snd].
  rewrite (eqb_sym_ostr (geo_code b) (geo_code a)),
    (eqb_sym_oZ (time_pos b) (time_pos a)).
  destruct (eqb_ostr (geo_code a) (geo_code b)) eqn:Eg; cbn [negb].
  - destruct (eqb_oZ (time_pos a) (time_pos b)) eqn:Et.
    + intros _. apply eqb_oZ_eq in Et. rewrite Et.
      destruct (time_pos b); simpl; [now rewrite Z.ltb_irrefl | reflexivity].
    + destruct (time_pos a), (time_pos b); try discriminate.
      intros _. simpl. now destruct (_ <? _).
  - destruct (geo_code a), (geo_code b); try discriminate.
    intros _. simpl. now destruct (String.ltb _ _).
Qed.

End KeyOrder.

(* ------------------------------------------------------------------ *)
(** ** Timeseries projection *)
(* ------------------------------------------------------------------ *)

Section Timeseries.

Lemma has_geo_geo_of (r : FlatRecord) :
  has_geo r = true -> geo_code r = Some (geo_of r) /\ geo_of r <> "".
Proof.
  unfold has_geo, geo_of. destruct (geo_code r) as [g |]; [| discriminate].
  intros H. split; [reflexivity | now apply truthy_Some].
Qed.

Lemma series_loop_fold (records : list FlatRecord) :
  forall d,
    series_loop records d = fold_left series_step (filter has_geo records) d.
Proof.
  induction records as [| r records IH]; intros d; [reflexivity |].
  cbn [series_loop filter]. unfold has_geo at 1.
  destruct (geo_code r) as [g |] eqn:Hg; [| apply IH].
  destruct (truthy (Some g)); cbn [negb]; [| apply IH].
  cbn [fold_left]. rewrite IH. unfold series_step, geo_of. now rewrite Hg.
Qed.

Lemma keys_series_step (d : dict string GeoSeries) (r : FlatRecord) :
  keys (series_step d r)
  = if contains String.eqb d (geo_of r) then keys d
    else keys d ++ [geo_of r].
Proof.
  unfold series_step. rewrite keys_modify.
  destruct (contains String.eqb d (geo_of r)) eqn:Hc; cbn [negb];
    [reflexivity |].
  rewrite (set_fresh String.eqb str_eqb_eq)
    by now apply contains_false_notin.
  unfold keys. rewrite map_app. reflexivity.
Qed.

Lemma contains_true_in {V : Type} (d : dict string V) k :
  contains String.eqb d k = true <-> In k (keys d).
Proof.
  destruct (contains String.eqb d k) eqn:Hc.
  - split; [intros _ | reflexivity].
    destruct (in_dec string_dec k (keys d)) as [Hin | Hnin]; [assumption |].
    apply contains_false_notin in Hnin. congruence.
  - apply contains_false_notin in Hc. split; [discriminate | contradiction].
Qed.

Lemma series_of_step (d : dict string GeoSeries) (r : FlatRecord) g :
  series_of g (series_step d r)
  = series_of g d ++
    (if String.eqb (geo_of r) g then [series_entry r] else []).
Proof.
  unfold series_of, series_step.
  destruct (String.eqb_spec (geo_of r) g) as [<- | Hne].
  - rewrite (get_modify_same String.eqb).
    unfold contains.
    destruct (get String.eqb d (geo_of r)) as [s |] eqn:Hget; cbn [negb].
    + rewrite Hget. reflexivity.
    + rewrite (get_set_same String.eqb str_eqb_eq). reflexivity.
  - rewrite (get_modify_other String.eqb str_eqb_eq) by assumption.
    rewrite app_nil_r.
    destruct (contains String.eqb d (geo_of r)); cbn [negb];
      [reflexivity |].
    now rewrite (get_set_other String.eqb str_eqb_eq).
Qed.

Lemma series_of_fold (l : list FlatRecord) g :
  forall d,
    series_of g (fold_left series_step l d)
    = series_of g d ++
      map series_entry (filter (fun r => String.eqb (geo_of r) g) l).
Proof.
  induction l as [| r l IH]; intros d; cbn [fold_left filter].
  - now rewrite app_nil_r.
  - rewrite IH, series_of_step, <- app_assoc. f_equal.
    destruct (String.eqb (geo_of r) g); reflexivity.
Qed.

Lemma keys_fold_In (l : list FlatRecord) g :
  forall d,
    In g (keys (fold_left series_step l d))
    <-> In g (keys d) \/ In g (map geo_of l).
Proof.
  induction l as [| r l IH]; intros d; cbn [fold_left map].
  - simpl. tauto.
  - rewrite IH, keys_series_step.
    destruct (contains String.eqb d (geo_of r)) eqn:Hc.
    + apply contains_true_in in Hc. simpl. split; [tauto |].
      intros [H | [<- | H]]; tauto.
    + rewrite in_app_iff. simpl. tauto.
Qed.

Lemma StronglySorted_snoc {A : Type} (R : A -> A -> Prop) l x :
  StronglySorted R l -> Forall (fun a => R a x) l ->
  StronglySorted R (l ++ [x]).
Proof.
  induction 1 as [| a l Hs IH Ha]; intros Hx; simpl.
  - repeat constructor.
  - inversion Hx as [| ? ? Hax Hlx]; subst. constructor; [now apply IH |].
    apply Forall_app. split; [assumption | now constructor].
Qed.

(** Codes met in ascending order are stored in strictly ascending order. *)
Lemma keys_fold_sorted (l : list FlatRecord) :
  forall d,
    StronglySorted (fun g h => String.ltb g h = true) (keys d) ->
    StronglySorted (asc String.ltb) (map geo_of l) ->
    (forall k g, In k (keys d) -> In g (map geo_of l) ->
                 String.ltb g k = false) ->
    StronglySorted (fun g h => String.ltb g h = true)
      (keys (fold_left series_step l d)).
Proof.
  induction l as [| r l IH]; intros d Hd Hl Hdl; cbn [fold_left];
    [assumption |].
  cbn [map] in Hl, Hdl. apply StronglySorted_inv in Hl.
  destruct Hl as [Hl Hr]. rewrite Forall_forall in Hr.
  apply IH; [| assumption |]; rewrite keys_series_step;
    destruct (contains String.eqb d (geo_of r)) eqn:Hc.
  - assumption.
  - apply StronglySorted_snoc; [assumption |].
    apply Forall_forall. intros k Hk.
    destruct (String.ltb k (geo_of r)) eqn:Hlt; [reflexivity |].
    exfalso. apply contains_false_notin in Hc. apply Hc.
    rewrite <- (str_ltb_total k (geo_of r)); [assumption | assumption |].
    apply Hdl; simpl; auto.
  - intros k g Hk Hg. apply Hdl; simpl; auto.
  - intros k g Hk Hg. apply in_app_or in Hk.
    destruct Hk as [Hk | [<- | []]].
    + apply Hdl; simpl; auto.
    + now apply Hr.
Qed.

Lemma series_step_codes (d : dict string GeoSeries) (r : FlatRecord) :
  Forall (fun kv => gs_country_code (snd kv) = fst kv) d ->
  Forall (fun kv => gs_country_code (snd kv) = fst kv) (series_step d r).
Proof.
  intros Hd. unfold series_step.
  assert (Hmod : forall d' : dict string GeoSeries,
             Forall (fun kv => gs_country_code (snd kv) = fst kv) d' ->
             Forall (fun kv => gs_country_code (snd kv) = fst kv)
               (modify String.eqb d' (geo_of r)
                  (push_entry (series_entry r)))).
  { induction 1 as [| [k v] d' Hkv Hd' IH]; simpl; [constructor |].
    destruct (String.eqb k (geo_of r)); constructor; simpl in *; auto. }
  apply Hmod. destruct (contains String.eqb d (geo_of r)) eqn:Hc;
    cbn [negb]; [assumption |].
  rewrite (set_fresh String.eqb str_eqb_eq)
    by now apply contains_false_notin.
  apply Forall_app. split; [assumption |]. now constructor.
Qed.

Lemma fold_codes (l : list FlatRecord) :
  forall d,
    Forall (fun kv => gs_country_code (snd kv) = fst kv) d ->
    map gs_country_code (values (fold_left series_step l d))
    = keys (fold_left series_step l d).
Proof.
  induction l as [| r l IH]; intros d Hd; cbn [fold_left].
  - unfold values, keys. induction Hd as [| [k v] d Hkv _ IHd]; simpl;
      [reflexivity |]. simpl in Hkv. now rewrite Hkv, IHd.
  - apply IH. now apply series_step_codes.
Qed.

Lemma In_values_get {V : Type} (d : dict string V) (v : V) :
  In v (values d) -> exists k, In k (keys d) /\ In (k, v) d.
Proof.
  unfold values, keys. intros Hin. apply in_map_iff in Hin.
  destruct Hin as ([k v'] & <- & Hin). exists k. split; [| assumption].
  apply in_map_iff. now exists (k, v').
Qed.

Lemma In_get {V : Type} (d : dict string V) k v :
  NoDup (keys d) -> In (k, v) d -> get String.eqb d k = Some v.
Proof.
  unfold keys. induction d as [| [k' v'] d IH]; simpl; intros Hnd Hin;
    [contradiction |].
  inversion Hnd as [| ? ? Hnin Hnd']; subst.
  destruct Hin as [[= -> ->] | Hin].
  - now rewrite String.eqb_refl.
  - destruct (String.eqb_spec k' k) as [-> | _]; [| now apply IH].
    exfalso. apply Hnin. apply in_map_iff. now exists (k, v).
Qed.

Lemma strictly_sorted_NoDup (l : list string) :
  StronglySorted (fun g h => String.ltb g h = true) l -> NoDup l.
Proof.
  induction 1 as [| a l Hs IH Ha]; constructor; [| assumption].
  intros Hin. rewrite Forall_forall in Ha. specialize (Ha a Hin).
  now rewrite str_ltb_irrefl in Ha.
Qed.

End Timeseries.

Section TimeseriesOrder.

Lemma fold_codes_Forall (l : list FlatRecord) :
  forall d,
    Forall (fun kv => gs_country_code (snd kv) = fst kv) d ->
    Forall (fun kv => gs_country_code (snd kv) = fst kv)
      (fold_left series_step l d).
Proof.
  induction l as [| r l IH]; intros d Hd; cbn [fold_left]; [assumption |].
  apply IH. now apply series_step_codes.
Qed.

(** [sorted] does not raise on comparable keys and orders them. *)
Lemma geo_time_sorted_spec (records : list FlatRecord) :
  all_comparable geo_time_key geo_time_key_lt records = true ->
  exists sorted_records,
    py_sorted geo_time_key geo_time_key_lt false records
    = OK sorted_records /\
    Permutation sorted_records records /\
    StronglySorted
      (fun a b => lex_ltb (geo_time_key b) (geo_time_key a) = false)
      sorted_records.
Proof.
  intros Hcmp. unfold py_sorted. rewrite Hcmp.
  eexists. split; [reflexivity |].
  pose proof (sort_perm geo_time_key geo_time_key_lt false records) as Hperm.
  split; [exact Hperm |].
  pose proof (proj1 (all_comparable_In _ _ _) Hcmp) as Hpair.
  apply StronglySorted_impl_In with (R := asc geo_time_ltb).
  - intros a b Ha Hb Hab. unfold asc in Hab.
    rewrite geo_time_ltb_lex in Hab; [exact Hab |].
    apply Hpair; now apply (Permutation_in _ Hperm).
  - apply (sort_asc_sorted geo_time_key geo_time_key_lt
             (fun r => In r records)).
    + intros a b Ha Hb. fold geo_time_ltb.
      rewrite !geo_time_ltb_lex by now apply Hpair.
      apply lex_ltb_asym.
    + intros a b c Ha Hb Hc. fold geo_time_ltb.
      rewrite !geo_time_ltb_lex by now apply Hpair.
      apply lex_ltb_negtrans.
    + now apply Forall_forall.
Qed.

Lemma lex_geo_asc (a b : FlatRecord) :
  has_geo a = true -> has_geo b = true ->
  lex_ltb (geo_time_key b) (geo_time_key a) = false ->
  asc String.ltb (geo_of a) (geo_of b).
Proof.
  intros Ha Hb. apply has_geo_geo_of in Ha, Hb.
  destruct Ha as [Ha _], Hb as [Hb _].
  unfold lex_ltb, geo_time_key, asc. cbn [fst snd]. rewrite Ha, Hb. simpl.
  destruct (String.eqb_spec (geo_of b) (geo_of a)) as [-> | _];
    [intros _; apply str_ltb_irrefl | trivial].
Qed.

Lemma same_geo_time_le (a b : FlatRecord) (g : string) :
  geo_code a = Some g -> geo_code b = Some g ->
  comparable geo_time_key geo_time_key_lt a b = true ->
  lex_ltb (geo_time_key b) (geo_time_key a) = false ->
  time_le a b.
Proof.
  unfold comparable, geo_time_key_lt, lex_ltb, geo_time_key, time_le.
  cbn [fst snd]. intros -> ->. simpl. rewrite String.eqb_refl. simpl.
  destruct (time_pos a) as [x |], (time_pos b) as [y |]; simpl;
    try discriminate; try trivial.
  intros _ H. lia.
Qed.

Lemma time_le_strict (g : string) (rs : list FlatRecord) :
  Forall (fun r => geo_code r = Some g) rs ->
  NoDup (map geo_time_key rs) ->
  StronglySorted time_le rs -> StronglySorted time_lt rs.
Proof.
  intros Hg Hnd Hs. induction Hs as [| a l Hs IH Ha]; [constructor |].
  inversion Hg as [| ? ? Hga Hgl]; subst.
  simpl in Hnd. inversion Hnd as [| ? ? Hnin Hnd']; subst.
  constructor; [now apply IH |].
  rewrite Forall_forall in *. intros b Hb.
  specialize (Ha b Hb). specialize (Hgl b Hb).
  assert (Hne : geo_time_key a <> geo_time_key b).
  { intros Heq. apply Hnin. rewrite Heq. now apply in_map. }
  unfold geo_time_key in Hne. rewrite Hga, Hgl in Hne.
  unfold time_le, time_lt in *.
  destruct (time_pos a) as [x |], (time_pos b) as [y |]; try easy.
  assert (x <> y) by congruence. lia.
Qed.

Lemma geo_filter_filter (g : string) (l : list FlatRecord) :
  g <> "" ->
  filter (fun r => String.eqb (geo_of r) g) (filter has_geo l)
  = filter (geo_is g) l.
Proof.
  intros Hne. rewrite filter_filter. apply filter_ext. intros r.
  unfold has_geo, geo_of, geo_is.
  destruct (geo_code r) as [h |]; [| reflexivity].
  cbn [eqb_ostr].
  destruct (String.eqb_spec h g) as [-> | _]; [| apply andb_false_r].
  now rewrite (proj2 (truthy_Some g) Hne).
Qed.

Lemma geo_codes_of_records (g : string) (l : list FlatRecord) :
  In g (map geo_of (filter has_geo l)) <->
  g <> "" /\ exists r, In r l /\ geo_code r = Some g.
Proof.
  rewrite in_map_iff. split.
  - intros (r & <- & Hr). apply filter_In in Hr. destruct Hr as [Hr Hgeo].
    apply has_geo_geo_of in Hgeo. destruct Hgeo as [Hcode Hne]. eauto.
  - intros (Hne & r & Hr & Hcode). exists r. split.
    + unfold geo_of. now rewrite Hcode.
    + apply filter_In. split; [assumption |].
      unfold has_geo. rewrite Hcode. now apply truthy_Some.
Qed.

End TimeseriesOrder.

(** C5 (as amended). When [sorted] can compare the keys of the records, the
    timeseries projection has one series per geography code carried by some
    record (records without a code are skipped), the series come in strictly
    ascending order of geography code, and each series lists the records of
    its geography in ascending order of time position; the order is strict,
    no two entries sharing a time position, when no two records share both
    geography code and time position. *)
Theorem timeseries_grouped_sorted (records : list FlatRecord) :
  all_comparable geo_time_key geo_time_key_lt records = true ->
  exists series_by_geo,
    timeseries_of records = OK series_by_geo /\
    (forall g,
        In g (map gs_country_code (timeseries_records series_by_geo)) <->
        g <> "" /\ exists r, In r records /\ geo_code r = Some g) /\
    StronglySorted (fun g h => String.ltb g h = true)
      (map gs_country_code (timeseries_records series_by_geo)) /\
    (forall s,
        In s (timeseries_records series_by_geo) ->
        exists rs,
          gs_series s = map series_entry rs /\
          Permutation rs (filter (geo_is (gs_country_code s)) records) /\
          StronglySorted time_le rs /\
          (NoDup (map geo_time_key records) -> StronglySorted time_lt rs)).
Proof.
  intros Hcmp.
  destruct (geo_time_sorted_spec records Hcmp)
    as (sorted_records & Hsort & Hperm & Hsorted).
  pose proof (proj1 (all_comparable_In _ _ _) Hcmp) as Hpair.
  exists (series_loop sorted_records []).
  unfold timeseries_of. rewrite Hsort. cbn [Py.bind].
  split; [reflexivity |].
  rewrite series_loop_fold. unfold timeseries_records.
  set (l := filter has_geo sorted_records).
  set (out := fold_left series_step l []).
  assert (Hinv : Forall (fun kv => gs_country_code (snd kv) = fst kv) out)
    by (apply fold_codes_Forall; constructor).
  assert (Hcodes : map gs_country_code (values out) = keys out)
    by (apply fold_codes; constructor).
  assert (Hkeys : StronglySorted (fun g h => String.ltb g h = true) (keys out)).
  { apply keys_fold_sorted.
    - constructor.
    - apply StronglySorted_map_In
        with (R := fun a b =>
                     lex_ltb (geo_time_key b) (geo_time_key a) = false).
      + intros a b Ha Hb. apply filter_In in Ha, Hb.
        apply lex_geo_asc; tauto.
      + now apply StronglySorted_filter.
    - intros k g []. }
  assert (Hmem : forall g, In g (keys out) <->
                   g <> "" /\ exists r, In r records /\ geo_code r = Some g).
  { intros g. unfold out. rewrite keys_fold_In. unfold l.
    rewrite geo_codes_of_records. simpl. split.
    - intros [[] | (Hne & r & Hr & Hg)]. split; [assumption |].
      exists r. split; [| assumption]. now apply (Permutation_in _ Hperm).
    - intros (Hne & r & Hr & Hg). right. split; [assumption |].
      exists r. split; [| assumption].
      now apply (Permutation_in _ (Permutation_sym Hperm)). }
  rewrite Hcodes. split; [exact Hmem |]. split; [exact Hkeys |].
  intros s Hs. apply In_values_get in Hs. destruct Hs as (k & Hk & Hks).
  assert (Hcode : gs_country_code s = k).
  { rewrite Forall_forall in Hinv. exact (Hinv _ Hks). }
  assert (Hne : k <> "") by (apply Hmem in Hk; tauto).
  assert (Hget : get String.eqb out k = Some s)
    by (apply In_get; [now apply strictly_sorted_NoDup | assumption]).
  assert (Hseries : gs_series s
                    = map series_entry (filter (geo_is k) sorted_records)).
  { pose proof (series_of_fold l k []) as Hfold. fold out in Hfold.
    unfold series_of in Hfold at 1. rewrite Hget in Hfold.
    rewrite Hfold. unfold l. now rewrite geo_filter_filter. }
  rewrite Hcode. exists (filter (geo_is k) sorted_records).
  assert (Hgeo : Forall (fun r => geo_code r = Some k)
                   (filter (geo_is k) sorted_records)).
  { apply Forall_forall. intros r Hr. apply filter_In in Hr.
    now apply eqb_ostr_eq. }
  assert (Hle : StronglySorted time_le (filter (geo_is k) sorted_records)).
  { apply StronglySorted_impl_In
      with (R := fun a b =>
                   lex_ltb (geo_time_key b) (geo_time_key a) = false);
      [| now apply StronglySorted_filter].
    rewrite Forall_forall in Hgeo.
    intros a b Ha Hb. apply (same_geo_time_le a b k); auto.
    apply filter_In in Ha, Hb.
    apply Hpair; apply (Permutation_in _ Hperm); tauto. }
  repeat split; try assumption.
  - now apply Permutation_filter.
  - intros Hnd. apply (time_le_strict k); try assumption.
    apply NoDup_map_filter.
    apply (Permutation_NoDup
             (Permutation_map geo_time_key (Permutation_sym Hperm))).
    exact Hnd.
Qed.

Lemma timeseries_grouped_sorted_witness :
  exists series_by_geo,
    timeseries_of (unit_filtered_records scenario_cube) = OK series_by_geo /\
    (forall g,
        In g (map gs_country_code (timeseries_records series_by_geo)) <->
        g <> "" /\
        exists r, In r (unit_filtered_records scenario_cube) /\
                  geo_code r = Some g) /\
    StronglySorted (fun g h => String.ltb g h = true)
      (map gs_country_code (timeseries_records series_by_geo)) /\
    (forall s,
        In s (timeseries_records series_by_geo) ->
        exists rs,
          gs_series s = map series_entry rs /\
          Permutation rs
            (filter (geo_is (gs_country_code s))
               (unit_filtered_records scenario_cube)) /\
          StronglySorted time_le rs /\
          (NoDup (map geo_time_key (unit_filtered_records scenario_cube)) ->
           StronglySorted time_lt rs)).
Proof.
  apply timeseries_grouped_sorted. vm_compute. reflexivity.
Defined.

(** C5 as stated fails: with a second sector, the one series of
    [two_sector_cube] has two entries at the same time position, and no
    arrangement of its records is strictly ascending.  And a list that mixes
    a record without geography code with one that has a code makes [sorted]
    raise instead of producing series. *)
Lemma shared_time_position_counterexample :
  timeseries_of
    [{| value := Some 1%Q; unit_code := None; unit_label := None;
        geo_code := None; geo_label := None; time_code := Some "2024";
        time_label := Some "2024"; time_pos := Some 0 |};
     {| value := Some 2%Q; unit_code := None; unit_label := None;
        geo_code := Some "BE"; geo_label := Some "Belgium";
        time_code := Some "2024"; time_label := Some "2024";
        time_pos := Some 0 |}]
  = Err TypeError /\
  exists latest series meta s,
    parse_latest_and_timeseries two_sector_cube = OK (latest, series, meta) /\
    timeseries_records series = [s] /\
    gs_series s
    = [{| se_time := Some "2024"; se_value_pct_gdp := Some 105%Q |};
       {| se_time := Some "2024"; se_value_pct_gdp := Some 90%Q |}] /\
    map time_pos (unit_filtered_records two_sector_cube) = [Some 0; Some 0] /\
    ~ exists rs,
        Permutation rs
          (filter (geo_is (gs_country_code s))
             (unit_filtered_records two_sector_cube)) /\
        StronglySorted time_lt rs.
Proof.
  split; [reflexivity |].
  do 4 eexists. split; [vm_compute; reflexivity |].
  split; [reflexivity |]. split; [reflexivity |]. split; [reflexivity |].
  intros (rs & Hperm & Hs).
  assert (Hall : Forall (fun r => time_pos r = Some 0) rs).
  { apply (Permutation_Forall (Permutation_sym Hperm)).
    vm_compute. repeat constructor. }
  apply Permutation_length in Hperm. vm_compute in Hperm.
  destruct rs as [| a [| b [| c rs]]]; try discriminate.
  apply StronglySorted_inv in Hs. destruct Hs as [_ Hab].
  inversion Hab as [| ? ? Hlt _]; subst.
  inversion Hall as [| ? ? Ha Hall']; subst.
  inversion Hall' as [| ? ? Hb _]; subst.
  unfold time_lt in Hlt. rewrite Ha, Hb in Hlt. lia.
Qed.

(* ------------------------------------------------------------------ *)
(** ** The materializer builds comparable records *)
(* ------------------------------------------------------------------ *)

Section Materializer.

Lemma decode_loop_length (rs : list Z) :
  forall idx acc coords,
    decode_loop idx rs acc = OK coords ->
    List.length coords = (List.length acc + List.length rs)%nat.
Proof.
  induction rs as [| s rs IH]; intros idx acc coords H; simpl in H.
  - injection H as <-. simpl. lia.
  - destruct (s =? 0); [discriminate |].
    apply IH in H. rewrite length_app in H. simpl in *. lia.
Qed.

Lemma decode_length (idx : Z) (sizes coords : list Z) :
  _linear_index_to_coords idx sizes = OK coords ->
  List.length coords = List.length sizes.
Proof.
  unfold _linear_index_to_coords.
  destruct (decode_loop idx (rev sizes) []) as [c | e] eqn:H;
    cbn [Py.bind]; [| discriminate].
  intros [= <-]. apply decode_loop_length in H.
  rewrite length_rev in *. simpl in H. exact H.
Qed.

Lemma contains_set {V : Type} (d : dict string V) k v k' :
  contains String.eqb (set String.eqb d k v) k'
  = contains String.eqb d k' || String.eqb k k'.
Proof.
  unfold contains. destruct (String.eqb_spec k k') as [<- | Hne].
  - rewrite (get_set_same String.eqb str_eqb_eq). now rewrite orb_true_r.
  - rewrite (get_set_other String.eqb str_eqb_eq) by assumption.
    now rewrite orb_false_r.
Qed.

Lemma coord_loop_contains (dim_meta : dict string DimMeta)
  (pairs : list (string * Z)) :
  forall acc coord_map name,
    coord_loop dim_meta pairs acc = OK coord_map ->
    contains String.eqb coord_map name
    = contains String.eqb acc name || str_mem name (map fst pairs).
Proof.
  induction pairs as [| [d p] pairs IH]; intros acc coord_map name H;
    cbn [coord_loop] in H.
  - injection H as <-. simpl. now rewrite orb_false_r.
  - destruct (getitem String.eqb dim_meta d) as [m | e]; cbn [Py.bind] in H;
      [| discriminate].
    destruct (getitem Z.eqb (dm_inv_index m) p) as [c | e];
      cbn [Py.bind] in H; [| discriminate].
    rewrite (IH _ _ name H), contains_set. simpl.
    rewrite (String.eqb_sym name d). now rewrite orb_assoc.
Qed.

Lemma map_fst_combine {A B : Type} (l : list A) (l' : list B) :
  map fst (combine l l') = firstn (List.length l') l.
Proof.
  revert l'. induction l as [| a l IH]; intros [| b l']; simpl;
    try reflexivity. now rewrite IH.
Qed.

Lemma coord_part_is_some {A : Type} (coord_map : dict string Coord)
  (name : string) (part : Coord -> A) :
  is_some (coord_part coord_map name part)
  = contains String.eqb coord_map name.
Proof.
  unfold coord_part, contains.
  now destruct (get String.eqb coord_map name).
Qed.

(** Whether a record has a geography code and a time position depends on
    the cube's dimension list only, not on the cell. *)
Lemma materialize_loop_uniform (dim_ids : list string) (size : list Z)
  (dim_meta : dict string DimMeta) (items : list (string * option Q)) :
  forall acc all_records,
    materialize_loop dim_ids size dim_meta items acc = OK all_records ->
    let uniform r :=
      is_some (geo_code r) = str_mem "geo" (zipped_dims dim_ids size) /\
      is_some (time_pos r) = str_mem "time" (zipped_dims dim_ids size) in
    Forall uniform acc -> Forall uniform all_records.
Proof.
  induction items as [| [k v] items IH]; intros acc all_records H uniform Hacc;
    cbn [materialize_loop] in H.
  - now injection H as <-.
  - destruct (int_of_string k) as [lin_idx | e]; cbn [Py.bind] in H;
      [| discriminate].
    destruct (_linear_index_to_coords lin_idx size) as [coords | e] eqn:Hdec;
      cbn [Py.bind] in H; [| discriminate].
    destruct (coord_loop dim_meta (combine dim_ids coords) [])
      as [coord_map | e] eqn:Hcoord; cbn [Py.bind] in H; [| discriminate].
    apply (IH _ _ H). apply Forall_app. split; [assumption |].
    constructor; [| constructor].
    unfold uniform, make_record, zipped_dims. cbn [geo_code time_pos].
    rewrite !coord_part_is_some.
    rewrite !(coord_loop_contains _ _ _ _ _ Hcoord), map_fst_combine.
    rewrite (decode_length _ _ _ Hdec). split; reflexivity.
Qed.

Lemma uniform_comparable (g t : bool) (l : list FlatRecord) :
  Forall (fun r => is_some (geo_code r) = g /\ is_some (time_pos r) = t) l ->
  all_comparable geo_time_key geo_time_key_lt l = true.
Proof.
  intros Hl. apply all_comparable_In. rewrite Forall_forall in Hl.
  intros a b Ha Hb. destruct (Hl a Ha) as [Hga Hta].
  destruct (Hl b Hb) as [Hgb Htb].
  unfold comparable, geo_time_key, geo_time_key_lt. cbn [fst snd].
  rewrite (eqb_sym_ostr (geo_code b)), (eqb_sym_oZ (time_pos b)).
  destruct (geo_code a) as [ga |], (geo_code b) as [gb |];
    simpl in Hga, Hgb; try congruence;
  destruct (time_pos a) as [ta |], (time_pos b) as [tb |];
    simpl in Hta, Htb; try congruence; simpl;
  try destruct (String.eqb ga gb); simpl;
  try destruct (ta =? tb); reflexivity.
Qed.

(** The record list of a cube never makes [sorted] raise. *)
Lemma unit_filtered_comparable (cube : Cube) :
  all_comparable geo_time_key geo_time_key_lt (unit_filtered_records cube)
  = true.
Proof.
  unfold unit_filtered_records.
  destruct (_build_dim_meta cube) as [[[dim_ids size] dim_meta] | e];
    [| reflexivity].
  destruct (materialize_loop _ _ _ _ _) as [all_records | e] eqn:Hmat;
    [| reflexivity].
  pose proof (materialize_loop_uniform _ _ _ _ _ _ Hmat (Forall_nil _))
    as Huni. cbv zeta in Huni.
  eapply uniform_comparable.
  unfold unit_filter. destruct (truthy _); [| exact Huni].
  rewrite Forall_forall in *. intros r Hr. apply filter_In in Hr.
  now apply Huni.
Qed.

End Materializer.

(* ================================================================== *)
(** * Further properties of the code *)
(* ================================================================== *)

(* ------------------------------------------------------------------ *)
(** ** Coordinate decoder: errors and the inverse direction *)
(* ------------------------------------------------------------------ *)

Section DecoderEdges.

Lemma decode_loop_outcome (rs : list Z) :
  forall idx acc,
    match decode_loop idx rs acc with
    | OK coords =>
        ~ In 0 rs /\
        List.length coords = (List.length acc + List.length rs)%nat
    | Err e => e = ZeroDivisionError /\ In 0 rs
    end.
Proof.
  induction rs as [| s rs IH]; intros idx acc; cbn [decode_loop].
  - split; [tauto | simpl; lia].
  - destruct (Z.eqb_spec s 0) as [-> | Hs].
    + split; [reflexivity | now left].
    + specialize (IH (idx / s) (acc ++ [idx mod s])).
      destruct (decode_loop _ rs _) as [coords | e].
      * destruct IH as [Hnin Hlen]. split.
        -- intros [H0 | Hin]; [congruence | contradiction].
        -- rewrite length_app in Hlen. simpl in *. lia.
      * destruct IH as [-> Hin]. split; [reflexivity | now right].
Qed.

Lemma lsb_value_range (ds rs : list Z) :
  Forall2 (fun c s => 0 <= c < s) ds rs ->
  0 <= lsb_value ds rs < product rs.
Proof.
  induction 1 as [| d s ds rs Hd _ IH]; cbn [lsb_value].
  - unfold product. simpl. lia.
  - change (product (s :: rs)) with (s * product rs). nia.
Qed.

Lemma digits_lsb_value (ds rs : list Z) :
  Forall2 (fun c s => 0 <= c < s) ds rs ->
  digits (lsb_value ds rs) rs = ds.
Proof.
  induction 1 as [| d s ds rs Hd Hrest IH]; cbn [lsb_value digits];
    [reflexivity |].
  f_equal.
  - rewrite Z.mul_comm, Z.mod_add by lia. now apply Z.mod_small.
  - rewrite Z.mul_comm, Z.div_add by lia.
    rewrite (Z.div_small d s) by lia. exact IH.
Qed.

Lemma encode_from_lsb_value (ds rs : list Z) :
  List.length ds = List.length rs ->
  encode_from 0 (rev ds) (rev rs) = lsb_value ds rs.
Proof.
  revert rs. induction ds as [| d ds IH]; intros [| s rs] Hlen;
    simpl in Hlen; try discriminate; [reflexivity |].
  cbn [rev lsb_value].
  rewrite encode_from_snoc by (rewrite !length_rev; lia).
  rewrite IH by lia. ring.
Qed.

Lemma in_range_positive (coords sizes : list Z) :
  in_range coords sizes -> Forall (fun s => 0 < s) sizes.
Proof. induction 1; constructor; [lia | assumption]. Qed.

End DecoderEdges.

(** X1. The decoder raises exactly when a size is zero, and then it is
    [ZeroDivisionError]; otherwise it returns one position per size,
    whatever the index. *)
Theorem decode_fails_only_on_zero_size (idx : Z) (sizes : list Z) :
  match _linear_index_to_coords idx sizes with
  | OK coords => ~ In 0 sizes /\ List.length coords = List.length sizes
  | Err e => e = ZeroDivisionError /\ In 0 sizes
  end.
Proof.
  unfold _linear_index_to_coords.
  pose proof (decode_loop_outcome (rev sizes) idx []) as H.
  destruct (decode_loop idx (rev sizes) []) as [coords | e]; cbn [Py.bind].
  - destruct H as [Hnin Hlen]. rewrite length_rev in *. split.
    + intros Hin. apply Hnin. now apply -> in_rev.
    + simpl in Hlen. exact Hlen.
  - destruct H as [-> Hin]. split; [reflexivity | now apply in_rev].
Qed.

(** X2. Every in-range position vector is the decoding of its own
    re-encoding, and that index lies in [0, product sizes): with the round
    trip of the other direction, decoding is a bijection between the
    in-range indices and the in-range position vectors. *)
Theorem encode_decode_inverse (coords sizes : list Z) :
  in_range coords sizes ->
  0 <= coords_to_linear_index coords sizes < product sizes /\
  _linear_index_to_coords (coords_to_linear_index coords sizes) sizes
  = OK coords.
Proof.
  intros Hr.
  pose proof (in_range_positive _ _ Hr) as Hpos.
  pose proof (Forall2_rev _ _ _ Hr) as Hrev.
  assert (Henc : coords_to_linear_index coords sizes
                 = lsb_value (rev coords) (rev sizes)).
  { unfold coords_to_linear_index.
    rewrite <- (rev_involutive coords) at 1.
    rewrite <- (rev_involutive sizes) at 1.
    apply encode_from_lsb_value. rewrite !length_rev.
    now apply Forall2_length in Hr. }
  rewrite Henc. split.
  - rewrite <- (product_rev sizes). now apply lsb_value_range.
  - rewrite decode_as_digits by assumption.
    rewrite digits_lsb_value by assumption. now rewrite rev_involutive.
Qed.

Lemma encode_decode_inverse_witness :
  0 <= coords_to_linear_index [0; 1; 1] [1; 2; 2] < product [1; 2; 2] /\
  _linear_index_to_coords (coords_to_linear_index [0; 1; 1] [1; 2; 2])
    [1; 2; 2]
  = OK [0; 1; 1].
Proof.
  apply encode_decode_inverse.
  unfold in_range. repeat (constructor; [lia |]). constructor.
Defined.

(* ------------------------------------------------------------------ *)
(** ** Dimension catalog: errors, keys and the inverse index *)
(* ------------------------------------------------------------------ *)

Section DictLookup.
Context {K V : Type} (eqb : K -> K -> bool).
Hypothesis eqb_eq : forall a b, eqb a b = true <-> a = b.

Lemma get_In (d : dict K V) k v : get eqb d k = Some v -> In (k, v) d.
Proof.
  induction d as [| [k' v'] d IH]; simpl; [discriminate |].
  destruct (eqb k' k) eqn:E.
  - apply eqb_eq in E. intros [= ->]. left. now subst.
  - intros H. right. now apply IH.
Qed.

Lemma In_get_NoDup (d : dict K V) k v :
  NoDup (keys d) -> In (k, v) d -> get eqb d k = Some v.
Proof.
  unfold keys. induction d as [| [k' v'] d IH]; simpl; intros Hnd Hin;
    [contradiction |].
  inversion Hnd as [| ? ? Hnin Hnd']; subst.
  destruct Hin as [[= -> ->] | Hin].
  - now rewrite (eqb_refl' eqb eqb_eq).
  - destruct (eqb k' k) eqn:E; [| now apply IH].
    apply eqb_eq in E. subst k'. exfalso. apply Hnin.
    apply in_map_iff. now exists (k, v).
Qed.

Lemma keys_set_In (d : dict K V) k v x :
  In x (keys (set eqb d k v)) <-> In x (keys d) \/ x = k.
Proof.
  unfold keys. induction d as [| [k' v'] d IH]; simpl.
  - split; [intros [<- | []]; now right | intros [[] | ->]; now left].
  - destruct (eqb k' k) eqn:E; simpl.
    + apply eqb_eq in E. subst k'. split; [tauto |].
      intros [[<- | H] | ->]; tauto.
    + rewrite IH. tauto.
Qed.

Lemma fold_set_sound (kvs : list (K * V)) :
  forall acc k v,
    get eqb (fold_left (fun d kv => set eqb d (fst kv) (snd kv)) kvs acc) k
    = Some v ->
    In (k, v) kvs \/ get eqb acc k = Some v.
Proof.
  induction kvs as [| [k0 v0] kvs IH]; intros acc k v H; simpl in *.
  - now right.
  - apply IH in H. destruct H as [H | H]; [left; now right |].
    destruct (eqb k0 k) eqn:E.
    + apply eqb_eq in E. subst k0.
      rewrite (get_set_same eqb eqb_eq) in H. injection H as <-.
      left. now left.
    + rewrite (get_set_other eqb eqb_eq) in H; [now right |].
      intros ->. now rewrite (eqb_refl' eqb eqb_eq) in E.
Qed.

(** What a comprehension stores under a key was one of its pairs. *)
Lemma of_items_sound (kvs : list (K * V)) k v :
  get eqb (of_items eqb kvs) k = Some v -> In (k, v) kvs.
Proof.
  intros H. apply fold_set_sound in H. destruct H as [H | H];
    [assumption | discriminate].
Qed.
End DictLookup.

Section CatalogEdges.

Lemma build_dim_error (dimension : dict string Dimension) d e :
  build_dim dimension d = Err e ->
  e = KeyError /\
  (get String.eqb dimension d = None \/
   exists dim, get String.eqb dimension d = Some dim /\
               dim_category dim = None).
Proof.
  unfold build_dim, getitem, field.
  destruct (get String.eqb dimension d) as [dim |] eqn:Hdim; cbn [Py.bind].
  - destruct (dim_category dim) as [cat |] eqn:Hcat; cbn [Py.bind];
      [discriminate |].
    intros [= <-]. split; [reflexivity |]. right. now exists dim.
  - intros [= <-]. split; [reflexivity | now left].
Qed.

Lemma build_loop_outcome (dimension : dict string Dimension)
  (ids : list string) :
  forall acc,
    match build_loop dimension ids acc with
    | OK dm =>
        (NoDup (keys acc) -> NoDup (keys dm)) /\
        (forall d, In d (keys dm) <-> In d (keys acc) \/ In d ids)
    | Err e =>
        e = KeyError /\
        exists d, In d ids /\
          (get String.eqb dimension d = None \/
           exists dim, get String.eqb dimension d = Some dim /\
                       dim_category dim = None)
    end.
Proof.
  induction ids as [| x ids IH]; intros acc; cbn [build_loop].
  - split; [trivial | intros d; simpl; tauto].
  - destruct (build_dim dimension x) as [m | e] eqn:Hx; cbn [Py.bind].
    + specialize (IH (set String.eqb acc x m)).
      destruct (build_loop dimension ids _) as [dm | e].
      * destruct IH as [Hnd Hkeys]. split.
        -- intros Hacc. apply Hnd. now apply keys_set_NoDup.
        -- intros d. rewrite Hkeys, (keys_set_In String.eqb str_eqb_eq).
           simpl. intuition.
      * destruct IH as [-> (d & Hd & Hwhy)]. split; [reflexivity |].
        exists d. split; [now right | assumption].
    + apply build_dim_error in Hx. destruct Hx as [-> Hwhy].
      split; [reflexivity |]. exists x. split; [now left | assumption].
Qed.

End CatalogEdges.


(** X4. In a catalog entry the inverse index is the index read backwards:
    a position it knows maps to a code that the index maps to that position;
    and when no two codes share a position, every code of the index is found
    again under its position. *)
Theorem inv_index_round_trip (cube : Cube) dim_ids size dim_meta d m :
  _build_dim_meta cube = OK (dim_ids, size, dim_meta) ->
  get String.eqb dim_meta d = Some m ->
  NoDup (keys (dm_index m)) ->
  (forall p c,
      get Z.eqb (dm_inv_index m) p = Some c ->
      get String.eqb (dm_index m) c = Some p) /\
  (NoDup (values (dm_index m)) ->
   forall c p,
     get String.eqb (dm_index m) c = Some p ->
     get Z.eqb (dm_inv_index m) p = Some c).
Proof.
  unfold _build_dim_meta, field. intros Hbuild Hget Hnd.
  destruct (cube_id cube) as [ids |]; cbn [Py.bind] in Hbuild;
    [| discriminate].
  destruct (cube_size cube) as [sz |]; cbn [Py.bind] in Hbuild;
    [| discriminate].
  destruct (cube_dimension cube) as [dimension |]; cbn [Py.bind] in Hbuild;
    [| discriminate].
  destruct (build_loop dimension ids []) as [dm | e] eqn:Hloop;
    cbn [Py.bind] in Hbuild; [| discriminate].
  injection Hbuild as -> -> ->.
  destruct (build_loop_get _ _ _ _ Hloop d) as [Hin Hnin].
  assert (Hd : In d dim_ids).
  { destruct (in_dec string_dec d dim_ids) as [Hd | Hd]; [assumption |].
    rewrite (Hnin Hd) in Hget. discriminate. }
  destruct (Hin Hd) as (m' & Hm' & Hget'). rewrite Hget in Hget'.
  injection Hget' as <-.
  destruct (build_dim_inv _ _ _ Hm') as (_ & _ & _ & _ & _ & _ & Hinv & _).
  rewrite Hinv. split.
  - intros p c Hp. apply (of_items_sound Z.eqb Z.eqb_eq) in Hp.
    apply in_map_iff in Hp. destruct Hp as ([c' p'] & [= <- <-] & Hcp).
    now apply (In_get_NoDup String.eqb str_eqb_eq).
  - intros Hvals c p Hc. apply (get_In String.eqb str_eqb_eq) in Hc.
    assert (Hkeys : keys (map swap (dm_index m)) = values (dm_index m)).
    { unfold keys, values. rewrite map_map. reflexivity. }
    rewrite (of_items_NoDup Z.eqb Z.eqb_eq) by now rewrite Hkeys.
    apply (In_get_NoDup Z.eqb Z.eqb_eq); [now rewrite Hkeys |].
    apply in_map_iff. now exists (c, p).
Qed.

Lemma inv_index_round_trip_witness :
  let m := {| dm_index := [("BE", 0); ("DE", 1)];
              dm_inv_index := [(0, "BE"); (1, "DE")];
              dm_labels := [("BE", "Belgium"); ("DE", "Germany")];
              dm_size := 2 |} in
  (forall p c,
      get Z.eqb (dm_inv_index m) p = Some c ->
      get String.eqb (dm_index m) c = Some p) /\
  (NoDup (values (dm_index m)) ->
   forall c p,
     get String.eqb (dm_index m) c = Some p ->
     get Z.eqb (dm_inv_index m) p = Some c).
Proof.
  apply (inv_index_round_trip scenario_cube ["unit"; "geo"; "time"] [1; 2; 2]
           (dim_meta_of scenario_cube) "geo").
  - reflexivity.
  - reflexivity.
  - simpl. repeat constructor; simpl; intuition discriminate.
Defined.

(* ------------------------------------------------------------------ *)
(** ** Cell materializer: one record per cell, labelled by the catalog *)
(* ------------------------------------------------------------------ *)

Section MaterializerEdges.

Lemma build_dim_meta_errors (cube : Cube) :
  forall e, _build_dim_meta cube = Err e -> e = KeyError.
Proof.
  unfold _build_dim_meta, field. intros e H.
  destruct (cube_id cube) as [ids |]; cbn [Py.bind] in H; [| congruence].
  destruct (cube_size cube) as [sz |]; cbn [Py.bind] in H; [| congruence].
  destruct (cube_dimension cube) as [dimension |]; cbn [Py.bind] in H;
    [| congruence].
  pose proof (build_loop_outcome dimension ids []) as Hloop.
  destruct (build_loop dimension ids []) as [dm | e'];
    cbn [Py.bind] in H; [discriminate |].
  injection H as <-. tauto.
Qed.

Lemma materialize_loop_values dim_ids size dim_meta
  (items : list (string * option Q)) :
  forall acc all_records,
    materialize_loop dim_ids size dim_meta items acc = OK all_records ->
    map value all_records = map value acc ++ map snd items.
Proof.
  induction items as [| [k v] items IH]; intros acc all_records H;
    cbn [materialize_loop] in H.
  - injection H as <-. simpl. now rewrite app_nil_r.
  - destruct (int_of_string k) as [lin_idx | e]; cbn [Py.bind] in H;
      [| discriminate].
    destruct (_linear_index_to_coords lin_idx size) as [coords | e];
      cbn [Py.bind] in H; [| discriminate].
    destruct (coord_loop dim_meta (combine dim_ids coords) [])
      as [coord_map | e]; cbn [Py.bind] in H; [| discriminate].
    rewrite (IH _ _ H), map_app, <- app_assoc. reflexivity.
Qed.

Lemma coord_loop_coords (dim_meta : dict string DimMeta)
  (pairs : list (string * Z)) :
  forall acc coord_map,
    coord_loop dim_meta pairs acc = OK coord_map ->
    (forall name co, get String.eqb acc name = Some co ->
                     coord_of dim_meta name co) ->
    forall name co, get String.eqb coord_map name = Some co ->
                    coord_of dim_meta name co.
Proof.
  induction pairs as [| [d p] pairs IH]; intros acc coord_map H Hacc;
    cbn [coord_loop] in H.
  - now injection H as <-.
  - unfold getitem in H.
    destruct (get String.eqb dim_meta d) as [m |] eqn:Hm; cbn [Py.bind] in H;
      [| discriminate].
    destruct (get Z.eqb (dm_inv_index m) p) as [c |] eqn:Hc;
      cbn [Py.bind] in H; [| discriminate].
    apply (IH _ _ H). intros name co Hget.
    destruct (String.eqb_spec d name) as [<- | Hne].
    + rewrite (get_set_same String.eqb str_eqb_eq) in Hget.
      injection Hget as <-. unfold coord_of, label_in. cbn [code label pos].
      rewrite Hm. split; [reflexivity |]. now exists m.
    + rewrite (get_set_other String.eqb str_eqb_eq) in Hget by assumption.
      now apply Hacc.
Qed.

Lemma make_record_of_catalog dim_meta v (coord_map : dict string Coord) :
  (forall name co, get String.eqb coord_map name = Some co ->
                   coord_of dim_meta name co) ->
  record_of_catalog dim_meta (make_record v coord_map).
Proof.
  intros Hcm. unfold record_of_catalog, make_record, coord_part.
  cbn [unit_label unit_code geo_label geo_code time_label time_code time_pos].
  pose proof (Hcm "unit") as Hu. pose proof (Hcm "geo") as Hg.
  pose proof (Hcm "time") as Ht.
  destruct (get String.eqb coord_map "unit") as [cu |];
    destruct (get String.eqb coord_map "geo") as [cg |];
    destruct (get String.eqb coord_map "time") as [ct |]; cbn [option_map];
    repeat split;
    try (f_equal; first [apply (Hu _ eq_refl) | apply (Hg _ eq_refl)
                        | apply (Ht _ eq_refl)]);
    destruct (Ht _ eq_refl) as [_ (m & Hm & Hinv)]; now exists m.
Qed.

Lemma materialize_loop_catalog dim_ids size dim_meta
  (items : list (string * option Q)) :
  forall acc all_records,
    materialize_loop dim_ids size dim_meta items acc = OK all_records ->
    Forall (record_of_catalog dim_meta) acc ->
    Forall (record_of_catalog dim_meta) all_records.
Proof.
  induction items as [| [k v] items IH]; intros acc all_records H Hacc;
    cbn [materialize_loop] in H.
  - now injection H as <-.
  - destruct (int_of_string k) as [lin_idx | e]; cbn [Py.bind] in H;
      [| discriminate].
    destruct (_linear_index_to_coords lin_idx size) as [coords | e];
      cbn [Py.bind] in H; [| discriminate].
    destruct (coord_loop dim_meta (combine dim_ids coords) [])
      as [coord_map | e] eqn:Hcoord; cbn [Py.bind] in H; [| discriminate].
    apply (IH _ _ H). apply Forall_app. split; [assumption |].
    constructor; [| constructor]. apply make_record_of_catalog.
    apply (coord_loop_coords _ _ _ _ Hcoord). intros name co Hget.
    discriminate.
Qed.

Lemma int_of_string_error (k : string) e :
  int_of_string k = Err e -> exists msg, e = ValueError msg.
Proof.
  unfold int_of_string.
  destruct (strip (list_ascii_of_string k)) as [| c l];
    [intros [= <-]; eauto |].
  destruct (N_of_ascii c =? 45)%N;
    [| destruct (N_of_ascii c =? 43)%N];
    destruct (digits_value 0 false _); try discriminate;
    intros [= <-]; eauto.
Qed.

Lemma decode_error (idx : Z) (sizes : list Z) e :
  _linear_index_to_coords idx sizes = Err e -> e = ZeroDivisionError.
Proof.
  unfold _linear_index_to_coords.
  pose proof (decode_loop_outcome (rev sizes) idx []) as H.
  destruct (decode_loop idx (rev sizes) []) as [coords | e']; cbn [Py.bind];
    [discriminate |].
  intros [= <-]. tauto.
Qed.

Lemma coord_loop_error (dim_meta : dict string DimMeta)
  (pairs : list (string * Z)) :
  forall acc e, coord_loop dim_meta pairs acc = Err e -> e = KeyError.
Proof.
  induction pairs as [| [d p] pairs IH]; intros acc e H;
    cbn [coord_loop] in H; [discriminate |].
  unfold getitem in H.
  destruct (get String.eqb dim_meta d) as [m |]; cbn [Py.bind] in H;
    [| congruence].
  destruct (get Z.eqb (dm_inv_index m) p) as [c |]; cbn [Py.bind] in H;
    [| congruence].
  now apply IH in H.
Qed.

Lemma materialize_loop_error dim_ids size dim_meta
  (items : list (string * option Q)) :
  forall acc e,
    materialize_loop dim_ids size dim_meta items acc = Err e ->
    e = KeyError \/ e = ZeroDivisionError \/ exists msg, e = ValueError msg.
Proof.
  induction items as [| [k v] items IH]; intros acc e H;
    cbn [materialize_loop] in H; [discriminate |].
  destruct (int_of_string k) as [lin_idx | e1] eqn:Hint; cbn [Py.bind] in H.
  - destruct (_linear_index_to_coords lin_idx size) as [coords | e2] eqn:Hdec;
      cbn [Py.bind] in H.
    + destruct (coord_loop dim_meta (combine dim_ids coords) [])
        as [coord_map | e3] eqn:Hcoord; cbn [Py.bind] in H.
      * now apply IH in H.
      * injection H as <-. left. now apply coord_loop_error in Hcoord.
    + injection H as <-. right. left. now apply decode_error in Hdec.
  - injection H as <-. right. right. now apply int_of_string_error in Hint.
Qed.

End MaterializerEdges.

(** X5. The materializer makes one record per entry of the value mapping,
    in the order of the mapping, each carrying the entry's value. *)
Theorem materialize_one_record_per_cell dim_ids size dim_meta
  (items : list (string * option Q)) (all_records : list FlatRecord) :
  materialize_loop dim_ids size dim_meta items [] = OK all_records ->
  map value all_records = map snd items.
Proof. intros H. now apply materialize_loop_values in H. Qed.

Lemma materialize_one_record_per_cell_witness :
  map value (unit_filtered_records scenario_cube)
  = map snd [("0", Some 80%Q); ("1", Some 60%Q); ("2", Some 82%Q);
             ("3", Some 65%Q)].
Proof.
  apply (materialize_one_record_per_cell ["unit"; "geo"; "time"] [1; 2; 2]
           (dim_meta_of scenario_cube)).
  reflexivity.
Defined.

(** X6. Every materialized record is labelled by the catalog: along unit,
    geography and time its label is [labels.get(code, code)] of that
    dimension, and its time code is what the inverse index of the time
    dimension holds at its time position.  So two records with the same code
    have the same label. *)
Theorem materialized_records_follow_catalog dim_ids size dim_meta
  (items : list (string * option Q)) (all_records : list FlatRecord) :
  materialize_loop dim_ids size dim_meta items [] = OK all_records ->
  Forall (record_of_catalog dim_meta) all_records.
Proof.
  intros H. apply (materialize_loop_catalog _ _ _ _ _ _ H). constructor.
Qed.

Lemma materialized_records_follow_catalog_witness :
  Forall (record_of_catalog (dim_meta_of scenario_cube))
    (unit_filtered_records scenario_cube).
Proof.
  apply (materialized_records_follow_catalog ["unit"; "geo"; "time"]
           [1; 2; 2] (dim_meta_of scenario_cube)
           [("0", Some 80%Q); ("1", Some 60%Q); ("2", Some 82%Q);
            ("3", Some 65%Q)]).
  reflexivity.
Defined.

(** X7. Whatever the cube, the parse raises nothing but [KeyError],
    [ZeroDivisionError] and [ValueError]: neither of its two sorts can meet
    keys it cannot compare. *)
Theorem parse_error_kinds (cube : Cube) (e : exn) :
  parse_latest_and_timeseries cube = Err e ->
  e = KeyError \/ e = ZeroDivisionError \/ exists msg, e = ValueError msg.
Proof.
  unfold parse_latest_and_timeseries. intros H.
  destruct (field_or_empty (cube_value cube)) as [| kv value_map] eqn:Hv.
  { injection H as <-. right. right. eauto. }
  pose proof (build_dim_meta_errors cube) as Hbuild.
  pose proof (unit_filtered_comparable cube) as Hcmp.
  unfold unit_filtered_records in Hcmp. rewrite Hv in Hcmp.
  destruct (_build_dim_meta cube) as [[[dim_ids size] dim_meta] | e0];
    cbn [Py.bind] in H.
  2: { injection H as <-. left. now apply Hbuild. }
  destruct (get String.eqb dim_meta "time") as [time_meta |].
  2: { injection H as <-. right. right. eauto. }
  unfold getitem in H.
  destruct (get Z.eqb (dm_inv_index time_meta) (dm_size time_meta - 1))
    as [latest_time_code |]; cbn [Py.bind] in H.
  2: { injection H as <-. now left. }
  destruct (materialize_loop dim_ids size dim_meta (kv :: value_map) [])
    as [all_records | e1] eqn:Hmat; cbn [Py.bind] in H.
  2: { injection H as <-. now apply materialize_loop_error in Hmat. }
  destruct (latest_records_of_spec
              (unit_filter (_choose_pct_unit all_records) all_records)
              (dm_size time_meta - 1)) as (kept & Hk & _).
  rewrite Hk in H. cbn [Py.bind] in H.
  unfold timeseries_of, py_sorted in H. rewrite Hcmp in H.
  cbn [Py.bind] in H. discriminate.
Qed.

Lemma parse_error_kinds_witness :
  ValueError no_time_msg = KeyError \/
  ValueError no_time_msg = ZeroDivisionError \/
  exists msg, ValueError no_time_msg = ValueError msg.
Proof.
  apply (parse_error_kinds timeless_cube). reflexivity.
Defined.

(* ------------------------------------------------------------------ *)
(** ** Unit disambiguator: what is chosen is there *)
(* ------------------------------------------------------------------ *)

Section DisambiguatorEdges.

Lemma chosen_unit_present (records : list FlatRecord) (u : string) :
  _choose_pct_unit records = Some u ->
  In u (truthy_codes unit_code records).
Proof.
  unfold _choose_pct_unit. intros H.
  destruct (find _ preferred_units) as [c |] eqn:Hpref.
  - injection H as <-. apply find_some in Hpref. destruct Hpref as [_ Hmem].
    cbv beta in Hmem. apply str_mem_In in Hmem.
    now apply (proj1 (sorted_set_In _ _)) in Hmem.
  - rewrite unit_labels_loop_first_seen, first_pct_label_find in H.
    simpl in H. rewrite filter_true in H.
    rewrite <- keys_labelled, <- first_seen_In.
    destruct (find _ (first_seen (labelled records))) as [[c l] |] eqn:Hpct.
    + injection H as <-. apply find_some in Hpct. destruct Hpct as [Hc _].
      unfold keys. apply in_map_iff. now exists (c, l).
    + rewrite first_seen_In, keys_labelled, <- sorted_set_In.
      destruct (sorted_set _) as [| a [| b rest]]; try discriminate.
      injection H as <-. now left.
Qed.

Lemma only_one_NoDup (l : list string) (u : string) :
  NoDup l -> (forall x, In x l -> x = u) -> In u l -> l = [u].
Proof.
  intros Hnd Hall Hin. destruct l as [| a l]; [contradiction |].
  assert (a = u) by (apply Hall; now left). subst a.
  destruct l as [| b l]; [reflexivity |].
  assert (b = u) by (apply Hall; right; now left). subst b.
  inversion Hnd as [| ? ? Hnin _]; subst. exfalso. apply Hnin. now left.
Qed.

Lemma sorted_set_singleton (codes : list string) (u : string) :
  (forall c, In c codes -> c = u) -> In u codes -> sorted_set codes = [u].
Proof.
  intros Hall Hin. apply only_one_NoDup.
  - apply (Permutation_NoDup (Permutation_sym (sorted_set_perm codes))).
    apply NoDup_nodup.
  - intros x Hx. apply Hall. now apply sorted_set_In.
  - now apply sorted_set_In.
Qed.

Lemma unit_filter_Some (u : string) (records : list FlatRecord) :
  u <> "" ->
  unit_filter (Some u) records
  = filter (fun r => eqb_ostr (unit_code r) (Some u)) records.
Proof.
  intros Hne. unfold unit_filter. now rewrite (proj2 (truthy_Some u) Hne).
Qed.

End DisambiguatorEdges.

(** X8. A chosen unit is the code of some record, so filtering on it never
    empties the record list. *)
Theorem chosen_unit_keeps_a_record (records : list FlatRecord) (u : string) :
  _choose_pct_unit records = Some u ->
  exists r,
    In r records /\ unit_code r = Some u /\
    In r (unit_filter (_choose_pct_unit records) records).
Proof.
  intros Hc. pose proof (chosen_unit_present _ _ Hc) as Hin.
  apply truthy_codes_In in Hin. destruct Hin as (Hne & r & Hr & Hu).
  exists r. repeat split; try assumption.
  rewrite Hc, unit_filter_Some by assumption.
  apply filter_In. split; [assumption |]. now apply eqb_ostr_eq.
Qed.

Lemma chosen_unit_keeps_a_record_witness :
  exists r,
    In r (unit_filtered_records two_sector_cube) /\
    unit_code r = Some "PC_GDP" /\
    In r (unit_filter
            (_choose_pct_unit (unit_filtered_records two_sector_cube))
            (unit_filtered_records two_sector_cube)).
Proof.
  apply chosen_unit_keeps_a_record. reflexivity.
Defined.

(** X9. When the records carry exactly one unit code, the disambiguator
    chooses it, whatever the code and its label; when no record carries a
    unit code (no unit dimension), it chooses none. *)
Theorem single_unit_is_chosen (records : list FlatRecord) :
  (forall u,
      u <> "" ->
      (exists r, In r records /\ unit_code r = Some u) ->
      (forall r c, In r records -> unit_code r = Some c -> c = "" \/ c = u) ->
      _choose_pct_unit records = Some u) /\
  ((forall r, In r records -> truthy (unit_code r) = false) ->
   _choose_pct_unit records = None).
Proof.
  split.
  - intros u Hne (r0 & Hr0 & Hu0) Honly.
    assert (Hall : forall c, In c (truthy_codes unit_code records) -> c = u).
    { intros c Hc. apply truthy_codes_In in Hc.
      destruct Hc as (Hcne & r & Hr & Hc).
      destruct (Honly r c Hr Hc); [contradiction | assumption]. }
    assert (Hin : In u (truthy_codes unit_code records))
      by (apply truthy_codes_In; eauto).
    destruct (_choose_pct_unit records) as [c |] eqn:Hc.
    + f_equal. apply Hall. now apply chosen_unit_present.
    + unfold _choose_pct_unit in Hc.
      rewrite (sorted_set_singleton _ _ Hall Hin) in Hc.
      destruct (find _ preferred_units); [discriminate |].
      destruct (first_pct_label _); discriminate.
  - intros Hnone.
    destruct (_choose_pct_unit records) as [c |] eqn:Hc; [| reflexivity].
    apply chosen_unit_present, truthy_codes_In in Hc.
    destruct Hc as (Hne & r & Hr & Hc). specialize (Hnone r Hr).
    rewrite Hc in Hnone. apply truthy_Some in Hne. congruence.
Qed.

(* ------------------------------------------------------------------ *)
(** ** The parse, read on the cube *)
(* ------------------------------------------------------------------ *)

Section ParseOnCube.

Lemma unit_filtered_all (cube : Cube) :
  unit_filtered_records cube
  = unit_filter (_choose_pct_unit (all_records_of cube)) (all_records_of cube).
Proof.
  unfold unit_filtered_records, all_records_of.
  destruct (_build_dim_meta cube) as [[[dim_ids size] dim_meta] | e];
    [| reflexivity].
  destruct (materialize_loop _ _ _ _ _); reflexivity.
Qed.

(** A successful parse in terms of the cube's record lists. *)
Lemma parse_inv_cube (cube : Cube) latest series meta :
  parse_latest_and_timeseries cube = OK (latest, series, meta) ->
  exists kept,
    latest_records_of (unit_filtered_records cube) (latest_time_pos_of cube)
    = OK kept /\
    latest = map latest_out kept /\
    timeseries_of (unit_filtered_records cube) = OK series /\
    meta_chosen_unit meta = _choose_pct_unit (all_records_of cube) /\
    meta_units_present meta
    = sorted_set (truthy_codes unit_code (unit_filtered_records cube)).
Proof.
  unfold parse_latest_and_timeseries, unit_filtered_records, all_records_of,
    latest_time_pos_of, dim_meta_of.
  intros H.
  destruct (field_or_empty (cube_value cube)) as [| kv value_map] eqn:Hv;
    [discriminate |].
  destruct (_build_dim_meta cube) as [[[dim_ids size] dim_meta] | e];
    cbn [Py.bind] in H; [| discriminate].
  destruct (get String.eqb dim_meta "time") as [time_meta |] eqn:Htime;
    [| discriminate].
  destruct (getitem Z.eqb (dm_inv_index time_meta) (dm_size time_meta - 1))
    as [latest_time_code | e]; cbn [Py.bind] in H; [| discriminate].
  destruct (materialize_loop dim_ids size dim_meta (kv :: value_map) [])
    as [all_records | e] eqn:Hmat; cbn [Py.bind] in H; [| discriminate].
  destruct (latest_records_of _ _) as [latest_records | e] eqn:Hl;
    cbn [Py.bind] in H; [| discriminate].
  destruct (timeseries_of _) as [series_by_geo | e] eqn:Ht;
    cbn [Py.bind] in H; [| discriminate].
  injection H as <- <- <-.
  exists latest_records. repeat split; auto.
Qed.

End ParseOnCube.

(** X10. The unit codes a parse reports in its metadata are read off the
    record list after the unit filter: when a unit was chosen, the list is
    that one code. *)
Theorem meta_units_after_filter (cube : Cube) latest series meta (u : string) :
  parse_latest_and_timeseries cube = OK (latest, series, meta) ->
  meta_chosen_unit meta = Some u ->
  meta_units_present meta = [u].
Proof.
  intros Hparse Hu.
  destruct (parse_inv_cube _ _ _ _ Hparse)
    as (kept & _ & _ & _ & Hchosen & Hunits).
  rewrite Hunits, unit_filtered_all. rewrite Hu in Hchosen.
  symmetry in Hchosen.
  pose proof (chosen_unit_present _ _ Hchosen) as Hin.
  apply truthy_codes_In in Hin. destruct Hin as (Hne & r & Hr & Hcode).
  rewrite Hchosen, unit_filter_Some by assumption.
  apply sorted_set_singleton.
  - intros c Hc. apply truthy_codes_In in Hc.
    destruct Hc as (_ & r' & Hr' & Hc). apply filter_In in Hr'.
    destruct Hr' as [_ Heq]. apply eqb_ostr_eq in Heq. congruence.
  - apply truthy_codes_In. split; [assumption |]. exists r.
    split; [| assumption]. apply filter_In. split; [assumption |].
    now apply eqb_ostr_eq.
Qed.

Lemma meta_units_after_filter_witness :
  meta_units_present
    {| meta_dim_ids := ["unit"; "geo"; "time"];
       meta_units_present := ["PC_GDP"];
       meta_chosen_unit := Some "PC_GDP";
       meta_latest_time_code := "2024";
       meta_latest_time_label := "2024" |}
  = ["PC_GDP"].
Proof.
  apply (meta_units_after_filter two_unit_cube
           (match parse_latest_and_timeseries two_unit_cube with
            | OK (latest, _, _) => latest
            | Err _ => []
            end)
           (match parse_latest_and_timeseries two_unit_cube with
            | OK (_, series, _) => series
            | Err _ => []
            end)).
  - vm_compute. reflexivity.
  - reflexivity.
Defined.

(** The cube has two unit codes; the metadata reports the chosen one only. *)
Example two_unit_cube_meta :
  sorted_set (truthy_codes unit_code (all_records_of two_unit_cube))
  = ["MIO_EUR"; "PC_GDP"] /\
  option_map meta_units_present
    (match parse_latest_and_timeseries two_unit_cube with
     | OK (_, _, meta) => Some meta
     | Err _ => None
     end)
  = Some ["PC_GDP"].
Proof. split; reflexivity. Qed.

(* ------------------------------------------------------------------ *)
(** ** Both sorts are stable *)
(* ------------------------------------------------------------------ *)

Section StableSort.
Context {A Key : Type} (key : A -> Key) (lt : Key -> Key -> result bool).

(** A class of elements none of which is smaller than another. *)
Variable same : A -> bool.
Hypothesis same_not_lt :
  forall x y, same x = true -> same y = true -> ltb key lt x y = false.

Lemma filter_insert_desc (x : A) (l : list A) :
  filter same (insert_desc key lt x l) = filter same (x :: l).
Proof.
  induction l as [| y l IH]; [reflexivity |].
  cbn [insert_desc]. destruct (ltb key lt x y) eqn:Hxy; [| reflexivity].
  cbn [filter] in *. rewrite IH.
  destruct (same x) eqn:Hx, (same y) eqn:Hy; try reflexivity.
  rewrite (same_not_lt x y Hx Hy) in Hxy. discriminate.
Qed.

Lemma filter_insert_asc (x : A) (l : list A) :
  filter same (insert_asc key lt x l) = filter same (x :: l).
Proof.
  induction l as [| y l IH]; [reflexivity |].
  cbn [insert_asc]. destruct (ltb key lt y x) eqn:Hyx; [| reflexivity].
  cbn [filter] in *. rewrite IH.
  destruct (same x) eqn:Hx, (same y) eqn:Hy; try reflexivity.
  rewrite (same_not_lt y x Hy Hx) in Hyx. discriminate.
Qed.

(** Sorting leaves the elements of the class in their input order. *)
Lemma filter_sorted (reverse : bool) (l : list A) :
  filter same
    (fold_right (if reverse then insert_desc key lt else insert_asc key lt)
       [] l)
  = filter same l.
Proof.
  induction l as [| x l IH]; [reflexivity |].
  cbn [fold_right]. destruct reverse.
  - rewrite filter_insert_desc. cbn [filter]. now rewrite IH.
  - rewrite filter_insert_asc. cbn [filter]. now rewrite IH.
Qed.
End StableSort.

Section StableProjections.

Lemma value_is_not_lt (v : option Q) (x y : FlatRecord) :
  value_is v x = true -> value_is v y = true -> latest_ltb x y = false.
Proof.
  rewrite latest_ltb_eq. unfold value_is.
  destruct v as [q |], (value x) as [a |], (value y) as [b |]; try easy.
  intros Ha Hb. apply Qeq_bool_eq in Ha, Hb.
  apply negb_false_iff, Qle_bool_iff. rewrite <- Ha, <- Hb. apply Qle_refl.
Qed.

Lemma key_is_not_lt (g : string) (t : option Z) (x y : FlatRecord) :
  key_is g t x = true -> key_is g t y = true -> geo_time_ltb x y = false.
Proof.
  unfold key_is, geo_is. rewrite !andb_true_iff, !eqb_ostr_eq, !eqb_oZ_eq.
  intros [Hgx Htx] [Hgy Hty].
  unfold geo_time_ltb, ltb, geo_time_key, geo_time_key_lt. cbn [fst snd].
  rewrite Hgx, Hgy, Htx, Hty.
  rewrite (proj2 (eqb_ostr_eq _ _) eq_refl), (proj2 (eqb_oZ_eq _ _) eq_refl).
  reflexivity.
Qed.

(** The series of a successful timeseries projection, read on the sorted
    record list. *)
Lemma timeseries_of_series (records : list FlatRecord) :
  all_comparable geo_time_key geo_time_key_lt records = true ->
  exists sorted_records,
    py_sorted geo_time_key geo_time_key_lt false records = OK sorted_records /\
    Permutation sorted_records records /\
    timeseries_of records
    = OK (fold_left series_step (filter has_geo sorted_records) []) /\
    forall s,
      In s (timeseries_records
              (fold_left series_step (filter has_geo sorted_records) [])) ->
      gs_series s
      = map series_entry (filter (geo_is (gs_country_code s)) sorted_records).
Proof.
  intros Hcmp.
  destruct (geo_time_sorted_spec records Hcmp)
    as (sorted_records & Hsort & Hperm & Hsorted).
  exists sorted_records. split; [exact Hsort |]. split; [exact Hperm |].
  unfold timeseries_of. rewrite Hsort. cbn [Py.bind].
  rewrite series_loop_fold. split; [reflexivity |].
  unfold timeseries_records.
  set (l := filter has_geo sorted_records).
  set (out := fold_left series_step l []).
  assert (Hinv : Forall (fun kv => gs_country_code (snd kv) = fst kv) out)
    by (apply fold_codes_Forall; constructor).
  assert (Hkeys : StronglySorted (fun g h => String.ltb g h = true) (keys out)).
  { apply keys_fold_sorted.
    - constructor.
    - apply StronglySorted_map_In
        with (R := fun a b =>
                     lex_ltb (geo_time_key b) (geo_time_key a) = false).
      + intros a b Ha Hb. apply filter_In in Ha, Hb.
        apply lex_geo_asc; tauto.
      + now apply StronglySorted_filter.
    - intros k g []. }
  intros s Hs. apply In_values_get in Hs. destruct Hs as (k & Hk & Hks).
  assert (Hcode : gs_country_code s = k).
  { rewrite Forall_forall in Hinv. exact (Hinv _ Hks). }
  assert (Hne : k <> "").
  { unfold out in Hk. apply keys_fold_In in Hk. destruct Hk as [[] | Hk].
    unfold l in Hk. apply geo_codes_of_records in Hk. tauto. }
  assert (Hget : get String.eqb out k = Some s)
    by (apply In_get; [now apply strictly_sorted_NoDup | assumption]).
  pose proof (series_of_fold l k []) as Hfold. fold out in Hfold.
  unfold series_of in Hfold at 1. rewrite Hget in Hfold.
  rewrite Hcode, Hfold. unfold l. now rewrite geo_filter_filter.
Qed.

Lemma entries_total_cons (k : string) (v : GeoSeries)
  (d : dict string GeoSeries) :
  entries_total ((k, v) :: d)
  = (List.length (gs_series v) + entries_total d)%nat.
Proof. reflexivity. Qed.

Lemma entries_total_modify (d : dict string GeoSeries) k e :
  contains String.eqb d k = true ->
  entries_total (modify String.eqb d k (push_entry e)) = S (entries_total d).
Proof.
  unfold contains.
  induction d as [| [k' v'] d IH]; cbn [get modify]; [discriminate |].
  destruct (String.eqb k' k); rewrite !entries_total_cons.
  - intros _. unfold push_entry. cbn [gs_series]. rewrite length_app.
    simpl. lia.
  - intros H. rewrite (IH H). lia.
Qed.

Lemma entries_total_step (d : dict string GeoSeries) (r : FlatRecord) :
  entries_total (series_step d r) = S (entries_total d).
Proof.
  unfold series_step.
  destruct (contains String.eqb d (geo_of r)) eqn:Hc; cbn [negb].
  - now apply entries_total_modify.
  - rewrite entries_total_modify.
    + rewrite (set_fresh String.eqb str_eqb_eq)
        by now apply contains_false_notin.
      unfold entries_total. rewrite map_app, list_sum_app. simpl. lia.
    + rewrite contains_set, String.eqb_refl. apply orb_true_r.
Qed.

Lemma entries_total_fold (l : list FlatRecord) :
  forall d,
    entries_total (fold_left series_step l d)
    = (entries_total d + List.length l)%nat.
Proof.
  induction l as [| r l IH]; intros d; cbn [fold_left]; [simpl; lia |].
  rewrite IH, entries_total_step. simpl. lia.
Qed.

Lemma record_count_timeseries_total (d : dict string GeoSeries) :
  record_count_timeseries d = Z.of_nat (entries_total d).
Proof.
  unfold record_count_timeseries, timeseries_records, values, entries_total.
  assert (H : forall (l : dict string GeoSeries) (a : Z),
             fold_left (fun acc x => acc + Z.of_nat (List.length (gs_series x)))
               (map snd l) a
             = a + Z.of_nat
                     (list_sum
                        (map (fun kv => List.length (gs_series (snd kv))) l))).
  { induction l as [| kv l IH]; intros a; [simpl; lia |].
    cbn [map fold_left]. rewrite IH.
    change (list_sum (?x :: ?r)) with (x + list_sum r)%nat. lia. }
  rewrite H. lia.
Qed.

End StableProjections.

(** X11. The cross-section sort is stable: records with equal values (and
    the records without a value) stay in the order of the record list. *)
Theorem latest_ties_keep_order (records : list FlatRecord) (p : Z) :
  exists kept,
    latest_records_of records p = OK kept /\
    forall v,
      filter (value_is v) kept
      = filter (value_is v) (filter (at_time_pos p) records).
Proof.
  unfold latest_records_of, py_sorted. rewrite latest_comparable.
  eexists. split; [reflexivity |]. intros v.
  apply (filter_sorted latest_key latest_key_lt (value_is v)
           (value_is_not_lt v) true).
Qed.

(** X12. Within a series, the entries of records that share a time position
    stand in the order of the record list (for a cube: the order of its
    value mapping). *)
Theorem series_ties_keep_order (records : list FlatRecord) :
  all_comparable geo_time_key geo_time_key_lt records = true ->
  exists series_by_geo,
    timeseries_of records = OK series_by_geo /\
    forall s,
      In s (timeseries_records series_by_geo) ->
      exists rs,
        gs_series s = map series_entry rs /\
        forall t,
          filter (fun r => eqb_oZ (time_pos r) t) rs
          = filter (fun r => eqb_oZ (time_pos r) t)
              (filter (geo_is (gs_country_code s)) records).
Proof.
  intros Hcmp.
  destruct (timeseries_of_series records Hcmp)
    as (sorted_records & Hsort & _ & Hts & Hseries).
  eexists. split; [exact Hts |]. intros s Hs.
  exists (filter (geo_is (gs_country_code s)) sorted_records).
  split; [now apply Hseries |]. intros t.
  rewrite !filter_filter. fold (key_is (gs_country_code s) t).
  unfold py_sorted in Hsort. rewrite Hcmp in Hsort. injection Hsort as <-.
  apply (filter_sorted geo_time_key geo_time_key_lt
           (key_is (gs_country_code s) t)
           (key_is_not_lt (gs_country_code s) t) false).
Qed.

Lemma series_ties_keep_order_witness :
  exists series_by_geo,
    timeseries_of (unit_filtered_records two_sector_cube) = OK series_by_geo /\
    forall s,
      In s (timeseries_records series_by_geo) ->
      exists rs,
        gs_series s = map series_entry rs /\
        forall t,
          filter (fun r => eqb_oZ (time_pos r) t) rs
          = filter (fun r => eqb_oZ (time_pos r) t)
              (filter (geo_is (gs_country_code s))
                 (unit_filtered_records two_sector_cube)).
Proof.
  apply series_ties_keep_order. vm_compute. reflexivity.
Defined.

(** X13. The two record counts of a manifest entry: the cross-section has as
    many records as the unit-filtered list has at the last declared time
    position, and the series hold, all together, one entry per unit-filtered
    record that has a geography code. *)
Theorem manifest_record_counts (cube : Cube) latest series meta :
  parse_latest_and_timeseries cube = OK (latest, series, meta) ->
  record_count_latest latest
  = Z.of_nat (List.length
                (filter (at_time_pos (latest_time_pos_of cube))
                   (unit_filtered_records cube))) /\
  record_count_timeseries series
  = Z.of_nat (List.length (filter has_geo (unit_filtered_records cube))).
Proof.
  intros Hparse.
  destruct (parse_inv_cube _ _ _ _ Hparse)
    as (kept & Hkept & Hlatest & Hseries & _ & _).
  split.
  - destruct (latest_records_of_spec (unit_filtered_records cube)
                (latest_time_pos_of cube)) as (kept' & Hk' & Hperm & _).
    rewrite Hkept in Hk'. injection Hk' as <-.
    unfold record_count_latest. rewrite Hlatest, length_map.
    f_equal. now apply Permutation_length.
  - destruct (timeseries_of_series _ (unit_filtered_comparable cube))
      as (sorted_records & _ & Hperm & Hts & _).
    rewrite Hseries in Hts. injection Hts as ->.
    rewrite record_count_timeseries_total, entries_total_fold. f_equal.
    simpl. apply Permutation_length. now apply Permutation_filter.
Qed.

Lemma manifest_record_counts_witness :
  record_count_latest
    (match parse_latest_and_timeseries scenario_cube with
     | OK (latest, _, _) => latest
     | Err _ => []
     end)
  = Z.of_nat (List.length
                (filter (at_time_pos (latest_time_pos_of scenario_cube))
                   (unit_filtered_records scenario_cube))) /\
  record_count_timeseries
    (match parse_latest_and_timeseries scenario_cube with
     | OK (_, series, _) => series
     | Err _ => []
     end)
  = Z.of_nat (List.length (filter has_geo (unit_filtered_records scenario_cube))).
Proof.
  apply (manifest_record_counts scenario_cube _ _
           {| meta_dim_ids := ["unit"; "geo"; "time"];
              meta_units_present := ["PC_GDP"];
              meta_chosen_unit := Some "PC_GDP";
              meta_latest_time_code := "2024-Q2";
              meta_latest_time_label := "2024-Q2" |}).
  vm_compute. reflexivity.
Defined.

(** X14. After a successful parse, [process_dataset] aborts the dataset with
    its [RuntimeError] exactly when no unit-filtered record sits at the last
    declared time position; otherwise it goes on with the parse's result. *)
Theorem empty_cross_section_aborts (cube : Cube) latest series meta
  (dataset_id : string) :
  parse_latest_and_timeseries cube = OK (latest, series, meta) ->
  match process_dataset_parse dataset_id cube with
  | OK out =>
      out = (latest, series, meta) /\
      exists r, In r (unit_filtered_records cube) /\
                time_pos r = Some (latest_time_pos_of cube)
  | Err e =>
      (exists msg, e = RuntimeError msg) /\
      forall r, In r (unit_filtered_records cube) ->
                time_pos r <> Some (latest_time_pos_of cube)
  end.
Proof.
  intros Hparse.
  destruct (parse_inv_cube _ _ _ _ Hparse)
    as (kept & Hkept & Hlatest & _ & _ & _).
  destruct (latest_records_of_spec (unit_filtered_records cube)
              (latest_time_pos_of cube)) as (kept' & Hk' & Hperm & _).
  rewrite Hkept in Hk'. injection Hk' as <-.
  unfold process_dataset_parse. rewrite Hparse.
  destruct latest as [| o latest'].
  - split; [eauto |]. intros r Hr Hpos.
    destruct kept as [| k kept']; [| discriminate].
    apply Permutation_nil in Hperm.
    assert (Hin : In r (filter (fun r => eqb_oZ (time_pos r)
                                        (Some (latest_time_pos_of cube)))
                          (unit_filtered_records cube))).
    { apply filter_In. split; [assumption |]. now apply eqb_oZ_eq. }
    rewrite Hperm in Hin. contradiction.
  - split; [reflexivity |].
    destruct kept as [| k kept']; [discriminate |].
    assert (Hin : In k (filter (fun r => eqb_oZ (time_pos r)
                                        (Some (latest_time_pos_of cube)))
                          (unit_filtered_records cube)))
      by (apply (Permutation_in _ Hperm); now left).
    apply filter_In in Hin. destruct Hin as [Hin Hpos].
    exists k. split; [assumption |]. now apply eqb_oZ_eq.
Qed.

Lemma empty_cross_section_aborts_witness :
  match process_dataset_parse "sparse" sparse_cube with
  | OK out =>
      out = ([],
             match parse_latest_and_timeseries sparse_cube with
             | OK (_, series, _) => series
             | Err _ => []
             end,
             {| meta_dim_ids := ["geo"; "time"];
                meta_units_present := [];
                meta_chosen_unit := None;
                meta_latest_time_code := "2023";
                meta_latest_time_label := "2023" |}) /\
      exists r, In r (unit_filtered_records sparse_cube) /\
                time_pos r = Some (latest_time_pos_of sparse_cube)
  | Err e =>
      (exists msg, e = RuntimeError msg) /\
      forall r, In r (unit_filtered_records sparse_cube) ->
                time_pos r <> Some (latest_time_pos_of sparse_cube)
  end.
Proof.
  apply empty_cross_section_aborts. vm_compute. reflexivity.
Defined.

(* ------------------------------------------------------------------ *)
(** ** The single-period script against the multi-dataset one *)
(* ------------------------------------------------------------------ *)

Section InlineChoice.

Lemma set_same {V : Type} (d : dict string V) k v :
  get String.eqb d k = Some v -> set String.eqb d k v = d.
Proof.
  induction d as [| [k' v'] d IH]; simpl; [discriminate |].
  destruct (String.eqb k' k); [now intros [= ->] |].
  intros H. now rewrite IH.
Qed.

Lemma functional_incl {V : Type} (l l' : list (string * V)) :
  incl l l' -> functional l' -> functional l.
Proof. intros Hincl Hf k v v' H1 H2. apply (Hf k); now apply Hincl. Qed.

(** On pairs that give every key one value, a comprehension keeps the keys
    in first-seen order, each with that value. *)
Lemma fold_set_first_seen {V : Type} (kvs : list (string * V)) :
  forall acc,
    functional (acc ++ kvs) ->
    fold_left (fun d kv => set String.eqb d (fst kv) (snd kv)) kvs acc
    = acc ++ filter (fun kv => negb (contains String.eqb acc (fst kv)))
               (first_seen kvs).
Proof.
  induction kvs as [| [k v] kvs IH]; intros acc Hf; cbn [fold_left].
  - simpl. now rewrite app_nil_r.
  - cbn [fst snd first_seen filter].
    destruct (contains String.eqb acc k) eqn:Hc; cbn [negb].
    + assert (Hget : get String.eqb acc k = Some v).
      { unfold contains in Hc.
        destruct (get String.eqb acc k) as [v0 |] eqn:Hg; [| discriminate].
        f_equal. apply (Hf k).
        - apply in_or_app. left.
          now apply (get_In String.eqb str_eqb_eq).
        - apply in_or_app. right. now left. }
      rewrite (set_same _ _ _ Hget), IH.
      * rewrite filter_filter. f_equal. apply filter_ext. intros [k' v'].
        cbn [fst]. destruct (String.eqb_spec k' k) as [-> | Hne];
          cbn [negb andb]; [now rewrite Hc | reflexivity].
      * apply (functional_incl _ (acc ++ (k, v) :: kvs)); [| assumption].
        intros x Hx. apply in_app_or in Hx. apply in_or_app.
        destruct Hx; [now left | right; now right].
    + rewrite (set_fresh String.eqb str_eqb_eq)
        by now apply contains_false_notin.
      rewrite IH.
      * rewrite <- app_assoc, filter_filter. cbn [app]. do 2 f_equal.
        apply filter_ext. intros [k' v']. cbn [fst].
        rewrite contains_snoc, negb_orb, andb_comm, (String.eqb_sym k k').
        reflexivity.
      * apply (functional_incl _ (acc ++ (k, v) :: kvs)); [| assumption].
        intros x Hx. rewrite <- app_assoc in Hx. exact Hx.
Qed.

Lemma labelled_In (records : list FlatRecord) c l :
  In (c, l) (labelled records) <->
  c <> "" /\ exists r, In r records /\ unit_code r = Some c /\ unit_label r = l.
Proof.
  unfold labelled. rewrite in_flat_map. split.
  - intros (r & Hr & Hc). destruct (unit_code r) as [u |] eqn:Hu;
      [| contradiction].
    destruct (truthy (Some u)) eqn:Ht; [| contradiction].
    destruct Hc as [[= <- <-] | []]. split; [now apply truthy_Some |].
    eauto.
  - intros (Hne & r & Hr & Hu & Hl). exists r. split; [assumption |].
    rewrite Hu. apply truthy_Some in Hne. rewrite Hne. subst l. now left.
Qed.

Lemma consistent_functional (records : list FlatRecord) :
  unit_labels_consistent records -> functional (labelled records).
Proof.
  intros Hc k v v' H1 H2. apply labelled_In in H1, H2.
  destruct H1 as (_ & r & Hr & Hu & <-).
  destruct H2 as (_ & r' & Hr' & Hu' & <-).
  apply Hc; congruence.
Qed.

Lemma inline_labels_first_seen (records : list FlatRecord) :
  unit_labels_consistent records ->
  of_items String.eqb (unit_label_items records)
  = unit_labels_loop records [].
Proof.
  intros Hc. rewrite unit_labels_loop_first_seen.
  change (unit_label_items records) with (labelled records).
  unfold of_items. rewrite fold_set_first_seen; [reflexivity |].
  now apply consistent_functional.
Qed.

Lemma inline_choice_agrees (records : list FlatRecord) :
  unit_labels_consistent records ->
  choose_unit_inline records = _choose_pct_unit records.
Proof.
  intros Hc. unfold choose_unit_inline, _choose_pct_unit.
  now rewrite inline_labels_first_seen.
Qed.

End InlineChoice.


Section SinglePeriod.

Lemma materialize_last_forget dim_ids size dim_meta
  (items : list (string * option Q)) :
  forall acc,
    materialize_last_loop dim_ids size dim_meta items
      (map forget_time_pos acc)
    = match materialize_loop dim_ids size dim_meta items acc with
      | OK all_records => OK (map forget_time_pos all_records)
      | Err e => Err e
      end.
Proof.
  induction items as [| [k v] items IH]; intros acc;
    cbn [materialize_last_loop materialize_loop]; [reflexivity |].
  destruct (int_of_string k) as [lin_idx | e]; cbn [Py.bind];
    [| reflexivity].
  destruct (_linear_index_to_coords lin_idx size) as [coords | e];
    cbn [Py.bind]; [| reflexivity].
  destruct (coord_loop dim_meta (combine dim_ids coords) [])
    as [coord_map | e]; cbn [Py.bind]; [| reflexivity].
  rewrite <- IH, map_app. reflexivity.
Qed.

Lemma truthy_codes_forget (f : FlatRecord -> option string)
  (records : list FlatRecord) :
  (forall r, f (forget_time_pos r) = f r) ->
  truthy_codes f (map forget_time_pos records) = truthy_codes f records.
Proof.
  intros Hf. unfold truthy_codes.
  induction records as [| r records IH]; [reflexivity |].
  cbn [map flat_map]. now rewrite IH, Hf.
Qed.

Lemma unit_labels_loop_forget (records : list FlatRecord) :
  forall acc,
    unit_labels_loop (map forget_time_pos records) acc
    = unit_labels_loop records acc.
Proof.
  induction records as [| r records IH]; intros acc; [reflexivity |].
  cbn [map unit_labels_loop forget_time_pos unit_code unit_label].
  destruct (unit_code r); [| apply IH].
  destruct (_ && _); apply IH.
Qed.

Lemma choose_forget (records : list FlatRecord) :
  _choose_pct_unit (map forget_time_pos records) = _choose_pct_unit records.
Proof.
  unfold _choose_pct_unit.
  rewrite truthy_codes_forget by reflexivity.
  now rewrite unit_labels_loop_forget.
Qed.

Lemma unit_filter_forget (u : option string) (records : list FlatRecord) :
  unit_filter u (map forget_time_pos records)
  = map forget_time_pos (unit_filter u records).
Proof.
  unfold unit_filter. destruct (truthy u); [| reflexivity].
  induction records as [| r records IH]; [reflexivity |].
  cbn [map filter forget_time_pos unit_code].
  destruct (eqb_ostr (unit_code r) u); cbn [map]; now rewrite IH.
Qed.

Lemma insert_desc_forget (x : FlatRecord) (l : list FlatRecord) :
  insert_desc latest_key latest_key_lt (forget_time_pos x)
    (map forget_time_pos l)
  = map forget_time_pos (insert_desc latest_key latest_key_lt x l).
Proof.
  induction l as [| y l IH]; [reflexivity |].
  cbn [map insert_desc].
  change (ltb latest_key latest_key_lt (forget_time_pos x) (forget_time_pos y))
    with (ltb latest_key latest_key_lt x y).
  destruct (ltb latest_key latest_key_lt x y); cbn [map];
    [now rewrite IH | reflexivity].
Qed.

Lemma sort_desc_forget (l : list FlatRecord) :
  fold_right (insert_desc latest_key latest_key_lt) []
    (map forget_time_pos l)
  = map forget_time_pos
      (fold_right (insert_desc latest_key latest_key_lt) [] l).
Proof.
  induction l as [| x l IH]; [reflexivity |].
  cbn [map fold_right]. now rewrite IH, insert_desc_forget.
Qed.

Lemma catalog_labels_consistent dim_meta (records : list FlatRecord) :
  Forall (record_of_catalog dim_meta) records ->
  unit_labels_consistent (map forget_time_pos records).
Proof.
  intros Hcat r r' Hr Hr' Hcode. apply in_map_iff in Hr, Hr'.
  destruct Hr as (a & <- & Ha). destruct Hr' as (b & <- & Hb).
  rewrite Forall_forall in Hcat.
  destruct (Hcat a Ha) as [Hla _]. destruct (Hcat b Hb) as [Hlb _].
  cbn [forget_time_pos unit_code unit_label] in *. congruence.
Qed.

(** The single-period parse in terms of the materializer and the unit
    choice of the multi-dataset script. *)
Lemma parse_last_exact (cube : Cube) dimension dim_ids size value_map
  dim_meta all_records :
  cube_dimension cube = Some dimension ->
  cube_id cube = Some dim_ids ->
  cube_size cube = Some size ->
  cube_value cube = Some value_map ->
  build_loop dimension dim_ids [] = OK dim_meta ->
  materialize_loop dim_ids size dim_meta value_map [] = OK all_records ->
  parse_cube_last_period cube
  = OK (map forget_time_pos
          (fold_right (insert_desc latest_key latest_key_lt) []
             (unit_filter (_choose_pct_unit all_records) all_records)),
        {| lm_dim_ids := dim_ids;
           lm_units_present := sorted_set (truthy_codes unit_code all_records);
           lm_chosen_unit := _choose_pct_unit all_records |}).
Proof.
  intros Hd Hi Hs Hv Hb Hm. unfold parse_cube_last_period.
  rewrite Hd, Hi, Hs, Hv. cbn [field Py.bind]. rewrite Hb. cbn [Py.bind].
  pose proof (materialize_last_forget dim_ids size dim_meta value_map [])
    as Hlast.
  rewrite Hm in Hlast. cbn [map] in Hlast. rewrite Hlast. cbn [Py.bind].
  assert (Hcons : unit_labels_consistent (map forget_time_pos all_records)).
  { apply (catalog_labels_consistent dim_meta).
    apply (materialize_loop_catalog _ _ _ _ _ _ Hm). constructor. }
  rewrite (inline_choice_agrees _ Hcons), choose_forget.
  rewrite truthy_codes_forget by reflexivity.
  unfold py_sorted. rewrite latest_comparable. cbn [Py.bind].
  now rewrite unit_filter_forget, sort_desc_forget.
Qed.


Lemma latest_out_forget (l : list FlatRecord) :
  map latest_out (map forget_time_pos l) = map latest_out l.
Proof. rewrite map_map. reflexivity. Qed.

End SinglePeriod.



(** X17. On a cube that the multi-dataset parse accepts and whose
    unit-filtered records all sit at the last declared time position (one
    requested period), the single-period script gives the same result: its
    parse succeeds, chooses the same unit, and [build_output] lists exactly
    the latest-period records of [parse_latest_and_timeseries], in the same
    order. *)
Theorem single_period_scripts_agree (cube : Cube) latest series meta
  (source_url dataset_id now : string) :
  parse_latest_and_timeseries cube = OK (latest, series, meta) ->
  (forall r, In r (unit_filtered_records cube) ->
             time_pos r = Some (latest_time_pos_of cube)) ->
  exists records lmeta,
    parse_cube_last_period cube = OK (records, lmeta) /\
    lm_chosen_unit lmeta = meta_chosen_unit meta /\
    ob_records (build_output records source_url dataset_id now) = latest.
Proof.
  intros Hparse Hlast.
  destruct (parse_inv_cube _ _ _ _ Hparse)
    as (kept & Hkept & Hlatest & _ & Hchosen & _).
  destruct (parse_inv _ _ _ _ Hparse)
    as (dim_ids & size & dim_meta & time_meta & all_records & latest_records
        & Hbuild & _ & Hmat & _ & _ & _ & _).
  assert (Hall : all_records_of cube = all_records).
  { unfold all_records_of. now rewrite Hbuild, Hmat. }
  assert (Hvalue : exists value_map, cube_value cube = Some value_map /\
                     field_or_empty (cube_value cube) = value_map).
  { destruct (cube_value cube) as [vm |] eqn:Hv; [now exists vm |].
    unfold parse_latest_and_timeseries in Hparse. rewrite Hv in Hparse.
    discriminate. }
  destruct Hvalue as (value_map & Hv & Hfield). rewrite Hfield in Hmat.
  unfold _build_dim_meta, field in Hbuild.
  destruct (cube_id cube) as [ids |] eqn:Hi; cbn [Py.bind] in Hbuild;
    [| discriminate].
  destruct (cube_size cube) as [sz |] eqn:Hs; cbn [Py.bind] in Hbuild;
    [| discriminate].
  destruct (cube_dimension cube) as [dimension |] eqn:Hd;
    cbn [Py.bind] in Hbuild; [| discriminate].
  destruct (build_loop dimension ids []) as [dm | e] eqn:Hb;
    cbn [Py.bind] in Hbuild; [| discriminate].
  injection Hbuild as -> -> ->.
  do 2 eexists. split.
  - apply (parse_last_exact cube dimension dim_ids size value_map dim_meta
             all_records); assumption.
  - cbn [lm_chosen_unit]. split; [now rewrite Hchosen, Hall |].
    unfold build_output. cbn [ob_records]. rewrite latest_out_forget.
    rewrite Hlatest. f_equal.
    unfold latest_records_of, py_sorted in Hkept.
    rewrite latest_comparable in Hkept. injection Hkept as <-.
    rewrite unit_filtered_all, Hall in *.
    rewrite forallb_filter_id; [reflexivity |].
    apply forallb_forall. intros r Hr. apply eqb_oZ_eq. now apply Hlast.
Qed.

Lemma single_period_scripts_agree_witness :
  exists records lmeta,
    parse_cube_last_period two_unit_cube = OK (records, lmeta) /\
    lm_chosen_unit lmeta = Some "PC_GDP" /\
    ob_records
      (build_output records "https://example.org/teina230" "teina230"
         "2024-07-01T00:00:00+00:00")
    = [{| lo_country_code := Some "BE"; lo_country := Some "Belgium";
          lo_time := Some "2024"; lo_value_pct_gdp := Some 105%Q |}].
Proof.
  apply (single_period_scripts_agree two_unit_cube _
           (match parse_latest_and_timeseries two_unit_cube with
            | OK (_, series, _) => series
            | Err _ => []
            end)
           {| meta_dim_ids := ["unit"; "geo"; "time"];
              meta_units_present := ["PC_GDP"];
              meta_chosen_unit := Some "PC_GDP";
              meta_latest_time_code := "2024";
              meta_latest_time_label := "2024" |}).
  - vm_compute. reflexivity.
  - intros r Hr. vm_compute in Hr. destruct Hr as [<- | []]. reflexivity.
Defined.

(* ------------------------------------------------------------------ *)
(** ** [build_output]: the period it reports *)
(* ------------------------------------------------------------------ *)

Section OutputPeriod.

Lemma truthy_codes_In_of (f : FlatRecord -> option string) (c : string)
  (records : list FlatRecord) :
  In c (truthy_codes f records) <->
  c <> "" /\ exists r, In r records /\ f r = Some c.
Proof.
  unfold truthy_codes. rewrite in_flat_map. split.
  - intros (r & Hr & Hc). destruct (f r) as [u |] eqn:Hu; [| contradiction].
    destruct (truthy (Some u)) eqn:Ht; [| contradiction].
    destruct Hc as [-> | []]. split; [now apply truthy_Some | eauto].
  - intros (Hne & r & Hr & Hu). exists r. split; [assumption |].
    rewrite Hu. apply truthy_Some in Hne. rewrite Hne. now left.
Qed.

Lemma str_insert_sorted (x : string) (l : list string) :
  StronglySorted (asc String.ltb) l ->
  StronglySorted (asc String.ltb) (str_insert x l).
Proof.
  induction 1 as [| y l Hs IH Hy]; cbn [str_insert].
  - repeat constructor.
  - destruct (String.ltb y x) eqn:Hyx.
    + constructor; [assumption |].
      apply Forall_forall. intros z Hz.
      apply (Permutation_in _ (str_insert_perm x l)) in Hz.
      destruct Hz as [<- | Hz].
      * now apply str_ltb_asym.
      * rewrite Forall_forall in Hy. now apply Hy.
    + constructor; [now constructor |].
      constructor; [exact Hyx |].
      rewrite Forall_forall in *. intros z Hz. unfold asc in *.
      apply (str_ltb_negtrans z y x); auto.
Qed.

Lemma sorted_set_sorted (codes : list string) :
  StronglySorted (asc String.ltb) (sorted_set codes).
Proof.
  unfold sorted_set. induction (nodup string_dec codes) as [| c l IH];
    cbn [fold_right]; [constructor |].
  now apply str_insert_sorted.
Qed.

(** The head of a sorted set is its least element. *)
Lemma sorted_set_head (codes : list string) :
  match hd_error (sorted_set codes) with
  | Some t => In t codes /\ forall c, In c codes -> String.ltb c t = false
  | None => codes = []
  end.
Proof.
  pose proof (sorted_set_sorted codes) as Hs.
  pose proof (fun c => sorted_set_In c codes) as Hin.
  destruct (sorted_set codes) as [| t rest]; cbn [hd_error].
  - destruct codes as [| c codes]; [reflexivity |].
    exfalso. apply (proj2 (Hin c)). now left.
  - split; [apply Hin; now left |].
    intros c Hc. apply Hin in Hc. destruct Hc as [<- | Hc].
    + apply str_ltb_irrefl.
    + apply StronglySorted_inv in Hs. destruct Hs as [_ Hall].
      rewrite Forall_forall in Hall. now apply Hall.
Qed.

End OutputPeriod.

(** X18. The period [build_output] reports as "latest_period" is the least
    non-empty time label among the records (the first of the sorted labels,
    so the earliest period if there are several), and it is missing exactly
    when no record has a time label. *)
Theorem build_output_reports_least_label (records : list FlatRecord)
  (source_url dataset_id now : string) :
  match ob_latest_period (build_output records source_url dataset_id now) with
  | Some t =>
      t <> "" /\
      (exists r, In r records /\ time_label r = Some t) /\
      forall r t', In r records -> time_label r = Some t' -> t' <> "" ->
                   String.ltb t' t = false
  | None => forall r, In r records -> truthy (time_label r) = false
  end.
Proof.
  unfold build_output. cbn [ob_latest_period].
  pose proof (sorted_set_head (truthy_codes time_label records)) as H.
  destruct (hd_error _) as [t |].
  - destruct H as [Hin Hleast].
    apply truthy_codes_In_of in Hin. destruct Hin as (Hne & r & Hr & Ht).
    split; [assumption |]. split; [eauto |].
    intros r' t' Hr' Ht' Hne'. apply Hleast.
    apply truthy_codes_In_of. eauto.
  - intros r Hr. destruct (time_label r) as [t |] eqn:Ht; [| reflexivity].
    destruct (truthy (Some t)) eqn:Htr; [| reflexivity].
    exfalso.
    assert (Hin : In t (truthy_codes time_label records)).
    { apply truthy_codes_In_of. split; [now apply truthy_Some | eauto]. }
    rewrite H in Hin. contradiction.
Qed.

(** With two periods in the records, the earlier one is reported. *)
Example build_output_two_periods :
  ob_latest_period
    (build_output (unit_filtered_records scenario_cube) "url" "teina230" "now")
  = Some "2024-Q1".
Proof. reflexivity. Qed.

(* ------------------------------------------------------------------ *)
(** ** [main]: failures are skipped *)
(* ------------------------------------------------------------------ *)

Section MainLoop.
Context {Cfg Entry : Type} (process_dataset : Cfg -> result (string * Entry)).

Lemma get_app_last (d : dict string Entry) k0 v0 k :
  get String.eqb (d ++ [(k0, v0)]) k
  = match get String.eqb d k with
    | Some v => Some v
    | None => if String.eqb k0 k then Some v0 else None
    end.
Proof.
  induction d as [| [k' v'] d IH]; simpl; [reflexivity |].
  destruct (String.eqb k' k); [reflexivity | apply IH].
Qed.

Lemma main_loop_successes (datasets : list Cfg) :
  forall manifest,
    main_loop process_dataset datasets manifest
    = fold_left (fun d kv => set String.eqb d (fst kv) (snd kv))
        (successes process_dataset datasets) manifest.
Proof.
  unfold successes.
  induction datasets as [| cfg datasets IH]; intros manifest; [reflexivity |].
  cbn [main_loop flat_map].
  destruct (process_dataset cfg) as [[dataset_id entry] | e];
    cbn [app fold_left fst snd]; apply IH.
Qed.

Lemma fold_set_last_wins (kvs : list (string * Entry)) :
  forall acc k,
    get String.eqb
      (fold_left (fun d kv => set String.eqb d (fst kv) (snd kv)) kvs acc) k
    = match get String.eqb (rev kvs) k with
      | Some v => Some v
      | None => get String.eqb acc k
      end.
Proof.
  induction kvs as [| [k0 v0] kvs IH]; intros acc k; [reflexivity |].
  cbn [fold_left fst snd rev]. rewrite IH, get_app_last.
  destruct (get String.eqb (rev kvs) k); [reflexivity |].
  destruct (String.eqb_spec k0 k) as [<- | Hne].
  - apply (get_set_same String.eqb str_eqb_eq).
  - now apply (get_set_other String.eqb str_eqb_eq).
Qed.

End MainLoop.

(** X19. One dataset's failure does not stop the run and leaves no trace in
    the manifest: whatever the outcomes of [process_dataset], the manifest
    holds under a dataset identifier the entry of the last call that
    succeeded with that identifier, and nothing under an identifier no
    successful call returned. *)
Theorem main_manifest_holds_successes {Cfg Entry : Type}
  (process_dataset : Cfg -> result (string * Entry)) (datasets : list Cfg)
  (dataset_id : string) :
  get String.eqb (main_manifest process_dataset datasets) dataset_id
  = get String.eqb (rev (successes process_dataset datasets)) dataset_id.
Proof.
  unfold main_manifest.
  rewrite main_loop_successes, fold_set_last_wins.
  now destruct (get String.eqb (rev _) dataset_id).
Qed.

(* ------------------------------------------------------------------ *)
(** ** The cross-section and the metadata name the same period *)
(* ------------------------------------------------------------------ *)

Section LatestPeriod.

Lemma unit_filter_incl (u : option string) (records : list FlatRecord) :
  incl (unit_filter u records) records.
Proof.
  unfold unit_filter. destruct (truthy u); [| apply incl_refl].
  intros r Hr. now apply filter_In in Hr.
Qed.

(** A successful parse with the period it resolved. *)
Lemma parse_inv_time (cube : Cube) latest series meta :
  parse_latest_and_timeseries cube = OK (latest, series, meta) ->
  exists dim_ids size dim_meta time_meta all_records kept,
    get String.eqb dim_meta "time" = Some time_meta /\
    get Z.eqb (dm_inv_index time_meta) (dm_size time_meta - 1)
    = Some (meta_latest_time_code meta) /\
    meta_latest_time_label meta
    = label_in dim_meta "time" (meta_latest_time_code meta) /\
    materialize_loop dim_ids size dim_meta
      (field_or_empty (cube_value cube)) [] = OK all_records /\
    latest_records_of
      (unit_filter (_choose_pct_unit all_records) all_records)
      (dm_size time_meta - 1) = OK kept /\
    latest = map latest_out kept.
Proof.
  unfold parse_latest_and_timeseries. intros H.
  destruct (field_or_empty (cube_value cube)) as [| kv value_map] eqn:Hv;
    [discriminate |].
  destruct (_build_dim_meta cube) as [[[dim_ids size] dim_meta] | e];
    cbn [Py.bind] in H; [| discriminate].
  destruct (get String.eqb dim_meta "time") as [time_meta |] eqn:Htime;
    [| discriminate].
  unfold getitem in H.
  destruct (get Z.eqb (dm_inv_index time_meta) (dm_size time_meta - 1))
    as [latest_time_code |] eqn:Hcode; cbn [Py.bind] in H; [| discriminate].
  destruct (materialize_loop dim_ids size dim_meta (kv :: value_map) [])
    as [all_records | e] eqn:Hmat; cbn [Py.bind] in H; [| discriminate].
  destruct (latest_records_of _ _) as [latest_records | e] eqn:Hl;
    cbn [Py.bind] in H; [| discriminate].
  destruct (timeseries_of _) as [series_by_geo | e] eqn:Ht;
    cbn [Py.bind] in H; [| discriminate].
  injection H as <- <- <-.
  exists dim_ids, size, dim_meta, time_meta, all_records, latest_records.
  cbn [meta_latest_time_code meta_latest_time_label].
  unfold label_in. rewrite Htime. repeat split; auto.
Qed.

End LatestPeriod.

(** X20. Every record of the cross-section carries, as its "time", the
    label of the latest period that the parse reports in its metadata. *)
Theorem latest_records_carry_latest_label (cube : Cube) latest series meta :
  parse_latest_and_timeseries cube = OK (latest, series, meta) ->
  Forall (fun o => lo_time o = Some (meta_latest_time_label meta)) latest.
Proof.
  intros Hparse.
  destruct (parse_inv_time _ _ _ _ Hparse)
    as (dim_ids & size & dim_meta & time_meta & all_records & kept
        & Htime & Hcode & Hlabel & Hmat & Hkept & ->).
  destruct (latest_records_of_spec
              (unit_filter (_choose_pct_unit all_records) all_records)
              (dm_size time_meta - 1)) as (kept' & Hk' & Hperm & _).
  rewrite Hkept in Hk'. injection Hk' as <-.
  pose proof (materialize_loop_catalog _ _ _ _ _ _ Hmat (Forall_nil _))
    as Hcat.
  rewrite Forall_forall in Hcat.
  apply Forall_forall. intros o Ho. apply in_map_iff in Ho.
  destruct Ho as (r & <- & Hr).
  apply (Permutation_in _ Hperm), filter_In in Hr. destruct Hr as [Hr Hpos].
  apply eqb_oZ_eq in Hpos. apply unit_filter_incl in Hr.
  destruct (Hcat r Hr) as (_ & _ & Hlab & Hinv).
  rewrite Hpos in Hinv. destruct Hinv as (m & Hm & Hget).
  rewrite Htime in Hm. injection Hm as <-.
  rewrite Hcode in Hget. cbn [latest_out lo_time].
  rewrite Hlab, <- Hget, Hlabel. reflexivity.
Qed.

Lemma latest_records_carry_latest_label_witness :
  Forall (fun o => lo_time o = Some "2024-Q2")
    [{| lo_country_code := Some "DE"; lo_country := Some "Germany";
        lo_time := Some "2024-Q2"; lo_value_pct_gdp := Some 65%Q |};
     {| lo_country_code := Some "BE"; lo_country := Some "Belgium";
        lo_time := Some "2024-Q2"; lo_value_pct_gdp := Some 60%Q |}].
Proof.
  apply (latest_records_carry_latest_label scenario_cube _
           (match parse_latest_and_timeseries scenario_cube with
            | OK (_, series, _) => series
            | Err _ => []
            end)
           {| meta_dim_ids := ["unit"; "geo"; "time"];
              meta_units_present := ["PC_GDP"];
              meta_chosen_unit := Some "PC_GDP";
              meta_latest_time_code := "2024-Q2";
              meta_latest_time_label := "2024-Q2" |}).
  vm_compute. reflexivity.
Defined.

(* ------------------------------------------------------------------ *)
(** ** A dense cube always parses *)
(* ------------------------------------------------------------------ *)

Section DenseCube.



End DenseCube.



(* ------------------------------------------------------------------ *)
(** ** The series carry the labels of the catalog *)
(* ------------------------------------------------------------------ *)

Section SeriesLabels.
Variable records : list FlatRecord.

Lemma modify_push_opened (d : dict string GeoSeries) k e :
  Forall (opened_for records) d ->
  Forall (opened_for records) (modify String.eqb d k (push_entry e)).
Proof.
  induction 1 as [| [k' v'] d Hkv Hd IH]; cbn [modify]; [constructor |].
  destruct (String.eqb k' k); constructor; auto.
Qed.

Lemma series_step_opened (d : dict string GeoSeries) (r : FlatRecord) :
  In r records -> has_geo r = true ->
  Forall (opened_for records) d ->
  Forall (opened_for records) (series_step d r).
Proof.
  intros Hr Hgeo Hd. unfold series_step. apply modify_push_opened.
  destruct (contains String.eqb d (geo_of r)) eqn:Hc; cbn [negb];
    [assumption |].
  rewrite (set_fresh String.eqb str_eqb_eq)
    by now apply contains_false_notin.
  apply Forall_app. split; [assumption |].
  constructor; [| constructor]. split; [reflexivity |].
  exists r. cbn [fst snd gs_country].
  destruct (has_geo_geo_of r Hgeo) as [Hcode _]. auto.
Qed.

Lemma fold_opened (l : list FlatRecord) :
  forall d,
    incl l records -> Forall (fun r => has_geo r = true) l ->
    Forall (opened_for records) d ->
    Forall (opened_for records) (fold_left series_step l d).
Proof.
  induction l as [| r l IH]; intros d Hincl Hgeo Hd; cbn [fold_left];
    [assumption |].
  inversion Hgeo as [| ? ? Hr Hl]; subst.
  apply IH; [intros x Hx; apply Hincl; now right | assumption |].
  apply series_step_opened; [apply Hincl; now left | assumption | assumption].
Qed.

End SeriesLabels.

(** X22. Every series of a successful parse has the unit "% of GDP" and, as
    its country, the catalog's label of its geography code
    ([labels.get(code, code)] of the geo dimension). *)
Theorem series_carry_catalog_labels (cube : Cube) latest series meta :
  parse_latest_and_timeseries cube = OK (latest, series, meta) ->
  Forall (fun s =>
            gs_unit s = "% of GDP" /\
            gs_country s
            = Some (label_in (dim_meta_of cube) "geo" (gs_country_code s)))
    (timeseries_records series).
Proof.
  intros Hparse.
  destruct (parse_inv _ _ _ _ Hparse)
    as (dim_ids & size & dim_meta & time_meta & all_records & latest_records
        & Hbuild & _ & Hmat & _ & _ & _ & Hseries).
  assert (Hdm : dim_meta_of cube = dim_meta)
    by (unfold dim_meta_of; now rewrite Hbuild).
  pose proof (materialize_loop_catalog _ _ _ _ _ _ Hmat (Forall_nil _))
    as Hcat. rewrite Forall_forall in Hcat.
  set (filtered := unit_filter (_choose_pct_unit all_records) all_records)
    in *.
  assert (Hcmp : all_comparable geo_time_key geo_time_key_lt filtered = true).
  { pose proof (unit_filtered_comparable cube) as H.
    unfold unit_filtered_records in H. now rewrite Hbuild, Hmat in H. }
  destruct (timeseries_of_series filtered Hcmp)
    as (sorted_records & _ & Hperm & Hts & _).
  rewrite Hseries in Hts. injection Hts as ->.
  set (l := filter has_geo sorted_records).
  assert (Hopened : Forall (opened_for filtered)
                      (fold_left series_step l [])).
  { apply fold_opened; [| | constructor].
    - intros r Hr. apply filter_In in Hr.
      now apply (Permutation_in _ Hperm).
    - apply Forall_forall. intros r Hr. now apply filter_In in Hr. }
  assert (Hcodes : Forall (fun kv => gs_country_code (snd kv) = fst kv)
                     (fold_left series_step l []))
    by (apply fold_codes_Forall; constructor).
  rewrite Forall_forall in Hopened, Hcodes.
  apply Forall_forall. intros s Hs. unfold timeseries_records in Hs.
  apply In_values_get in Hs. destruct Hs as (k & _ & Hks).
  destruct (Hopened _ Hks) as [Hunit (r & Hr & Hgeo & Hcountry)].
  pose proof (Hcodes _ Hks) as Hcode. cbn [fst snd] in *.
  split; [assumption |].
  apply unit_filter_incl in Hr. destruct (Hcat r Hr) as (_ & Hlab & _).
  rewrite Hcountry, Hlab, Hgeo, Hcode, Hdm. reflexivity.
Qed.

Lemma series_carry_catalog_labels_witness :
  Forall (fun s =>
            gs_unit s = "% of GDP" /\
            gs_country s
            = Some (label_in (dim_meta_of scenario_cube) "geo"
                      (gs_country_code s)))
    (timeseries_records
       (match parse_latest_and_timeseries scenario_cube with
        | OK (_, series, _) => series
        | Err _ => []
        end)).
Proof.
  apply (series_carry_catalog_labels scenario_cube
           (match parse_latest_and_timeseries scenario_cube with
            | OK (latest, _, _) => latest
            | Err _ => []
            end) _
           {| meta_dim_ids := ["unit"; "geo"; "time"];
              meta_units_present := ["PC_GDP"];
              meta_chosen_unit := Some "PC_GDP";
              meta_latest_time_code := "2024-Q2";
              meta_latest_time_label := "2024-Q2" |}).
  vm_compute. reflexivity.
Defined.

(* ------------------------------------------------------------------ *)
(** ** The single-period parse on a document without values *)
(* ------------------------------------------------------------------ *)

(** X23. [parse_cube_last_period] has no guard on the value mapping: it
    raises [KeyError] when the document has no "value" entry, and on an
    empty value mapping it returns no records and no chosen unit whenever
    the catalog builds (where [parse_latest_and_timeseries] raises its
    [ValueError] in both cases). *)
Theorem single_period_parse_without_values (cube : Cube) :
  (cube_value cube = None -> parse_cube_last_period cube = Err KeyError) /\
  (cube_value cube = Some [] ->
   forall dim_ids size dim_meta,
     _build_dim_meta cube = OK (dim_ids, size, dim_meta) ->
     parse_cube_last_period cube
     = OK ([], {| lm_dim_ids := dim_ids; lm_units_present := [];
                  lm_chosen_unit := None |})) /\
  (cube_value cube = None \/ cube_value cube = Some [] ->
   parse_latest_and_timeseries cube = Err (ValueError no_value_msg)).
Proof.
  split; [| split].
  - intros Hv. unfold parse_cube_last_period, field. rewrite Hv.
    destruct (cube_dimension cube); cbn [Py.bind]; [| reflexivity].
    destruct (cube_id cube); cbn [Py.bind]; [| reflexivity].
    destruct (cube_size cube); reflexivity.
  - intros Hv dim_ids size dim_meta Hbuild.
    unfold _build_dim_meta, field in Hbuild.
    unfold parse_cube_last_period, field. rewrite Hv.
    destruct (cube_id cube) as [ids |]; cbn [Py.bind] in Hbuild;
      [| discriminate].
    destruct (cube_size cube) as [sz |]; cbn [Py.bind] in Hbuild;
      [| discriminate].
    destruct (cube_dimension cube) as [dimension |];
      cbn [Py.bind] in Hbuild; [| discriminate].
    cbn [Py.bind].
    destruct (build_loop dimension ids []) as [dm | e];
      cbn [Py.bind] in Hbuild; [| discriminate].
    injection Hbuild as -> -> ->. reflexivity.
  - intros [Hv | Hv]; unfold parse_latest_and_timeseries; rewrite Hv;
      reflexivity.
Qed.

(** Both parses on a well-formed cube without observations. *)
Example parses_of_empty_value_cube :
  parse_cube_last_period empty_value_cube
  = OK ([], {| lm_dim_ids := ["geo"; "time"]; lm_units_present := [];
               lm_chosen_unit := None |}) /\
  parse_latest_and_timeseries empty_value_cube
  = Err (ValueError no_value_msg).
Proof. split; reflexivity. Qed.
